(** * simpleConsolePlot: a shallow embedding of [SCP::Plot] and its rendering core

    The development follows [src/simpleConsolePlot.hpp]: the cell grid
    ([printBuf]), the blending rule of [setCell], the coordinate mapping of
    [printPoint] and [printLine], the line walk of [printLine], and the
    aggregator operations ([point], [line], [render], ...).

    Conventions of the embedding:
    - [int] is a [Z] in the 32-bit signed range; every [int] operation that can
      leave the range is written with [wrap32] (two's complement). Signed
      overflow has no defined result in C++: the theorems that depend on
      [int] arithmetic carry the range hypotheses ([wf], [span_ok]) under
      which no operation wraps;
    - [int8_t] is a [Z] in [-128, 127]; a store into an [int8_t] is [wrap8];
    - [double] is Rocq's primitive binary64 [float]; the conversion of a
      [double] to [int] truncates toward zero and has no result ([None]) when
      the truncated value is not an [int] (undefined in C++);
    - [char] is [ascii]; only equality of characters is ever used;
    - [std::unordered_map] is an association list in iteration order;
    - an operation with no defined result (null buffer, allocation failure,
      conversion out of range, a loop that has not finished within its fuel)
      returns [None];
    - [stdout] is the list of the characters written to it; a [std::string] is
      a list of characters; [printf] of a [double] under a format of the
      caller is a parameter of [print]. *)

From Stdlib Require Import ZArith Lia Bool Ascii Floats.
From Stdlib Require String DecimalString.
From stdpp Require Import base option list.

Local Open Scope Z_scope.

Module SCP.

(** * The program *)

(** ** Machine integers *)

Definition INT_MIN : Z := - 2 ^ 31.
Definition INT_MAX : Z := 2 ^ 31 - 1.

Definition wrap32 (z : Z) : Z := (z + 2 ^ 31) mod 2 ^ 32 - 2 ^ 31.
Definition wrap8 (z : Z) : Z := (z + 128) mod 256 - 128.

Definition int_add (a b : Z) : Z := wrap32 (a + b).
Definition int_sub (a b : Z) : Z := wrap32 (a - b).
Definition int_mul (a b : Z) : Z := wrap32 (a * b).
Definition int_neg (a : Z) : Z := wrap32 (- a).
Definition int_abs (a : Z) : Z := if a <? 0 then int_neg a else a.

Definition is_int (z : Z) : Prop := INT_MIN <= z <= INT_MAX.

(** ** Doubles and their conversion to [int] *)

(** [int] to [double]: exact, since every [int] fits in 53 bits. *)
Definition of_int (z : Z) : float :=
  if z <? 0 then PrimFloat.opp (PrimFloat.of_uint63 (Uint63.of_Z (- z)))
  else PrimFloat.of_uint63 (Uint63.of_Z z).

(** The integer part of a binary float, fractional digits discarded. *)
Definition SF_trunc (f : spec_float) : option Z :=
  match f with
  | S754_zero _ => Some 0
  | S754_finite s m e =>
      let a := if 0 <=? e then Z.pos m * 2 ^ e else Z.pos m / 2 ^ (- e) in
      Some (if s then - a else a)
  | S754_infinity _ | S754_nan => None
  end.

(** [double] to [int], as in [int x1 = <double expression>]. *)
Definition to_int (f : float) : option Z :=
  z ← SF_trunc (Prim2SF f);
  if (INT_MIN <=? z) && (z <=? INT_MAX) then Some z else None.

(** ** Data model *)

Definition EMPTY : ascii := " "%char.
Definition BLOCK : ascii := "000"%char.

(** Palette indices of the anonymous [enum] of namespace [SCP]. *)
Definition BLACK : Z := 0.
Definition RED : Z := 1.
Definition GREEN : Z := 2.
Definition YELLOW : Z := 3.
Definition BLUE : Z := 4.
Definition MAGENTA : Z := 5.
Definition CYAN : Z := 6.
Definition BRIGHT_GRAY : Z := 7.
Definition DARK_GRAY : Z := 8.
Definition BRIGHT_RED : Z := 9.
Definition BRIGHT_GREEN : Z := 10.
Definition BRIGHT_YELLOW : Z := 11.
Definition BRIGHT_BLUE : Z := 12.
Definition BRIGHT_MAGENTA : Z := 13.
Definition BRIGHT_CYAN : Z := 14.
Definition WHITE : Z := 15.

Record Cell : Type := mkCell { ch : ascii; co : Z }.

Record Point : Type := mkPoint { px : float; py : float }.

Record Line : Type := mkLine { la : Point; lb : Point }.

(** [Cell::operator==], the key equality of both maps. *)
Definition Cell_eqb (a b : Cell) : bool :=
  Ascii.eqb (ch a) (ch b) && (co a =? co b).

(** The members of [Plot]. [xFormat] and [yFormat] only feed [print] and are
    left out. [printBuf = None] is the null pointer. *)
Record Plot : Type := mkPlot {
  w : Z;
  h : Z;
  printBuf : option (list Cell);
  background : Z;
  range : bool;
  invertedY : bool;
  topLeft : Point;
  dx : float;
  dy : float;
  minX : float;
  maxX : float;
  minY : float;
  maxY : float;
  points : list (Cell * list Point);
  lines : list (Cell * list Line)
}.

Definition set_printBuf (b : option (list Cell)) (p : Plot) : Plot :=
  mkPlot (w p) (h p) b (background p) (range p) (invertedY p) (topLeft p)
    (dx p) (dy p) (minX p) (maxX p) (minY p) (maxY p) (points p) (lines p).

Definition set_size (w' h' : Z) (p : Plot) : Plot :=
  mkPlot w' h' (printBuf p) (background p) (range p) (invertedY p) (topLeft p)
    (dx p) (dy p) (minX p) (maxX p) (minY p) (maxY p) (points p) (lines p).

Definition set_background (c : Z) (p : Plot) : Plot :=
  mkPlot (w p) (h p) (printBuf p) c (range p) (invertedY p) (topLeft p)
    (dx p) (dy p) (minX p) (maxX p) (minY p) (maxY p) (points p) (lines p).

Definition set_invertedY (a : bool) (p : Plot) : Plot :=
  mkPlot (w p) (h p) (printBuf p) (background p) (range p) a (topLeft p)
    (dx p) (dy p) (minX p) (maxX p) (minY p) (maxY p) (points p) (lines p).

Definition set_window (r : bool) (tl : Point) (dx' dy' : float) (p : Plot) : Plot :=
  mkPlot (w p) (h p) (printBuf p) (background p) r (invertedY p) tl
    dx' dy' (minX p) (maxX p) (minY p) (maxY p) (points p) (lines p).

Definition set_minmax (x0 x1 y0 y1 : float) (p : Plot) : Plot :=
  mkPlot (w p) (h p) (printBuf p) (background p) (range p) (invertedY p) (topLeft p)
    (dx p) (dy p) x0 x1 y0 y1 (points p) (lines p).

Definition set_points (m : list (Cell * list Point)) (p : Plot) : Plot :=
  mkPlot (w p) (h p) (printBuf p) (background p) (range p) (invertedY p) (topLeft p)
    (dx p) (dy p) (minX p) (maxX p) (minY p) (maxY p) m (lines p).

Definition set_lines (m : list (Cell * list Line)) (p : Plot) : Plot :=
  mkPlot (w p) (h p) (printBuf p) (background p) (range p) (invertedY p) (topLeft p)
    (dx p) (dy p) (minX p) (maxX p) (minY p) (maxY p) (points p) m.

(** [m[k].push_back(a)] on an [unordered_map]: the vector of an existing key
    grows in place; a key not yet present gets a new entry. The standard
    leaves the position of a new entry in the iteration order open; the
    model puts it last. Every result below about [render] is stated for an
    arbitrary association list, hence for any order. *)
Fixpoint push_back {A : Type} (k : Cell) (a : A) (m : list (Cell * list A))
  : list (Cell * list A) :=
  match m with
  | [] => [(k, [a])]
  | (k', v) :: m' =>
      if Cell_eqb k' k then (k', v ++ [a]) :: m'
      else (k', v) :: push_back k a m'
  end.

(** ** Grid operations *)

(** The value [clearPlot] stores in every cell. *)
Definition background_cell (bg : Z) : Cell :=
  mkCell EMPTY (wrap8 (Z.lor (Z.shiftl bg 4) bg)).

(** [clearPlot]: cells [printBuf[0 .. w*h)] are overwritten. *)
Definition clearPlot (p : Plot) : Plot :=
  match printBuf p with
  | None => p
  | Some buf =>
      let n := Z.to_nat (int_mul (w p) (h p)) in
      set_printBuf (Some (replicate n (background_cell (background p)) ++ drop n buf)) p
  end.

(** [setSize]: [new Cell[w*h]] throws for a negative count. *)
Definition setSize (length lines : Z) (p : Plot) : option Plot :=
  let n := int_mul length lines in
  if n <? 0 then None
  else
    Some (clearPlot
            (set_printBuf (Some (replicate (Z.to_nat n) (mkCell EMPTY 0)))
               (set_size length lines p))).

Definition setDrawRange (x1 y1 x2 y2 : float) (p : Plot) : Plot :=
  let dx' := PrimFloat.sub x2 x1 in
  let dy' := PrimFloat.sub y2 y1 in
  clearPlot (set_window (negb (PrimFloat.eqb dx' 0%float)) (mkPoint x1 y1) dx' dy' p).

Definition setBackgroundColor (color : Z) (p : Plot) : Plot :=
  set_background color p.

Definition invertYAxis (a : bool) (p : Plot) : Plot := set_invertedY a p.

Definition clearData (p : Plot) : Plot :=
  set_lines [] (set_points []
    (set_minmax infinity neg_infinity infinity neg_infinity (clearPlot p))).

Definition updateXYMinMax (pt : Point) (p : Plot) : Plot :=
  let minX' := if PrimFloat.ltb (px pt) (minX p) then px pt else minX p in
  let minY' := if PrimFloat.ltb (py pt) (minY p) then py pt else minY p in
  let maxX' := if PrimFloat.ltb (maxX p) (px pt) then px pt else maxX p in
  let maxY' := if PrimFloat.ltb (maxY p) (py pt) then py pt else maxY p in
  set_minmax minX' maxX' minY' maxY' p.

(** ** [setCell] and its blending rule *)

(** The branch [character == '\0'] of [setCell]. *)
Definition blend_block (inv : bool) (y color : Z) (c : Cell) : Cell :=
  let ch' := if Ascii.eqb (ch c) EMPTY then BLOCK else ch c in
  let y' := if inv then int_add y 1 else y in
  let v :=
    if negb (Z.rem y' 2 =? 0)
    then Z.lor (Z.land (co c) 0x0f) (Z.shiftl color 4)
    else Z.lor (Z.land (co c) 0xf0) color in
  mkCell ch' (wrap8 v).

(** The [else] branch of [setCell]: an explicit character. *)
Definition blend_glyph (bg color : Z) (character : ascii) (c : Cell) : Cell :=
  let co' :=
    if Ascii.eqb (ch c) EMPTY then
      wrap8 (Z.lor (Z.land (co c) 0xf0) color)
    else if Ascii.eqb (ch c) BLOCK then
      wrap8 (if negb (Z.land (co c) 0x0f =? bg)
             then Z.lor (Z.shiftl (co c) 4) color
             else Z.lor (Z.land (co c) 0xf0) color)
    else if negb (Ascii.eqb (ch c) EMPTY) && negb (Ascii.eqb (ch c) character) then
      wrap8 (Z.lor (Z.shiftl (co c) 4) color)
    else co c in
  mkCell character co'.

Definition blend (bg : Z) (inv : bool) (y color : Z) (character : ascii) (c : Cell) : Cell :=
  if Ascii.eqb character BLOCK then blend_block inv y color c
  else blend_glyph bg color character c.

(** The bounds test that opens [setCell]. *)
Definition out_of_bounds (p : Plot) (x y : Z) : bool :=
  (x <? 0) || (x >=? w p) || (y <? 0) || (y >=? int_mul (h p) 2).

(** The subscript [x+(y/2)*w]. *)
Definition cell_index (p : Plot) (x y : Z) : Z :=
  int_add x (int_mul (Z.quot y 2) (w p)).

Definition setCell (x y color : Z) (character : ascii) (p : Plot) : option Plot :=
  if out_of_bounds p x y then Some p
  else
    buf ← printBuf p;
    let i := cell_index p x y in
    if i <? 0 then None
    else
      match buf !! Z.to_nat i with
      | None => None
      | Some _ =>
          Some (set_printBuf
                  (Some (alter (blend (background p) (invertedY p) y color character)
                           (Z.to_nat i) buf))
                  p)
      end.

(** ** Coordinate mapping *)

(** The [double] expression [(x-topLeft.x)*w/dx]. *)
Definition x_quantity (p : Plot) (x : float) : float :=
  PrimFloat.div (PrimFloat.mul (PrimFloat.sub x (px (topLeft p))) (of_int (w p))) (dx p).

(** The [double] expression [(y-topLeft.y)*h*2/dy]. *)
Definition y_quantity (p : Plot) (y : float) : float :=
  PrimFloat.div
    (PrimFloat.mul (PrimFloat.mul (PrimFloat.sub y (py (topLeft p))) (of_int (h p)))
       (of_int 2))
    (dy p).

(** The column and the sub-row handed to [setCell]: the two expressions,
    converted to [int] at the call or at the initialization of [x1], [y1],
    [x2], [y2]. *)
Definition map_x (p : Plot) (x : float) : option Z := to_int (x_quantity p x).
Definition map_y (p : Plot) (y : float) : option Z := to_int (y_quantity p y).

Definition printPoint (pt : Point) (color : Z) (character : ascii) (p : Plot) : option Plot :=
  x ← map_x p (px pt);
  y ← map_y p (py pt);
  setCell x y color character p.

(** ** Line rasterization *)

(** The state of the walk in [printLine]: the mutable locals [x1], [y1], [e1]. *)
Record Walk : Type := mkWalk { wx : Z; wy : Z; we : Z }.

(** One pass through the loop body after the exit test: the error update. *)
Definition line_step (ddx ddy sx sy : Z) (s : Walk) : Walk :=
  let e2 := int_mul (we s) 2 in
  let s1 :=
    if we s >? int_neg ddy
    then mkWalk (int_add (wx s) sx) (wy s) (int_sub (we s) ddy)
    else s in
  if e2 <? ddx
  then mkWalk (wx s1) (int_add (wy s1) sy) (int_add (we s1) ddx)
  else s1.

(** The [while(true)] loop of [printLine], one unit of fuel per iteration. *)
Fixpoint line_loop (fuel : nat) (x2 y2 ddx ddy sx sy : Z) (color : Z)
    (character : ascii) (s : Walk) (p : Plot) : option Plot :=
  match fuel with
  | O => None
  | S fuel' =>
      p' ← setCell (wx s) (wy s) color character p;
      if (wx s =? x2) && (wy s =? y2) then Some p'
      else line_loop fuel' x2 y2 ddx ddy sx sy color character
             (line_step ddx ddy sx sy s) p'
  end.

(** The locals [dx], [dy], [sx], [sy], [e1] computed before the loop. *)
Definition line_dx (x1 x2 : Z) : Z := int_abs (int_sub x2 x1).
Definition line_dy (y1 y2 : Z) : Z := int_abs (int_sub y2 y1).
Definition line_sx (x1 x2 : Z) : Z := if x1 <? x2 then 1 else -1.
Definition line_sy (y1 y2 : Z) : Z := if y1 <? y2 then 1 else -1.
Definition line_start (x1 y1 x2 y2 : Z) : Walk :=
  mkWalk x1 y1 (int_sub (line_dx x1 x2) (line_dy y1 y2)).

(** [printLine] from its mapped endpoints on. *)
Definition drawLine (fuel : nat) (x1 y1 x2 y2 : Z) (color : Z) (character : ascii)
    (p : Plot) : option Plot :=
  line_loop fuel x2 y2 (line_dx x1 x2) (line_dy y1 y2) (line_sx x1 x2) (line_sy y1 y2)
    color character (line_start x1 y1 x2 y2) p.

Definition printLine (fuel : nat) (l : Line) (color : Z) (character : ascii)
    (p : Plot) : option Plot :=
  x1 ← map_x p (px (la l));
  y1 ← map_y p (py (la l));
  x2 ← map_x p (px (lb l));
  y2 ← map_y p (py (lb l));
  drawLine fuel x1 y1 x2 y2 color character p.

(** The coordinates handed to [setCell] by the loop, in order. *)
Fixpoint line_cells (fuel : nat) (x2 y2 ddx ddy sx sy : Z) (s : Walk)
  : option (list (Z * Z)) :=
  match fuel with
  | O => None
  | S fuel' =>
      if (wx s =? x2) && (wy s =? y2) then Some [(wx s, wy s)]
      else
        rest ← line_cells fuel' x2 y2 ddx ddy sx sy (line_step ddx ddy sx sy s);
        Some ((wx s, wy s) :: rest)
  end.

Definition line_path (fuel : nat) (x1 y1 x2 y2 : Z) : option (list (Z * Z)) :=
  line_cells fuel x2 y2 (line_dx x1 x2) (line_dy y1 y2) (line_sx x1 x2) (line_sy y1 y2)
    (line_start x1 y1 x2 y2).

(** ** The aggregator *)

(** A loop [for(const auto &a : v) body(a)] whose body may fail. *)
Fixpoint for_each {A S : Type} (body : A → S → option S) (v : list A) (s : S)
  : option S :=
  match v with
  | [] => Some s
  | a :: v' => s' ← body a s; for_each body v' s'
  end.

Definition point (x y : float) (color : Z) (character : ascii) (p : Plot)
  : option Plot :=
  let pt := mkPoint x y in
  let p1 := set_points (push_back (mkCell character color) pt (points p)) p in
  if range p1 then printPoint pt color character p1
  else Some (updateXYMinMax pt p1).

Definition line (fuel : nat) (x1 y1 x2 y2 : float) (color : Z) (character : ascii)
    (p : Plot) : option Plot :=
  let l := mkLine (mkPoint x1 y1) (mkPoint x2 y2) in
  let p1 := set_lines (push_back (mkCell character color) l (lines p)) p in
  if range p1 then printLine fuel l color character p1
  else Some (updateXYMinMax (lb l) (updateXYMinMax (la l) p1)).

(** The first statement of [render]: the implicit window. *)
Definition render_window (p : Plot) : Plot :=
  if range p then p
  else
    set_window (range p) (mkPoint (minX p) (minY p))
      (PrimFloat.sub (maxX p) (minX p)) (PrimFloat.sub (maxY p) (minY p)) p.

(** The first loop nest of [render]. *)
Definition render_lines (fuel : nat) (m : list (Cell * list Line)) (p : Plot)
  : option Plot :=
  for_each (λ c, for_each (λ l, printLine fuel l (co (fst c)) (ch (fst c))) (snd c)) m p.

(** The second loop nest of [render]. *)
Definition render_points (m : list (Cell * list Point)) (p : Plot) : option Plot :=
  for_each (λ c, for_each (λ pt, printPoint pt (co (fst c)) (ch (fst c))) (snd c)) m p.

Definition render (fuel : nat) (p : Plot) : option Plot :=
  let p0 := render_window p in
  p1 ← render_lines fuel (lines p0) p0;
  render_points (points p1) p1.

(** The object a default-constructed [Plot] starts as. [topLeft], [dx] and
    [dy] have no initializer; they are written by [setDrawRange] or [render]
    before [printPoint] or [printLine] reads them, and start here as zero. *)
Definition Plot_default : Plot :=
  mkPlot 10 10 None BLACK false false (mkPoint 0%float 0%float) 0%float 0%float
    infinity neg_infinity infinity neg_infinity [] [].

(** [Plot(length, lines)]. *)
Definition Plot_sized (length lines : Z) : option Plot :=
  setSize length lines Plot_default.

(** ** Printing *)

(** [xFormat] and [yFormat], the two members of [Plot] that only [print]
    reads, with their setters and the default argument of the setters. *)
Record Formats : Type := mkFormats { yFormat : list ascii; xFormat : list ascii }.

Definition Formats_default : Formats := mkFormats [] [].

Definition default_format : list ascii :=
  ["%"%char; "6"%char; "."%char; "2"%char; "f"%char].

Definition setXAxisFormat (format : list ascii) (fm : Formats) : Formats :=
  mkFormats (yFormat fm) format.

Definition setYAxisFormat (format : list ascii) (fm : Formats) : Formats :=
  mkFormats format (xFormat fm).

Definition ESC : ascii := "027"%char.
Definition NEWLINE : ascii := "010"%char.

(** The string ["\x1b[0m"]. *)
Definition sgr_reset : list ascii := [ESC; "["%char; "0"%char; "m"%char].

(** The string ["▀"], the upper half block, in UTF-8. *)
Definition upper_half_block : list ascii := ["226"%char; "150"%char; "128"%char].

(** The characters written for one [%d] conversion. *)
Definition print_int (z : Z) : list ascii :=
  String.list_ascii_of_string (DecimalString.NilZero.string_of_int (Z.to_int z)).

(** [printf("\x1b[%d%d;%d%dm", c->co&0x08?9:3, c->co&0x07,
    c->co&0x80?10:4, c->co>>4&0x07)]. *)
Definition sgr (co : Z) : list ascii :=
  [ESC; "["%char] ++
  print_int (if negb (Z.land co 0x08 =? 0) then 9 else 3) ++
  print_int (Z.land co 0x07) ++
  [";"%char] ++
  print_int (if negb (Z.land co 0x80 =? 0) then 10 else 4) ++
  print_int (Z.land (Z.shiftr co 4) 0x07) ++
  ["m"%char].

(** The body of the inner loop of [print] for the cell [c] in column [x]:
    the new value of [last] and the characters written. *)
Definition print_cell (x last : Z) (c : Cell) : Z * list ascii :=
  let escape := negb (last =? co c) || (x =? 0) in
  (if escape then co c else last,
   (if escape then sgr (co c) else []) ++
   (if Ascii.eqb (ch c) BLOCK then upper_half_block else [ch c])).

(** The cell [printBuf[i]]. *)
Definition read_cell (p : Plot) (i : Z) : option Cell :=
  buf ← printBuf p;
  if i <? 0 then None else buf !! Z.to_nat i.

(** The inner loop [for(int x = 0; x < w; x++, c++)], with [n] iterations
    still to make, the pointer [c] at [printBuf + i]. *)
Fixpoint print_cells (n : nat) (x i last : Z) (p : Plot) : option (Z * list ascii) :=
  match n with
  | O => Some (last, [])
  | S n' =>
      c ← read_cell p i;
      let r := print_cell x last c in
      r' ← print_cells n' (x + 1) (i + 1) (fst r) p;
      Some (fst r', snd r ++ snd r')
  end.

Section Printing.

(** [printf(format, v)] for a [double] [v]: the characters it writes; its
    return value is their number. *)
Variable printf_double : list ascii → float → list ascii.

(** The value [topLeft.y+y*dy/h] printed after row [y]. *)
Definition y_label_value (p : Plot) (y : Z) : float :=
  PrimFloat.add (py (topLeft p))
    (PrimFloat.div (PrimFloat.mul (of_int y) (dy p)) (of_int (h p))).

(** The value [topLeft.x+x*dx/w] printed at column [x]. *)
Definition x_label_value (p : Plot) (x : Z) : float :=
  PrimFloat.add (px (topLeft p))
    (PrimFloat.div (PrimFloat.mul (of_int x) (dx p)) (of_int (w p))).

(** What follows the cells of row [y]: the label, if any, and the newline. *)
Definition row_end (fm : Formats) (p : Plot) (y : Z) : list ascii :=
  (match yFormat fm with
   | [] => []
   | _ => sgr_reset ++ printf_double (yFormat fm) (y_label_value p y)
   end) ++ [NEWLINE].

(** The loop [for(int y = startY; y != endY; y += step)], one unit of fuel
    per test of the condition. *)
Fixpoint print_rows (fuel : nat) (y endY step last : Z) (fm : Formats) (p : Plot)
  : option (list ascii) :=
  match fuel with
  | O => None
  | S fuel' =>
      if y =? endY then Some []
      else
        r ← print_cells (Z.to_nat (w p)) 0 (int_mul y (w p)) last p;
        rest ← print_rows fuel' (int_add y step) endY step (fst r) fm p;
        Some (snd r ++ row_end fm p y ++ rest)
  end.

(** The loop [for(int x = 0; x < w;)] that prints the X axis. *)
Fixpoint print_axis (fuel : nat) (x : Z) (fm : Formats) (p : Plot)
  : option (list ascii) :=
  match fuel with
  | O => None
  | S fuel' =>
      if x <? w p then
        let label := printf_double (xFormat fm) (x_label_value p x) in
        rest ← print_axis fuel' (int_add x (int_add (Z.of_nat (length label)) 1)) fm p;
        Some (["|"%char] ++ label ++ rest)
      else Some []
  end.

(** The X axis line, if any. *)
Definition print_footer (fuel : nat) (fm : Formats) (p : Plot) : option (list ascii) :=
  match xFormat fm with
  | [] => Some []
  | _ => axis ← print_axis fuel 0 fm p; Some (axis ++ [NEWLINE])
  end.

(** [print]: the characters written to stdout. [last] is the value the
    uninitialized local [last] happens to hold. *)
Definition print (fuel : nat) (last : Z) (fm : Formats) (p : Plot)
  : option (list ascii) :=
  let startY := if invertedY p then int_sub (h p) 1 else 0 in
  let endY := if invertedY p then -1 else h p in
  let step := if invertedY p then -1 else 1 in
  rows ← print_rows fuel startY endY step last fm p;
  footer ← print_footer fuel fm p;
  Some (rows ++ sgr_reset ++ footer).

End Printing.

(** * Vocabulary of the properties *)

(** ** Paths of the line walk *)

(** Two mapped coordinates of one axis, both [int] and at most [2^29] cells
    apart: the spans for which no [int] operation of the walk ([x2-x1],
    [e1*2], [e1+dx], ...) leaves the 32-bit range. *)
Definition span_ok (a b : Z) : Prop :=
  is_int a ∧ is_int b ∧ Z.abs (b - a) <= 2 ^ 29.

(** Neighbouring cells: at most one column and one row apart. *)
Definition adjacent8 (a b : Z * Z) : Prop :=
  Z.abs (fst b - fst a) <= 1 ∧ Z.abs (snd b - snd a) <= 1.

(** Every cell of the path is a neighbour of the one before it. *)
Fixpoint connected8 (path : list (Z * Z)) : Prop :=
  match path with
  | a :: (b :: _) as rest => adjacent8 a b ∧ connected8 rest
  | _ => True
  end.

(** The invariant of the walk from [(x1, y1)]: after [i] steps in x and [j]
    steps in y it stands at [(x1 + sx*i, y1 + sy*j)] with the error term
    [dx*(1+j) - dy*(1+i)], which stays between [-2*dy] and [3*dx/2]. *)
Definition walk_inv (x1 y1 ddx ddy sx sy : Z) (s : Walk) (i j : Z) : Prop :=
  0 <= i <= ddx ∧ 0 <= j <= ddy ∧
  wx s = x1 + sx * i ∧ wy s = y1 + sy * j ∧
  we s = ddx * (1 + j) - ddy * (1 + i) ∧
  - 2 * ddy <= we s ∧ 2 * we s <= 3 * ddx.

(** What a run of the loop from state [s] produces: the list [path] of the
    visited cells, after exactly [length path] iterations, of which only
    the last one stands on [(x2, y2)]. *)
Definition runs_to (x2 y2 ddx ddy sx sy : Z) (s : Walk) (n : nat)
    (path : list (Z * Z)) : Prop :=
  (∀ fuel, (length path ≤ fuel)%nat →
           line_cells fuel x2 y2 ddx ddy sx sy s = Some path) ∧
  (∀ fuel, (fuel < length path)%nat →
           line_cells fuel x2 y2 ddx ddy sx sy s = None) ∧
  head path = Some (wx s, wy s) ∧ last path = Some (x2, y2) ∧
  connected8 path ∧ (length path ≤ S n)%nat ∧
  (∀ k, (S k < length path)%nat → path !! k ≠ Some (x2, y2)).

(** Where the walk stands relative to the ideal line after [i] steps in x
    and [j] steps in y. With [dy <= dx] the sub-row is the one nearest to
    the line in column [i], a tie going to the row nearer to the start;
    with [dx < dy] the column is the first one at or past the line in
    sub-row [j]. *)
Definition walk_major (ddx ddy i j : Z) : Prop :=
  (ddy <= ddx → 0 < ddx → - ddx <= 2 * (ddx * j - ddy * i) < ddx) ∧
  (ddx < ddy → 0 <= ddy * i - ddx * j < ddy).

(** The rectangle spanned by two cells. *)
Definition in_box (x1 y1 x2 y2 : Z) (c : Z * Z) : Prop :=
  Z.min x1 x2 <= fst c <= Z.max x1 x2 ∧ Z.min y1 y2 <= snd c <= Z.max y1 y2.

(** ** Grids, nibbles and colours *)

(** The grid is allocated, its dimensions are those of the buffer, and
    [h*2] and [w*h] are representable as [int]. *)
Definition wf (p : Plot) : Prop :=
  0 <= w p <= INT_MAX ∧ 0 <= h p ∧ 2 * h p <= INT_MAX ∧ w p * h p <= INT_MAX ∧
  ∃ buf, printBuf p = Some buf ∧ Z.of_nat (length buf) = w p * h p.

(** The two colours packed in an attribute byte. *)
Definition lower (c : Z) : Z := Z.land c 0x0f.
Definition upper (c : Z) : Z := Z.land (Z.shiftr c 4) 0x0f.

(** A palette index. *)
Definition is_color (c : Z) : Prop := 0 <= c <= 15.

(** The vector stored under the style [k]: [m[k]] without the insertion, the
    empty vector for a style not yet present. *)
Fixpoint style_data {A : Type} (k : Cell) (m : list (Cell * list A)) : list A :=
  match m with
  | [] => []
  | (k', v) :: m' => if Cell_eqb k' k then v else style_data k m'
  end.

(** The grid of a plot on which nothing is drawn. *)
Definition blank_grid (p : Plot) : list Cell :=
  replicate (Z.to_nat (w p * h p)) (background_cell (background p)).

(** ** Write requests *)

(** A write request: the arguments of one call of [setCell]. *)
Record CellWrite : Type :=
  mkWrite { cw_x : Z; cw_y : Z; cw_color : Z; cw_char : ascii }.

Definition apply_write (a : CellWrite) (p : Plot) : option Plot :=
  setCell (cw_x a) (cw_y a) (cw_color a) (cw_char a) p.

Definition path_writes (color : Z) (character : ascii) (path : list (Z * Z))
  : list CellWrite :=
  map (λ c, mkWrite (fst c) (snd c) color character) path.

Definition point_writes (p : Plot) (color : Z) (character : ascii) (pt : Point)
  : option (list CellWrite) :=
  x ← map_x p (px pt);
  y ← map_y p (py pt);
  Some [mkWrite x y color character].

Definition line_writes (fuel : nat) (p : Plot) (color : Z) (character : ascii) (l : Line)
  : option (list CellWrite) :=
  x1 ← map_x p (px (la l));
  y1 ← map_y p (py (la l));
  x2 ← map_x p (px (lb l));
  y2 ← map_y p (py (lb l));
  path ← line_path fuel x1 y1 x2 y2;
  Some (path_writes color character path).

Fixpoint collect {A : Type} (gen : A → option (list CellWrite)) (v : list A)
  : option (list CellWrite) :=
  match v with
  | [] => Some []
  | a :: v' => ws ← gen a; rest ← collect gen v'; Some (ws ++ rest)
  end.

Definition lines_writes (fuel : nat) (p : Plot) (m : list (Cell * list Line))
  : option (list CellWrite) :=
  collect (λ c, collect (line_writes fuel p (co (fst c)) (ch (fst c))) (snd c)) m.

Definition points_writes (p : Plot) (m : list (Cell * list Point))
  : option (list CellWrite) :=
  collect (λ c, collect (point_writes p (co (fst c)) (ch (fst c))) (snd c)) m.

(** Every call of [setCell] made by [render], in order; [p] is the plot
    after [render_window]. *)
Definition render_writes (fuel : nat) (p : Plot) : option (list CellWrite) :=
  lw ← lines_writes fuel p (lines p);
  pw ← points_writes p (points p);
  Some (lw ++ pw).

(** ** Plots on which [render] returns *)

(** Both coordinates of the point convert to [int]. *)
Definition point_ok (p : Plot) (pt : Point) : Prop :=
  is_Some (map_x p (px pt)) ∧ is_Some (map_y p (py pt)).

(** The endpoints of the line convert to [int] coordinates with spans in
    the range of [span_ok], and [fuel] exceeds the number of steps between
    them. *)
Definition line_ok (fuel : nat) (p : Plot) (l : Line) : Prop :=
  ∃ x1 y1 x2 y2,
    map_x p (px (la l)) = Some x1 ∧ map_y p (py (la l)) = Some y1 ∧
    map_x p (px (lb l)) = Some x2 ∧ map_y p (py (lb l)) = Some y2 ∧
    span_ok x1 x2 ∧ span_ok y1 y2 ∧
    Z.abs (x2 - x1) + Z.abs (y2 - y1) < Z.of_nat fuel.

(** The grid is allocated and, in the window [render] uses, every buffered
    point and line is as above. *)
Definition renderable (fuel : nat) (p : Plot) : Prop :=
  wf p ∧
  Forall (λ c, Forall (line_ok fuel (render_window p)) (snd c)) (lines p) ∧
  Forall (λ c, Forall (point_ok (render_window p)) (snd c)) (points p).

(** The dataset holds at least one line or one point. *)
Definition has_data (p : Plot) : Prop :=
  concat (map snd (lines p)) ≠ [] ∨ concat (map snd (points p)) ≠ [].

(** ** The effect of block writes *)

(** The glyph of a cell after a block write. *)
Definition block_glyph (c : ascii) : ascii := if Ascii.eqb c EMPTY then BLOCK else c.

(** The effect on one cell of a run of block writes: none ([None]), or the
    glyph becomes [block_glyph] and the attribute [(co & m) | k]. *)
Definition cell_effect (d : option (Z * Z)) (c : Cell) : Cell :=
  match d with
  | None => c
  | Some (m, k) => mkCell (block_glyph (ch c)) (wrap8 (Z.lor (Z.land (co c) m) k))
  end.

(** The effect [d1] followed by the effect [d2]. *)
Definition effect_then (d1 d2 : option (Z * Z)) : option (Z * Z) :=
  match d1, d2 with
  | None, d | d, None => d
  | Some (m1, k1), Some (m2, k2) => Some (Z.land m1 m2, Z.lor (Z.land k1 m2) k2)
  end.

(** Mask and colour bits of one block write. *)
Definition block_effect (inv : bool) (y color : Z) : Z * Z :=
  if negb (Z.rem (if inv then int_add y 1 else y) 2 =? 0)
  then (0x0f, Z.shiftl color 4)
  else (0xf0, color).

(** The effect of one write request on the cell of index [i]. *)
Definition write_effect (p : Plot) (a : CellWrite) (i : nat) : option (Z * Z) :=
  if out_of_bounds p (cw_x a) (cw_y a) then None
  else if decide (i = Z.to_nat (cell_index p (cw_x a) (cw_y a)))
       then Some (block_effect (invertedY p) (cw_y a) (cw_color a))
       else None.

Fixpoint writes_effect (p : Plot) (ws : list CellWrite) (i : nat) : option (Z * Z) :=
  match ws with
  | [] => None
  | a :: ws' => effect_then (write_effect p a i) (writes_effect p ws' i)
  end.

Definition apply_effects (d : nat → option (Z * Z)) (buf : list Cell) : list Cell :=
  imap (λ i, cell_effect (d i)) buf.

(** Every style of the dataset uses the default block glyph. *)
Definition block_only (p : Plot) : Prop :=
  Forall (λ c, ch (fst c) = BLOCK) (lines p) ∧
  Forall (λ c, ch (fst c) = BLOCK) (points p).

(** ** Submissions and bounding boxes *)

(** A call of [point] or [line]. *)
Inductive Submission : Type :=
| AddPoint (x y : float) (color : Z) (character : ascii)
| AddLine (x1 y1 x2 y2 : float) (color : Z) (character : ascii).

Definition submit (fuel : nat) (a : Submission) (p : Plot) : option Plot :=
  match a with
  | AddPoint x y color character => point x y color character p
  | AddLine x1 y1 x2 y2 color character => line fuel x1 y1 x2 y2 color character p
  end.

Definition endpoints (a : Submission) : list Point :=
  match a with
  | AddPoint x y _ _ => [mkPoint x y]
  | AddLine x1 y1 x2 y2 _ _ => [mkPoint x1 y1; mkPoint x2 y2]
  end.

(** The bounding box of a list of points, in the spec's words: the
    componentwise minimum and maximum over all of them, starting from the
    "unobserved" bounds. *)
Definition fmin (a b : float) : float := if PrimFloat.ltb b a then b else a.
Definition fmax (a b : float) : float := if PrimFloat.ltb a b then b else a.

Definition box_min_x (pts : list Point) : float := fold_left fmin (map px pts) infinity.
Definition box_max_x (pts : list Point) : float := fold_left fmax (map px pts) neg_infinity.
Definition box_min_y (pts : list Point) : float := fold_left fmin (map py pts) infinity.
Definition box_max_y (pts : list Point) : float := fold_left fmax (map py pts) neg_infinity.

(** No data has been observed since construction or [clearData]. *)
Definition fresh_bounds (p : Plot) : Prop :=
  minX p = infinity ∧ maxX p = neg_infinity ∧
  minY p = infinity ∧ maxY p = neg_infinity.

(** ** Floor, ceiling and rounding toward zero *)

(** Floor and ceiling of a binary float, in the usual sense: the value is
    [±m * 2^e]; for a negative exponent, [Z.div] rounds toward minus
    infinity. *)
Definition SF_floor (f : spec_float) : option Z :=
  match f with
  | S754_zero _ => Some 0
  | S754_finite s m e =>
      let v := if s then Z.neg m else Z.pos m in
      Some (if 0 <=? e then v * 2 ^ e else v / 2 ^ (- e))
  | S754_infinity _ | S754_nan => None
  end.

Definition SF_ceil (f : spec_float) : option Z :=
  match f with
  | S754_zero _ => Some 0
  | S754_finite s m e =>
      let v := if s then Z.neg m else Z.pos m in
      Some (if 0 <=? e then v * 2 ^ e else - ((- v) / 2 ^ (- e)))
  | S754_infinity _ | S754_nan => None
  end.

Definition SF_sign (f : spec_float) : bool :=
  match f with
  | S754_zero s | S754_infinity s | S754_finite s _ _ => s
  | S754_nan => false
  end.

(** Rounding toward zero: floor of a non-negative, ceiling of a negative value. *)
Definition SF_toward_zero (f : spec_float) : option Z :=
  if SF_sign f then SF_ceil f else SF_floor f.

(** The column and the sub-row as the specification words them: the floors
    of the two expressions. *)
Definition floor_x (p : Plot) (x : float) : option Z :=
  SF_floor (Prim2SF (x_quantity p x)).
Definition floor_y (p : Plot) (y : float) : option Z :=
  SF_floor (Prim2SF (y_quantity p y)).

(** ** The printed text *)

(** The glyph of a cell as printed. *)
Definition glyph_text (c : Cell) : list ascii :=
  if Ascii.eqb (ch c) BLOCK then upper_half_block else [ch c].

(** The text of a run of cells of one row; [prev] is the attribute of the
    cell before the run, [None] at the start of the row. An escape sequence
    precedes the first cell of the row and every cell whose attribute
    differs from that of its left neighbour. *)
Fixpoint cells_text (prev : option Z) (cells : list Cell) : list ascii :=
  match cells with
  | [] => []
  | c :: rest =>
      (if match prev with Some a => a =? co c | None => false end
       then [] else sgr (co c)) ++
      glyph_text c ++ cells_text (Some (co c)) rest
  end.

(** The cells of row [y] of the grid. *)
Definition grid_row (p : Plot) (buf : list Cell) (y : Z) : list Cell :=
  take (Z.to_nat (w p)) (drop (Z.to_nat (y * w p)) buf).

(** The rows in the order [print] writes them. *)
Definition row_order (p : Plot) : list Z :=
  if invertedY p then reverse (seqZ 0 (h p)) else seqZ 0 (h p).

(** The SGR parameters of the 16 palette colours: 30-37 and 90-97 select
    the foreground, 40-47 and 100-107 the background. *)
Definition ansi_fg (c : Z) : Z := if c <? 8 then 30 + c else 90 + (c - 8).
Definition ansi_bg (c : Z) : Z := if c <? 8 then 40 + c else 100 + (c - 8).

Section PrintedText.

Variable printf_double : list ascii → float → list ascii.

(** The text of row [y]: its cells, then the label and the newline. *)
Definition row_text (fm : Formats) (p : Plot) (buf : list Cell) (y : Z) : list ascii :=
  cells_text None (grid_row p buf y) ++ row_end printf_double fm p y.

(** The tick and the label printed for column [x] of the X axis. *)
Definition axis_label (fm : Formats) (p : Plot) (x : Z) : list ascii :=
  ["|"%char] ++ printf_double (xFormat fm) (x_label_value p x).

End PrintedText.

(** ** Concrete plots *)

(** A 4 x 2 grid, and the same grid with the explicit window (0,0)-(4,4). *)
Definition grid_4x2 : Plot := default Plot_default (Plot_sized 4 2).
Definition window_4x2 : Plot := setDrawRange 0 0 4 4 grid_4x2.

(** A decidable form of [wf]. *)
Definition wfb (p : Plot) : bool :=
  (0 <=? w p) && (w p <=? INT_MAX) && (0 <=? h p) && (2 * h p <=? INT_MAX) &&
  (w p * h p <=? INT_MAX) &&
  match printBuf p with
  | Some buf => Z.of_nat (length buf) =? w p * h p
  | None => false
  end.

(** Implicit window; a block line from (0,0) to (4,4) and two points with
    the glyph [b], the first on the start of the line. *)
Definition overlap_plot : Plot :=
  default Plot_default
    (p1 ← line 0 0 0 4 4 RED BLOCK grid_4x2;
     p2 ← point 0 0 GREEN "b" p1;
     point 4 4 GREEN "b" p2).

(** Implicit window; a line and a point of the same glyph [#] and of
    different colours, the point on the start of the line. *)
Definition same_glyph_plot : Plot :=
  default Plot_default
    (p1 ← line 0 0 0 4 4 RED "#" grid_4x2;
     point 0 0 GREEN "#" p1).

(** Implicit window; a block line and a later block point of another colour
    on the second cell of the line, which lies on the odd sub-row 1. *)
Definition odd_row_plot : Plot :=
  default Plot_default
    (p1 ← line 0 0 0 4 4 RED BLOCK grid_4x2;
     point 1 1 GREEN BLOCK p1).

(** Implicit window; a block line and a block point on its start. *)
Definition block_plot : Plot :=
  default Plot_default
    (p1 ← line 0 0 0 4 4 RED BLOCK grid_4x2;
     point 0 0 GREEN BLOCK p1).

(** Implicit window; a block line and a point with the glyph [b] on its start. *)
Definition marker_plot : Plot :=
  default Plot_default
    (p1 ← line 0 0 0 4 4 RED BLOCK grid_4x2;
     point 0 0 GREEN "b" p1).

(** Explicit window (0,0)-(4,4) with one block point drawn in cell (1,0). *)
Definition dotted_plot : Plot :=
  default Plot_default (point 1 0.5 RED BLOCK window_4x2).

(** Implicit window; a single point, so that the window has no extent. *)
Definition single_point_plot : Plot :=
  default Plot_default (point 1 1 WHITE BLOCK grid_4x2).

(** A default-constructed plot, never sized, with two points. *)
Definition gridless_plot : Plot :=
  default Plot_default
    (p1 ← point 0 0 WHITE BLOCK Plot_default;
     point 4 4 WHITE BLOCK p1).

(** A [printf] that writes the same label ["0"] for every value. *)
Definition constant_label (format : list ascii) (v : float) : list ascii :=
  ["0"%char].

(** Labels after every row and under the grid. *)
Definition both_formats : Formats :=
  setXAxisFormat default_format (setYAxisFormat default_format Formats_default).

(** Explicit window (0,0)-(4,4) with the glyph [a] in RED in cell (1,0). *)
Definition lettered_plot : Plot :=
  default Plot_default (point 1 0.5 RED "a" window_4x2).

(** The cell of index [i] of the grid. *)
Definition cell_at (p : Plot) (i : nat) : option Cell :=
  buf ← printBuf p; buf !! i.

(** * Properties *)

(** Range side conditions of the [int] operations. *)
Ltac int_range := unfold is_int, INT_MIN, INT_MAX; lia.

(** ** Arithmetic of the machine integers *)

Lemma wrap32_id (z : Z) : is_int z → wrap32 z = z.
Proof.
  unfold is_int, INT_MIN, INT_MAX, wrap32. intros Hz.
  rewrite Z.mod_small; lia.
Qed.

Lemma wrap32_is_int (z : Z) : is_int (wrap32 z).
Proof.
  unfold is_int, INT_MIN, INT_MAX, wrap32.
  pose proof (Z.mod_pos_bound (z + 2 ^ 31) (2 ^ 32)). lia.
Qed.

Lemma int_add_id (a b : Z) : is_int (a + b) → int_add a b = a + b.
Proof. apply wrap32_id. Qed.

Lemma int_sub_id (a b : Z) : is_int (a - b) → int_sub a b = a - b.
Proof. apply wrap32_id. Qed.

Lemma int_mul_id (a b : Z) : is_int (a * b) → int_mul a b = a * b.
Proof. apply wrap32_id. Qed.

Lemma int_neg_id (a : Z) : is_int (- a) → int_neg a = - a.
Proof. apply wrap32_id. Qed.

Lemma int_abs_id (a : Z) : is_int (- a) → int_abs a = Z.abs a.
Proof.
  intros Ha. unfold int_abs. destruct (Z.ltb_spec a 0).
  - rewrite int_neg_id by done. lia.
  - lia.
Qed.

(** ** The line walk *)

Lemma no_x_overshoot (ddx ddy i j e : Z) :
  0 <= i <= ddx → 0 <= j <= ddy → e = ddx * (1 + j) - ddy * (1 + i) →
  - ddy < e → ¬ (i = ddx ∧ j = ddy) → i < ddx.
Proof.
  intros Hi Hj He Hg Hend.
  destruct (Z.eq_dec i ddx) as [-> | ?]; [exfalso | lia].
  assert (j < ddy) by lia.
  assert (0 <= ddx * (ddy - 1 - j)) by (apply Z.mul_nonneg_nonneg; lia).
  lia.
Qed.

Lemma no_y_overshoot (ddx ddy i j e : Z) :
  0 <= i <= ddx → 0 <= j <= ddy → e = ddx * (1 + j) - ddy * (1 + i) →
  e * 2 < ddx → ¬ (i = ddx ∧ j = ddy) → j < ddy.
Proof.
  intros Hi Hj He Hg Hend.
  destruct (Z.eq_dec j ddy) as [-> | ?]; [exfalso | lia].
  assert (i < ddx) by lia.
  assert (0 <= ddy * (ddx - 1 - i)) by (apply Z.mul_nonneg_nonneg; lia).
  lia.
Qed.

(** One iteration, for any span of at most [2^29] cells per axis between
    [int] endpoints: the walk moves by at most one cell per axis, by at
    least one cell in all, never past the target, and no [int] operation
    wraps. *)
Lemma line_step_arith (x1 y1 x2 y2 ddx ddy sx sy i j : Z) (s : Walk) :
  is_int x1 → is_int y1 → is_int x2 → is_int y2 →
  0 <= ddx <= 2 ^ 29 → 0 <= ddy <= 2 ^ 29 →
  (sx = 1 ∨ sx = -1) → (sy = 1 ∨ sy = -1) →
  x2 = x1 + sx * ddx → y2 = y1 + sy * ddy →
  wx s = x1 + sx * i → wy s = y1 + sy * j →
  0 <= i <= ddx → 0 <= j <= ddy →
  we s = ddx * (1 + j) - ddy * (1 + i) →
  - 2 * ddy <= we s → 2 * we s <= 3 * ddx →
  ¬ (i = ddx ∧ j = ddy) →
  ∃ i' j',
    let s' := line_step ddx ddy sx sy s in
    i <= i' <= i + 1 ∧ j <= j' <= j + 1 ∧ i + j < i' + j' ∧
    i' <= ddx ∧ j' <= ddy ∧
    wx s' = wx s + sx * (i' - i) ∧ wy s' = wy s + sy * (j' - j) ∧
    we s' = ddx * (1 + j') - ddy * (1 + i') ∧
    - 2 * ddy <= we s' ∧ 2 * we s' <= 3 * ddx.
Proof.
  intros Hx1 Hy1 Hx2 Hy2 Hdx Hdy Hsx Hsy Htx Hty Hx Hy Hi Hj He Hlo Hhi Hend.
  destruct s as [x y e]. cbn [wx wy we] in *.
  unfold line_step. cbn [wx wy we].
  rewrite int_mul_id by int_range.
  rewrite int_neg_id by int_range.
  rewrite (int_sub_id e) by int_range.
  unfold is_int, INT_MIN, INT_MAX in Hx1, Hy1, Hx2, Hy2.
  destruct (Z.gtb_spec e (- ddy)) as [Hgx | Hgx];
    destruct (Z.ltb_spec (e * 2) ddx) as [Hgy | Hgy]; cbn [wx wy we].
  - pose proof (no_x_overshoot _ _ _ _ _ Hi Hj He ltac:(lia) Hend).
    pose proof (no_y_overshoot _ _ _ _ _ Hi Hj He Hgy Hend).
    rewrite (int_add_id x), (int_add_id y), (int_add_id (e - ddy))
      by (destruct Hsx as [-> | ->], Hsy as [-> | ->]; int_range).
    exists (i + 1), (j + 1). cbn zeta. repeat split; lia.
  - pose proof (no_x_overshoot _ _ _ _ _ Hi Hj He ltac:(lia) Hend).
    rewrite (int_add_id x) by (destruct Hsx as [-> | ->]; int_range).
    exists (i + 1), j. cbn zeta. repeat split; lia.
  - pose proof (no_y_overshoot _ _ _ _ _ Hi Hj He Hgy Hend).
    rewrite (int_add_id y), (int_add_id e)
      by (destruct Hsy as [-> | ->]; int_range).
    exists i, (j + 1). cbn zeta. repeat split; lia.
  - exfalso. apply Hend. lia.
Qed.

Section Walk.

Variables x1 y1 x2 y2 ddx ddy sx sy : Z.
Hypothesis Hx1 : is_int x1.
Hypothesis Hy1 : is_int y1.
Hypothesis Hx2 : is_int x2.
Hypothesis Hy2 : is_int y2.
Hypothesis Hdx : 0 <= ddx <= 2 ^ 29.
Hypothesis Hdy : 0 <= ddy <= 2 ^ 29.
Hypothesis Hsx : sx = 1 ∨ sx = -1.
Hypothesis Hsy : sy = 1 ∨ sy = -1.
Hypothesis Htx : x2 = x1 + sx * ddx.
Hypothesis Hty : y2 = y1 + sy * ddy.

Lemma walk_inv_at_end (s : Walk) (i j : Z) :
  walk_inv x1 y1 ddx ddy sx sy s i j →
  ((wx s =? x2) && (wy s =? y2) = true ↔ i = ddx ∧ j = ddy).
Proof.
  unfold walk_inv. intros (Hi & Hj & Hx & Hy & _).
  rewrite andb_true_iff, !Z.eqb_eq. lia.
Qed.

Lemma walk_inv_step (s : Walk) (i j : Z) :
  walk_inv x1 y1 ddx ddy sx sy s i j → ¬ (i = ddx ∧ j = ddy) →
  ∃ i' j', walk_inv x1 y1 ddx ddy sx sy (line_step ddx ddy sx sy s) i' j' ∧
           i + j < i' + j' ∧
           adjacent8 (wx s, wy s)
             (wx (line_step ddx ddy sx sy s), wy (line_step ddx ddy sx sy s)).
Proof.
  unfold walk_inv. intros (Hi & Hj & Hx & Hy & He & Hlo & Hhi) Hend.
  destruct (line_step_arith x1 y1 x2 y2 ddx ddy sx sy i j s)
    as (i' & j' & Hi' & Hj' & Hlt & Hi'' & Hj'' & Hx' & Hy' & He' & Hlo' & Hhi');
    try done.
  exists i', j'. cbn zeta in *. unfold adjacent8. cbn [fst snd].
  rewrite Hx', Hy'. repeat split; try done; lia.
Qed.

Lemma runs_to_at_end (s : Walk) (n : nat) :
  (wx s =? x2) && (wy s =? y2) = true →
  runs_to x2 y2 ddx ddy sx sy s n [(wx s, wy s)].
Proof.
  intros Hend. pose proof Hend as Hend'.
  apply andb_true_iff in Hend' as [Ex Ey]. apply Z.eqb_eq in Ex, Ey.
  unfold runs_to. repeat split.
  - intros [| fuel] Hf; cbn in *; [lia |]. by rewrite Hend.
  - intros [| fuel] Hf; cbn in *; [done | lia].
  - cbn. congruence.
  - cbn. lia.
  - intros k Hk. cbn in Hk. lia.
Qed.

Lemma runs_to_cons (s : Walk) (n : nat) (path : list (Z * Z)) :
  (wx s =? x2) && (wy s =? y2) = false →
  adjacent8 (wx s, wy s)
    (wx (line_step ddx ddy sx sy s), wy (line_step ddx ddy sx sy s)) →
  runs_to x2 y2 ddx ddy sx sy (line_step ddx ddy sx sy s) n path →
  runs_to x2 y2 ddx ddy sx sy s (S n) ((wx s, wy s) :: path).
Proof.
  intros Hend Hadj (Hsome & Hnone & Hhd & Hlast & Hconn & Hlen & Hhit).
  unfold runs_to. repeat split.
  - intros [| fuel] Hf; cbn in *; [lia |].
    rewrite Hend, Hsome by lia. done.
  - intros [| fuel] Hf; cbn in *; [done |].
    rewrite Hend, Hnone by lia. done.
  - destruct path as [| b path]; [done |].
    rewrite last_cons_cons. done.
  - destruct path as [| b path]; [done |].
    cbn in Hhd. injection Hhd as ->. cbn. done.
  - cbn. lia.
  - intros [| k] Hk; cbn in *.
    + intros [= Ex Ey]. rewrite Ex, Ey, !Z.eqb_refl in Hend. done.
    + apply Hhit. lia.
Qed.

(** From any state of the invariant the loop reaches the target within the
    number of steps still missing. *)
Lemma line_cells_run (n : nat) (s : Walk) (i j : Z) :
  walk_inv x1 y1 ddx ddy sx sy s i j → (ddx - i) + (ddy - j) <= Z.of_nat n →
  ∃ path, runs_to x2 y2 ddx ddy sx sy s n path.
Proof.
  revert s i j. induction n as [| n IH]; intros s i j Hinv Hn.
  - exists [(wx s, wy s)]. apply runs_to_at_end.
    apply (walk_inv_at_end s i j Hinv). unfold walk_inv in Hinv. lia.
  - destruct ((wx s =? x2) && (wy s =? y2)) eqn:Hend.
    + exists [(wx s, wy s)]. by apply runs_to_at_end.
    + assert (Hne : ¬ (i = ddx ∧ j = ddy)).
      { intros E. apply (walk_inv_at_end s i j Hinv) in E. congruence. }
      destruct (walk_inv_step s i j Hinv Hne) as (i' & j' & Hinv' & Hlt & Hadj).
      destruct (IH _ i' j' Hinv') as [path Hpath]; [lia |].
      exists ((wx s, wy s) :: path). by apply runs_to_cons.
Qed.

End Walk.

(** ** Wrapping and attribute bytes *)

Lemma wrap32_high (z : Z) : INT_MAX < z < 2 ^ 32 → wrap32 z = z - 2 ^ 32.
Proof.
  unfold INT_MAX, wrap32. intros Hz.
  replace (z + 2 ^ 31) with ((z - 2 ^ 31) + 1 * 2 ^ 32) by lia.
  rewrite Z.mod_add by lia. rewrite Z.mod_small; lia.
Qed.

Lemma wrap8_mod (z : Z) : wrap8 z mod 256 = z mod 256.
Proof.
  unfold wrap8. rewrite Zminus_mod, Z.mod_mod by lia.
  rewrite <- Zminus_mod. f_equal. lia.
Qed.

Lemma wrap8_congr (a b : Z) : a mod 256 = b mod 256 → wrap8 a = wrap8 b.
Proof.
  intros E. unfold wrap8. rewrite (Z.add_mod a), (Z.add_mod b), E by lia. done.
Qed.

Lemma land_255 (z : Z) : Z.land z 255 = z mod 256.
Proof. change 255 with (Z.ones 8). rewrite Z.land_ones by lia. done. Qed.

Lemma wrap8_land (z m : Z) : 0 <= m <= 255 → Z.land (wrap8 z) m = Z.land z m.
Proof.
  intros Hm.
  assert (E : Z.land m 255 = m).
  { rewrite land_255. apply Z.mod_small. lia. }
  rewrite <- E, !(Z.land_comm m), !Z.land_assoc, !land_255, wrap8_mod. done.
Qed.

Lemma lower_wrap8 (z : Z) : lower (wrap8 z) = lower z.
Proof. unfold lower. apply wrap8_land. lia. Qed.

Lemma upper_alt (z : Z) : upper z = Z.shiftr (Z.land z 0xf0) 4.
Proof. unfold upper. rewrite Z.shiftr_land. done. Qed.

Lemma upper_wrap8 (z : Z) : upper (wrap8 z) = upper z.
Proof. rewrite !upper_alt, wrap8_land by lia. done. Qed.

Lemma is_color_land (c : Z) : is_color c → Z.land c 0x0f = c.
Proof.
  unfold is_color. intros Hc. change 0x0f with (Z.ones 4).
  rewrite Z.land_ones by lia. apply Z.mod_small. lia.
Qed.

(** Writing the lower nibble. *)
Lemma lower_set_lower (v c : Z) : is_color c → lower (Z.lor (Z.land v 0xf0) c) = c.
Proof.
  intros Hc. unfold lower.
  rewrite Z.land_lor_distr_l, <- Z.land_assoc. change (Z.land 0xf0 0x0f) with 0.
  rewrite Z.land_0_r, Z.lor_0_l. by apply is_color_land.
Qed.

Lemma upper_set_lower (v c : Z) : is_color c → upper (Z.lor (Z.land v 0xf0) c) = upper v.
Proof.
  intros Hc. rewrite !upper_alt.
  rewrite Z.land_lor_distr_l, <- Z.land_assoc. change (Z.land 0xf0 0xf0) with 0xf0.
  rewrite <- (is_color_land c), <- Z.land_assoc by done. change (Z.land 0x0f 0xf0) with 0.
  rewrite Z.land_0_r, Z.lor_0_r. done.
Qed.

(** Writing the upper nibble. *)
Lemma lower_set_upper (v c : Z) : lower (Z.lor (Z.land v 0x0f) (Z.shiftl c 4)) = lower v.
Proof.
  unfold lower.
  rewrite Z.land_lor_distr_l, <- Z.land_assoc. change (Z.land 0x0f 0x0f) with 0x0f.
  replace (Z.land (Z.shiftl c 4) 0x0f) with 0; [by rewrite Z.lor_0_r |].
  symmetry. apply Z.bits_inj'. intros n Hn.
  rewrite Z.land_spec, Z.bits_0, Z.shiftl_spec by done.
  destruct (Z.ltb_spec n 4).
  - rewrite Z.testbit_neg_r by lia. done.
  - change 0x0f with (Z.ones 4). rewrite Z.ones_spec_high by lia. apply andb_false_r.
Qed.

Lemma upper_set_upper (v c : Z) : is_color c → upper (Z.lor (Z.land v 0x0f) (Z.shiftl c 4)) = c.
Proof.
  intros Hc. unfold upper.
  rewrite Z.shiftr_lor, Z.shiftr_land, Z.shiftr_shiftl_l by lia.
  change (Z.shiftr 0x0f 4) with 0. change (4 - 4) with 0.
  rewrite Z.land_0_r, Z.lor_0_l, Z.shiftl_0_r. by apply is_color_land.
Qed.

(** Shifting the byte up by a nibble and writing the lower nibble. *)
Lemma lower_shift (v c : Z) : is_color c → lower (Z.lor (Z.shiftl v 4) c) = c.
Proof.
  intros Hc. unfold lower. rewrite Z.land_lor_distr_l.
  replace (Z.land (Z.shiftl v 4) 0x0f) with 0; [rewrite Z.lor_0_l; by apply is_color_land |].
  symmetry. apply Z.bits_inj'. intros n Hn.
  rewrite Z.land_spec, Z.bits_0, Z.shiftl_spec by done.
  destruct (Z.ltb_spec n 4).
  - rewrite Z.testbit_neg_r by lia. done.
  - change 0x0f with (Z.ones 4). rewrite Z.ones_spec_high by lia. apply andb_false_r.
Qed.

Lemma upper_shift (v c : Z) : is_color c → upper (Z.lor (Z.shiftl v 4) c) = lower v.
Proof.
  intros Hc. unfold upper, lower.
  rewrite Z.shiftr_lor, Z.shiftr_shiftl_l by lia. change (4 - 4) with 0.
  rewrite Z.shiftl_0_r.
  replace (Z.shiftr c 4) with 0; [by rewrite Z.lor_0_r |].
  symmetry. rewrite Z.shiftr_div_pow2 by lia. apply Z.div_small. unfold is_color in Hc. lia.
Qed.

(** ** [setCell] on a well-formed grid *)

Lemma set_printBuf_same (p : Plot) : set_printBuf (printBuf p) p = p.
Proof. by destruct p. Qed.

Lemma out_of_bounds_false (p : Plot) (x y : Z) :
  0 <= h p <= INT_MAX → out_of_bounds p x y = false →
  0 <= x < w p ∧ 0 <= y < 2 * h p ∧ int_mul (h p) 2 = 2 * h p.
Proof.
  unfold out_of_bounds. intros Hh Hb.
  apply orb_false_iff in Hb as [Hb Hy2]. apply orb_false_iff in Hb as [Hb Hy1].
  apply orb_false_iff in Hb as [Hx1 Hx2].
  apply Z.ltb_ge in Hx1, Hy1. rewrite Z.geb_leb in Hx2, Hy2. apply Z.leb_gt in Hx2, Hy2.
  destruct (Z_le_gt_dec (h p * 2) INT_MAX) as [Hs | Hs].
  - rewrite int_mul_id in Hy2 |- * by (unfold is_int, INT_MIN, INT_MAX in *; lia). lia.
  - exfalso. unfold int_mul in Hy2. rewrite wrap32_high in Hy2; unfold INT_MAX in *; lia.
Qed.

Lemma cell_index_inside (p : Plot) (x y : Z) :
  wf p → out_of_bounds p x y = false →
  cell_index p x y = x + y / 2 * w p ∧ 0 <= x + y / 2 * w p < w p * h p.
Proof.
  intros (Hw & Hh & Hh2 & Hwh & _) Hb.
  destruct (out_of_bounds_false p x y ltac:(lia) Hb) as (Hx & Hy & _).
  assert (Hq : 0 <= y / 2 <= h p - 1).
  { split; [apply Z.div_pos; lia |]. apply Z.lt_le_pred, Z.div_lt_upper_bound; lia. }
  assert (Hm : 0 <= y / 2 * w p <= (h p - 1) * w p).
  { split; [apply Z.mul_nonneg_nonneg; lia | apply Z.mul_le_mono_nonneg_r; lia]. }
  unfold cell_index. rewrite Z.quot_div_nonneg by lia.
  unfold INT_MAX in *.
  rewrite int_mul_id by (unfold is_int, INT_MIN, INT_MAX; lia).
  rewrite int_add_id by (unfold is_int, INT_MIN, INT_MAX; lia).
  lia.
Qed.

Lemma setCell_outside (p : Plot) (x y color : Z) (character : ascii) :
  out_of_bounds p x y = true → setCell x y color character p = Some p.
Proof. unfold setCell. by intros ->. Qed.

Lemma setCell_inside (p : Plot) (x y color : Z) (character : ascii) :
  wf p → out_of_bounds p x y = false →
  ∃ buf c,
    printBuf p = Some buf ∧ buf !! Z.to_nat (x + y / 2 * w p) = Some c ∧
    setCell x y color character p =
      Some (set_printBuf
              (Some (alter (blend (background p) (invertedY p) y color character)
                       (Z.to_nat (x + y / 2 * w p)) buf)) p).
Proof.
  intros Hwf Hb. destruct (cell_index_inside p x y Hwf Hb) as [Hi Hr].
  destruct Hwf as (_ & _ & _ & _ & buf & Hbuf & Hlen).
  destruct (lookup_lt_is_Some_2 buf (Z.to_nat (x + y / 2 * w p))) as [c Hc]; [lia |].
  exists buf, c. repeat split; try done.
  unfold setCell. rewrite Hb, Hbuf. cbn. rewrite Hi.
  destruct (Z.ltb_spec (x + y / 2 * w p) 0); [lia |]. by rewrite Hc.
Qed.

(** [setCell] touches nothing but the cells of [printBuf], and never resizes it. *)
Lemma setCell_frame (p p' : Plot) (x y color : Z) (character : ascii) :
  setCell x y color character p = Some p' →
  p' = set_printBuf (printBuf p') p ∧
  length <$> printBuf p' = length <$> printBuf p.
Proof.
  unfold setCell. destruct (out_of_bounds p x y).
  - intros [= <-]. by rewrite set_printBuf_same.
  - destruct (printBuf p) as [buf |] eqn:Hbuf; cbn; [| done].
    destruct (cell_index p x y <? 0); [done |].
    destruct (buf !! _); [| done]. intros [= <-]. cbn.
    split; [done |]. by rewrite length_alter.
Qed.

Lemma set_printBuf_wf (p : Plot) (buf buf' : list Cell) :
  wf p → printBuf p = Some buf → length buf' = length buf →
  wf (set_printBuf (Some buf') p).
Proof.
  intros (Hw & Hh & Hh2 & Hwh & b & Hb & Hlen) Hbuf Hl. unfold wf. cbn.
  split_and!; try lia. exists buf'. split; [done |]. congruence.
Qed.

(** [setSize] with dimensions in range allocates a well-formed grid, filled
    with the background. *)
Lemma setSize_wf (length lines : Z) (p : Plot) :
  0 <= length <= INT_MAX → 0 <= lines → 2 * lines <= INT_MAX →
  length * lines <= INT_MAX →
  ∃ p', setSize length lines p = Some p' ∧ wf p' ∧
        w p' = length ∧ h p' = lines ∧
        printBuf p' =
          Some (replicate (Z.to_nat (length * lines)) (background_cell (background p))).
Proof.
  intros Hl Hn H2 Hln. unfold setSize.
  assert (0 <= length * lines) by (apply Z.mul_nonneg_nonneg; lia).
  rewrite int_mul_id by (unfold is_int, INT_MIN, INT_MAX in *; lia).
  destruct (Z.ltb_spec (length * lines) 0); [lia |].
  eexists. split; [done |]. unfold clearPlot. cbn.
  rewrite int_mul_id by (unfold is_int, INT_MIN, INT_MAX in *; lia).
  rewrite drop_replicate, Nat.sub_diag. cbn. rewrite app_nil_r.
  unfold wf. cbn. split_and!; try done; try lia.
  eexists. split; [done |]. rewrite length_replicate. lia.
Qed.

Lemma setCell_wf (p : Plot) (x y color : Z) (character : ascii) :
  wf p → ∃ p', setCell x y color character p = Some p' ∧ wf p'.
Proof.
  intros Hwf. destruct (out_of_bounds p x y) eqn:Hb.
  - exists p. split; [by apply setCell_outside | done].
  - destruct (setCell_inside p x y color character Hwf Hb) as (buf & c & Hbuf & Hc & ->).
    eexists. split; [done |]. eapply set_printBuf_wf; [done | done |]. by rewrite length_alter.
Qed.

(** ** The blending rule *)

Lemma in_bounds_inside (p : Plot) (x y : Z) :
  wf p → 0 <= x < w p → 0 <= y < 2 * h p → out_of_bounds p x y = false.
Proof.
  intros (Hw & Hh & Hh2 & _) Hx Hy. unfold out_of_bounds.
  rewrite int_mul_id by (unfold is_int, INT_MIN, INT_MAX in *; lia).
  rewrite !orb_false_iff, Z.geb_leb, Z.geb_leb. split_and!; lia.
Qed.

Lemma alter_insert {A : Type} (f : A → A) (l : list A) (i : nat) (a : A) :
  l !! i = Some a → alter f i l = <[i := f a]> l.
Proof.
  intros Ha. apply list_eq. intros j. destruct (decide (i = j)) as [<- | Hne].
  - rewrite list_lookup_alter_eq, Ha, list_lookup_insert_eq; [done |].
    by eapply lookup_lt_Some.
  - by rewrite list_lookup_alter_ne, list_lookup_insert_ne.
Qed.

(** The parity that selects the nibble of a block write. *)
Lemma blend_block_co (inv : bool) (y color : Z) (c : Cell) :
  0 <= y < INT_MAX → is_color color →
  ch (blend_block inv y color c) = (if Ascii.eqb (ch c) EMPTY then BLOCK else ch c) ∧
  if Z.odd (if inv then y + 1 else y)
  then upper (co (blend_block inv y color c)) = color ∧
       lower (co (blend_block inv y color c)) = lower (co c)
  else lower (co (blend_block inv y color c)) = color ∧
       upper (co (blend_block inv y color c)) = upper (co c).
Proof.
  intros Hy Hc. unfold blend_block. cbn [ch co]. split; [done |].
  rewrite lower_wrap8, upper_wrap8.
  assert (E : (if inv then int_add y 1 else y) = (if inv then y + 1 else y)).
  { destruct inv; [| done]. apply int_add_id. unfold is_int, INT_MIN, INT_MAX in *. lia. }
  rewrite E. set (y' := if inv then y + 1 else y).
  assert (Hy' : 0 <= y') by (subst y'; destruct inv; lia).
  rewrite Z.rem_mod_nonneg by lia. rewrite Zmod_odd.
  destruct (Z.odd y'); cbn.
  - split; [by apply upper_set_upper | apply lower_set_upper].
  - split; [by apply lower_set_lower | by apply upper_set_lower].
Qed.

Lemma blend_at_BLOCK (bg : Z) (inv : bool) (y color : Z) :
  blend bg inv y color BLOCK = blend_block inv y color.
Proof. done. Qed.

Lemma blend_at_glyph (bg : Z) (inv : bool) (y color : Z) (character : ascii) :
  character ≠ BLOCK → blend bg inv y color character = blend_glyph bg color character.
Proof.
  intros Hne. unfold blend. destruct (Ascii.eqb_spec character BLOCK); done.
Qed.

(** C5. In an explicit window, submitting a point with a palette colour
    [color] and the block glyph whose mapped cell [(col, sub)] lies inside
    the grid rewrites that cell only: an empty cell becomes a block cell and
    a block cell stays one; the nibble selected by the parity of the
    sub-row (the upper nibble when [sub], or [sub + 1] under Y inversion,
    is odd, the lower one otherwise) becomes [color], and the other nibble
    keeps its value. *)
Theorem point_block_nibble (p : Plot) (x y : float) (color col sub : Z) :
  wf p → range p = true → is_color color →
  map_x p x = Some col → map_y p y = Some sub →
  0 <= col < w p → 0 <= sub < 2 * h p →
  ∃ buf c p',
    printBuf p = Some buf ∧ buf !! Z.to_nat (col + sub / 2 * w p) = Some c ∧
    point x y color BLOCK p = Some p' ∧
    let c' := blend_block (invertedY p) sub color c in
    printBuf p' = Some (<[Z.to_nat (col + sub / 2 * w p) := c']> buf) ∧
    (ch c = EMPTY → ch c' = BLOCK) ∧ (ch c = BLOCK → ch c' = BLOCK) ∧
    if Z.odd (if invertedY p then sub + 1 else sub)
    then upper (co c') = color ∧ lower (co c') = lower (co c)
    else lower (co c') = color ∧ upper (co c') = upper (co c).
Proof.
  intros Hwf Hr Hc Hx Hy Hcol Hsub.
  set (p1 := set_points (push_back (mkCell BLOCK color) (mkPoint x y) (points p)) p).
  assert (Hwf1 : wf p1) by exact Hwf.
  pose proof (in_bounds_inside p1 col sub Hwf1 Hcol Hsub) as Hb.
  destruct (setCell_inside p1 col sub color BLOCK Hwf1 Hb) as (buf & c & Hbuf & Hlk & Hset).
  exists buf, c. eexists. split_and!; [done | done | |].
  - unfold point. fold p1. change (range p1) with (range p). rewrite Hr.
    unfold printPoint. change (map_x p1) with (map_x p). change (map_y p1) with (map_y p).
    cbn [px py]. rewrite Hx, Hy. cbn. exact Hset.
  - cbn zeta. cbn [printBuf set_printBuf].
    change (w p1) with (w p). change (invertedY p1) with (invertedY p).
    rewrite blend_at_BLOCK.
    split; [by rewrite (alter_insert _ _ _ c) |].
    destruct Hwf as (_ & _ & Hh2 & _).
    destruct (blend_block_co (invertedY p) sub color c) as [Hch Hco]; [lia | done |].
    rewrite Hch. split_and!; [by intros -> | by intros -> | done].
Qed.

(** C6. A write of an explicit character with a palette colour [color] at
    in-bounds coordinates rewrites the target cell only, and its glyph
    becomes that character whatever the cell held. When the cell holds the
    block marker: if its lower nibble differs from the background, the
    attribute byte is shifted left by a nibble with [color] in the lower
    nibble (the old lower colour is the new upper one); otherwise only the
    lower nibble becomes [color]. *)
Theorem setCell_glyph_over_block (p : Plot) (x y color : Z) (character : ascii) :
  wf p → is_color color → character ≠ BLOCK →
  0 <= x < w p → 0 <= y < 2 * h p →
  ∃ buf c p',
    printBuf p = Some buf ∧ buf !! Z.to_nat (x + y / 2 * w p) = Some c ∧
    setCell x y color character p = Some p' ∧
    let c' := blend_glyph (background p) color character c in
    printBuf p' = Some (<[Z.to_nat (x + y / 2 * w p) := c']> buf) ∧
    ch c' = character ∧
    (ch c = BLOCK → lower (co c) ≠ background p →
       co c' = wrap8 (Z.lor (Z.shiftl (co c) 4) color) ∧
       upper (co c') = lower (co c) ∧ lower (co c') = color) ∧
    (ch c = BLOCK → lower (co c) = background p →
       lower (co c') = color ∧ upper (co c') = upper (co c)).
Proof.
  intros Hwf Hc Hne Hx Hy.
  pose proof (in_bounds_inside p x y Hwf Hx Hy) as Hb.
  destruct (setCell_inside p x y color character Hwf Hb) as (buf & c & Hbuf & Hlk & Hset).
  exists buf, c. eexists. split_and!; [done | done | exact Hset |].
  cbn zeta. cbn [printBuf set_printBuf]. rewrite blend_at_glyph by done.
  split; [by rewrite (alter_insert _ _ _ c) |].
  split; [done |].
  unfold blend_glyph. cbn [ch co].
  split; intros Hblk Hbg; rewrite Hblk; change (Ascii.eqb BLOCK EMPTY) with false;
    change (Ascii.eqb BLOCK BLOCK) with true; cbv iota; unfold lower in Hbg.
  - apply Z.eqb_neq in Hbg. rewrite Hbg. cbn [negb].
    rewrite upper_wrap8, lower_wrap8.
    split_and!; [done | by apply upper_shift | by apply lower_shift].
  - apply Z.eqb_eq in Hbg. rewrite Hbg. cbn [negb].
    rewrite upper_wrap8, lower_wrap8.
    split; [by apply lower_set_lower | by apply upper_set_lower].
Qed.

(** ** Clipping *)

Lemma out_of_bounds_outside (p : Plot) (x y : Z) :
  0 <= h p <= INT_MAX →
  x < 0 ∨ w p <= x ∨ y < 0 ∨ 2 * h p <= y → out_of_bounds p x y = true.
Proof.
  intros Hh Hout. unfold out_of_bounds.
  rewrite !orb_true_iff, !Z.geb_leb, !Z.ltb_lt, !Z.leb_le.
  destruct Hout as [? | [? | [? | Hy]]]; [tauto | tauto | tauto |].
  right. destruct (Z_le_gt_dec (h p * 2) INT_MAX) as [Hs | Hs].
  - rewrite int_mul_id by (unfold is_int, INT_MIN, INT_MAX in *; lia). lia.
  - unfold int_mul. rewrite wrap32_high; unfold INT_MAX in *; lia.
Qed.

(** C8. On a grid of non-negative height, a write request with the column
    outside [0, w) or the sub-row outside [0, 2*h) returns the plot as it
    was, with no error; so does a point whose mapped column is [-1] or [w]. *)
Theorem setCell_clips (p : Plot) (color : Z) (character : ascii) :
  0 <= h p <= INT_MAX →
  (∀ x y, x < 0 ∨ w p <= x ∨ y < 0 ∨ 2 * h p <= y →
          setCell x y color character p = Some p) ∧
  (∀ pt y,
     map_x p (px pt) = Some (-1) ∨ map_x p (px pt) = Some (w p) →
     map_y p (py pt) = Some y →
     printPoint pt color character p = Some p).
Proof.
  intros Hh.
  assert (E : ∀ x y, x < 0 ∨ w p <= x ∨ y < 0 ∨ 2 * h p <= y →
                     setCell x y color character p = Some p).
  { intros x y Hout. apply setCell_outside. by apply out_of_bounds_outside. }
  split; [done |]. intros pt y Hx Hy. unfold printPoint.
  destruct Hx as [-> | ->]; rewrite Hy; cbn [mbind option_bind]; apply E; lia.
Qed.

(** ** The background colour *)

(** C10. [setBackgroundColor c] changes the stored background colour and
    nothing else: grid, dataset and every other member are as before. The
    new colour shows only later: [clearPlot], [clearData], [setDrawRange]
    and [setSize] fill the grid with it, and [setCell] reads it only when an
    explicit glyph lands on a block cell; block writes do not depend on
    it. *)
Theorem setBackgroundColor_frame (p : Plot) (c : Z) :
  let p' := setBackgroundColor c p in
  background p' = c ∧
  printBuf p' = printBuf p ∧ points p' = points p ∧ lines p' = lines p ∧
  set_background (background p) p' = p ∧
  (∀ buf, printBuf p = Some buf →
     let n := Z.to_nat (int_mul (w p) (h p)) in
     let cleared := Some (replicate n (background_cell c) ++ drop n buf) in
     printBuf (clearPlot p') = cleared ∧
     printBuf (clearData p') = cleared ∧
     ∀ x1 y1 x2 y2, printBuf (setDrawRange x1 y1 x2 y2 p') = cleared) ∧
  (∀ length lines q,
     setSize length lines p' = Some q →
     printBuf q =
       Some (replicate (Z.to_nat (int_mul length lines)) (background_cell c))) ∧
  (∀ x y color, setCell x y color BLOCK p' = setBackgroundColor c <$> setCell x y color BLOCK p) ∧
  (∀ inv y color character cell,
     ch cell ≠ BLOCK →
     blend c inv y color character cell = blend (background p) inv y color character cell).
Proof.
  cbn zeta. split_and!; try done.
  - by destruct p.
  - intros buf Hbuf. unfold clearData, setDrawRange, clearPlot. cbn. rewrite Hbuf. done.
  - intros length lines q. unfold setSize.
    destruct (int_mul length lines <? 0); [done |]. intros [= <-].
    unfold clearPlot. cbn. rewrite drop_replicate, Nat.sub_diag. cbn.
    by rewrite app_nil_r.
  - intros x y color. unfold setCell, setBackgroundColor.
    change (out_of_bounds (set_background c p) x y) with (out_of_bounds p x y).
    destruct (out_of_bounds p x y); [done |].
    cbn [printBuf set_background]. destruct (printBuf p) as [buf |]; [| done]. cbn.
    change (cell_index (set_background c p) x y) with (cell_index p x y).
    destruct (cell_index p x y <? 0); [done |].
    destruct (buf !! _); done.
  - intros inv y color character cell Hcell. unfold blend, blend_glyph.
    destruct (Ascii.eqb character BLOCK); [done |].
    destruct (Ascii.eqb (ch cell) EMPTY); [done |].
    destruct (Ascii.eqb_spec (ch cell) BLOCK); done.
Qed.

(** ** The loop of [printLine] and the cells it visits *)

Lemma line_loop_cells (fuel : nat) (x2 y2 ddx ddy sx sy color : Z)
    (character : ascii) (s : Walk) (p : Plot) :
  line_loop fuel x2 y2 ddx ddy sx sy color character s p =
    path ← line_cells fuel x2 y2 ddx ddy sx sy s;
    for_each apply_write (path_writes color character path) p.
Proof.
  revert s p. induction fuel as [| fuel IH]; intros s p; [done |].
  cbn [line_loop line_cells].
  destruct ((wx s =? x2) && (wy s =? y2)).
  - cbn. change (apply_write _ p) with (setCell (wx s) (wy s) color character p).
    by destruct (setCell _ _ _ _ p).
  - destruct (line_cells fuel _ _ _ _ _ _ _) as [path |] eqn:Hpath; cbn.
    + change (apply_write _ p) with (setCell (wx s) (wy s) color character p).
      destruct (setCell (wx s) (wy s) color character p) as [p' |]; cbn; [| done].
      rewrite IH, Hpath. done.
    + destruct (setCell (wx s) (wy s) color character p) as [p' |]; cbn; [| done].
      rewrite IH, Hpath. done.
Qed.

Lemma drawLine_path (fuel : nat) (x1 y1 x2 y2 color : Z) (character : ascii) (p : Plot) :
  drawLine fuel x1 y1 x2 y2 color character p =
    path ← line_path fuel x1 y1 x2 y2;
    for_each apply_write (path_writes color character path) p.
Proof. apply line_loop_cells. Qed.

Lemma for_each_writes_wf (ws : list CellWrite) (p : Plot) :
  wf p → ∃ p', for_each apply_write ws p = Some p' ∧ wf p'.
Proof.
  revert p. induction ws as [| [x y color character] ws IH]; intros p Hwf.
  - by exists p.
  - destruct (setCell_wf p x y color character Hwf) as (p1 & Hset & Hwf1).
    destruct (IH p1 Hwf1) as (p' & Hrest & Hwf').
    exists p'. split; [| done]. cbn. unfold apply_write. cbn. rewrite Hset. done.
Qed.

Lemma line_path_run (x1 y1 x2 y2 : Z) :
  span_ok x1 x2 → span_ok y1 y2 →
  ∃ path,
    runs_to x2 y2 (line_dx x1 x2) (line_dy y1 y2) (line_sx x1 x2) (line_sy y1 y2)
      (line_start x1 y1 x2 y2)
      (Z.to_nat (Z.abs (x2 - x1) + Z.abs (y2 - y1))) path.
Proof.
  intros (Hx1 & Hx2 & Hdx) (Hy1 & Hy2 & Hdy).
  assert (Edx : line_dx x1 x2 = Z.abs (x2 - x1)).
  { unfold line_dx. rewrite int_sub_id by int_range. apply int_abs_id. int_range. }
  assert (Edy : line_dy y1 y2 = Z.abs (y2 - y1)).
  { unfold line_dy. rewrite int_sub_id by int_range. apply int_abs_id. int_range. }
  apply (line_cells_run x1 y1 x2 y2) with (i := 0) (j := 0); try done.
  - rewrite Edx. lia.
  - rewrite Edy. lia.
  - unfold line_sx. destruct (x1 <? x2); auto.
  - unfold line_sy. destruct (y1 <? y2); auto.
  - rewrite Edx. unfold line_sx. destruct (Z.ltb_spec x1 x2); lia.
  - rewrite Edy. unfold line_sy. destruct (Z.ltb_spec y1 y2); lia.
  - unfold walk_inv, line_start. cbn [wx wy we]. rewrite Edx, Edy.
    rewrite int_sub_id by int_range. lia.
  - rewrite Edx, Edy. lia.
Qed.

(** C3, amended. For mapped endpoints [(x1, y1)] and [(x2, y2)] that are
    [int] coordinates at most [2^29] cells apart on each axis (the spans for
    which the [int] arithmetic of the walk does not overflow; every segment
    with both endpoints inside the window of a grid of at most [2^29] columns
    and sub-rows is one), [printLine] calls [setCell] exactly on the cells
    of one path, in order: the path starts at [(x1, y1)], ends at
    [(x2, y2)], and each of its cells differs from the one before by at
    most 1 in x and at most 1 in y. *)
Theorem line_walk_connected (x1 y1 x2 y2 : Z) :
  span_ok x1 x2 → span_ok y1 y2 →
  ∃ path,
    line_path (S (Z.to_nat (Z.abs (x2 - x1) + Z.abs (y2 - y1)))) x1 y1 x2 y2 = Some path ∧
    head path = Some (x1, y1) ∧ last path = Some (x2, y2) ∧ connected8 path ∧
    ∀ (fuel : nat) (l : Line) (color : Z) (character : ascii) (p : Plot),
      map_x p (px (la l)) = Some x1 → map_y p (py (la l)) = Some y1 →
      map_x p (px (lb l)) = Some x2 → map_y p (py (lb l)) = Some y2 →
      (length path ≤ fuel)%nat →
      printLine fuel l color character p =
        for_each apply_write (path_writes color character path) p.
Proof.
  intros Hx Hy.
  destruct (line_path_run x1 y1 x2 y2) as (path & Hsome & _ & Hhd & Hlast & Hconn & Hlen & _);
    try done.
  exists path. split_and!; try done.
  - apply Hsome. done.
  - intros fuel l color character p Ex1 Ey1 Ex2 Ey2 Hf.
    unfold printLine. rewrite Ex1, Ey1, Ex2, Ey2. cbn. rewrite drawLine_path.
    unfold line_path. rewrite Hsome by done. done.
Qed.

(** C4, amended. For mapped endpoints [(x1, y1)] and [(x2, y2)] that are
    [int] coordinates at most [2^29] cells apart on each axis (the spans for
    which the [int] arithmetic of the walk does not overflow) the loop of
    [printLine] terminates: it makes exactly [n] iterations, with
    [1 <= n <= |x2-x1| + |y2-y1| + 1], it stands on [(x2, y2)] in the last
    one and in no earlier one, and on an allocated grid [printLine] returns.
    The loop itself ([drawLine], the [while(true)] of [printLine] from the
    mapped endpoints on) has not returned within fewer than [n] iterations
    on any plot; given [n] or more, it has called [setCell] on the [n] cells
    of the path, in order, and nothing else, and [printLine] does the same.
    This covers [dx = 0], [dy = 0] and [dy > dx]. *)
Theorem line_walk_terminates (x1 y1 x2 y2 : Z) :
  span_ok x1 x2 → span_ok y1 y2 →
  ∃ (n : nat) (path : list (Z * Z)),
    (1 ≤ n)%nat ∧ Z.of_nat n <= Z.abs (x2 - x1) + Z.abs (y2 - y1) + 1 ∧
    length path = n ∧
    (∀ fuel, (n ≤ fuel)%nat → line_path fuel x1 y1 x2 y2 = Some path) ∧
    (∀ fuel, (fuel < n)%nat → line_path fuel x1 y1 x2 y2 = None) ∧
    last path = Some (x2, y2) ∧
    (∀ k, (S k < n)%nat → path !! k ≠ Some (x2, y2)) ∧
    (∀ (fuel : nat) (l : Line) (color : Z) (character : ascii) (p : Plot),
       wf p →
       map_x p (px (la l)) = Some x1 → map_y p (py (la l)) = Some y1 →
       map_x p (px (lb l)) = Some x2 → map_y p (py (lb l)) = Some y2 →
       (n ≤ fuel)%nat →
       is_Some (printLine fuel l color character p)) ∧
    (∀ (fuel : nat) (color : Z) (character : ascii) (p : Plot),
       (fuel < n)%nat → drawLine fuel x1 y1 x2 y2 color character p = None) ∧
    (∀ (fuel : nat) (color : Z) (character : ascii) (p : Plot),
       (n ≤ fuel)%nat →
       drawLine fuel x1 y1 x2 y2 color character p =
         for_each apply_write (path_writes color character path) p) ∧
    ∀ (fuel : nat) (l : Line) (color : Z) (character : ascii) (p : Plot),
      map_x p (px (la l)) = Some x1 → map_y p (py (la l)) = Some y1 →
      map_x p (px (lb l)) = Some x2 → map_y p (py (lb l)) = Some y2 →
      ((fuel < n)%nat → printLine fuel l color character p = None) ∧
      ((n ≤ fuel)%nat →
       printLine fuel l color character p =
         for_each apply_write (path_writes color character path) p).
Proof.
  intros Hx Hy.
  destruct (line_path_run x1 y1 x2 y2) as (path & Hsome & Hnone & Hhd & Hlast & Hconn & Hlen & Hhit);
    try done.
  assert (Hearly : ∀ fuel color character p,
            (fuel < length path)%nat →
            drawLine fuel x1 y1 x2 y2 color character p = None).
  { intros fuel color character p Hf. rewrite drawLine_path.
    unfold line_path. by rewrite Hnone. }
  assert (Hdone : ∀ fuel color character p,
            (length path ≤ fuel)%nat →
            drawLine fuel x1 y1 x2 y2 color character p =
              for_each apply_write (path_writes color character path) p).
  { intros fuel color character p Hf. rewrite drawLine_path.
    unfold line_path. by rewrite Hsome. }
  exists (length path), path. split_and!; try done.
  - destruct path; [done | cbn; lia].
  - lia.
  - intros fuel l color character p Hwf Ex1 Ey1 Ex2 Ey2 Hf.
    unfold printLine. rewrite Ex1, Ey1, Ex2, Ey2. cbn. rewrite drawLine_path.
    unfold line_path. rewrite Hsome by done. cbn.
    destruct (for_each_writes_wf (path_writes color character path) p Hwf) as (p' & -> & _).
    done.
  - intros fuel l color character p Ex1 Ey1 Ex2 Ey2.
    unfold printLine. rewrite Ex1, Ey1, Ex2, Ey2. cbn [mbind option_bind].
    split; intros Hf; [by apply Hearly | by apply Hdone].
Qed.

(** ** [render] as a list of write requests *)

Lemma for_each_app {A S : Type} (body : A → S → option S) (v1 v2 : list A) (s : S) :
  for_each body (v1 ++ v2) s = s' ← for_each body v1 s; for_each body v2 s'.
Proof.
  revert s. induction v1 as [| a v1 IH]; intros s; [done |].
  cbn. destruct (body a s); cbn; [apply IH | done].
Qed.

Lemma collect_ext {A : Type} (g1 g2 : A → option (list CellWrite)) (v : list A) :
  (∀ a, g1 a = g2 a) → collect g1 v = collect g2 v.
Proof. intros E. induction v as [| a v IH]; [done |]. cbn. by rewrite E, IH. Qed.

Lemma for_each_writes_frame (ws : list CellWrite) (p p' : Plot) :
  for_each apply_write ws p = Some p' →
  p' = set_printBuf (printBuf p') p ∧ length <$> printBuf p' = length <$> printBuf p.
Proof.
  revert p. induction ws as [| a ws IH]; intros p.
  - intros [= <-]. by rewrite set_printBuf_same.
  - cbn. destruct (apply_write a p) as [p1 |] eqn:Ha; cbn; [| done].
    intros Hrest. apply setCell_frame in Ha as [E1 L1]. apply IH in Hrest as [E2 L2].
    split; [| congruence]. rewrite E2, E1. done.
Qed.

(** A loop whose body issues write requests that do not depend on the cells. *)
Lemma for_each_collect {A : Type} (body : A → Plot → option Plot)
    (gen : Plot → A → option (list CellWrite)) :
  (∀ a p, body a p = ws ← gen p a; for_each apply_write ws p) →
  (∀ a p b, gen (set_printBuf b p) a = gen p a) →
  ∀ v p, for_each body v p = ws ← collect (gen p) v; for_each apply_write ws p.
Proof.
  intros Hbody Hgen v. induction v as [| a v IH]; intros p; [done |].
  cbn. rewrite Hbody. destruct (gen p a) as [ws |]; cbn; [| done].
  destruct (for_each apply_write ws p) as [p' |] eqn:Hws; cbn.
  - rewrite IH. destruct (for_each_writes_frame _ _ _ Hws) as [E _].
    rewrite E. rewrite (collect_ext (gen _) (gen p)) by (intros; apply Hgen).
    destruct (collect (gen p) v) as [rest |]; cbn; [| done].
    rewrite for_each_app, Hws. cbn. by rewrite <- E.
  - destruct (collect (gen p) v) as [rest |]; cbn; [| done].
    rewrite for_each_app, Hws. done.
Qed.

Lemma printPoint_writes (pt : Point) (color : Z) (character : ascii) (p : Plot) :
  printPoint pt color character p =
    ws ← point_writes p color character pt; for_each apply_write ws p.
Proof.
  unfold printPoint, point_writes.
  destruct (map_x p (px pt)) as [x |]; cbn; [| done].
  destruct (map_y p (py pt)) as [y |]; cbn; [| done].
  change (apply_write _ p) with (setCell x y color character p).
  by destruct (setCell x y color character p).
Qed.

Lemma printLine_writes (fuel : nat) (l : Line) (color : Z) (character : ascii) (p : Plot) :
  printLine fuel l color character p =
    ws ← line_writes fuel p color character l; for_each apply_write ws p.
Proof.
  unfold printLine, line_writes.
  destruct (map_x p (px (la l))) as [x1 |]; cbn; [| done].
  destruct (map_y p (py (la l))) as [y1 |]; cbn; [| done].
  destruct (map_x p (px (lb l))) as [x2 |]; cbn; [| done].
  destruct (map_y p (py (lb l))) as [y2 |]; cbn; [| done].
  rewrite drawLine_path. by destruct (line_path fuel x1 y1 x2 y2).
Qed.

Lemma render_lines_writes (fuel : nat) (m : list (Cell * list Line)) (p : Plot) :
  render_lines fuel m p = ws ← lines_writes fuel p m; for_each apply_write ws p.
Proof.
  unfold render_lines, lines_writes.
  apply (for_each_collect _
           (λ q c, collect (line_writes fuel q (co (fst c)) (ch (fst c))) (snd c))).
  - intros c q.
    apply (for_each_collect _ (λ q' l, line_writes fuel q' (co (fst c)) (ch (fst c)) l)).
    + intros l q'. apply printLine_writes.
    + done.
  - done.
Qed.

Lemma render_points_writes (m : list (Cell * list Point)) (p : Plot) :
  render_points m p = ws ← points_writes p m; for_each apply_write ws p.
Proof.
  unfold render_points, points_writes.
  apply (for_each_collect _
           (λ q c, collect (point_writes q (co (fst c)) (ch (fst c))) (snd c))).
  - intros c q.
    apply (for_each_collect _ (λ q' pt, point_writes q' (co (fst c)) (ch (fst c)) pt)).
    + intros pt q'. apply printPoint_writes.
    + done.
  - done.
Qed.

Lemma render_as_writes (fuel : nat) (p : Plot) :
  render fuel p =
    ws ← render_writes fuel (render_window p);
    for_each apply_write ws (render_window p).
Proof.
  unfold render, render_writes. cbn zeta. set (p0 := render_window p).
  rewrite render_lines_writes.
  destruct (lines_writes fuel p0 (lines p0)) as [lw |]; cbn; [| done].
  destruct (for_each apply_write lw p0) as [p1 |] eqn:Hlw; cbn.
  - rewrite render_points_writes.
    destruct (for_each_writes_frame _ _ _ Hlw) as [E _].
    replace (points_writes p1 (points p1)) with (points_writes p0 (points p0))
      by (rewrite E; done).
    destruct (points_writes p0 (points p0)) as [pw |]; cbn; [| done].
    rewrite for_each_app, Hlw. done.
  - destruct (points_writes p0 (points p0)) as [pw |]; cbn; [| done].
    rewrite for_each_app, Hlw. done.
Qed.

(** ** Plots on which [render] returns *)

Lemma collect_is_Some {A : Type} (gen : A → option (list CellWrite)) (v : list A) :
  Forall (λ a, is_Some (gen a)) v → is_Some (collect gen v).
Proof.
  induction 1 as [| a v [ws Ha] _ [rest IH]]; [done |].
  cbn. rewrite Ha, IH. done.
Qed.

Lemma line_writes_is_Some (fuel : nat) (p : Plot) (color : Z) (character : ascii)
    (l : Line) :
  line_ok fuel p l → is_Some (line_writes fuel p color character l).
Proof.
  intros (x1 & y1 & x2 & y2 & Ex1 & Ey1 & Ex2 & Ey2 & Hx & Hy & Hf).
  unfold line_writes. rewrite Ex1, Ey1, Ex2, Ey2. cbn.
  destruct (line_path_run x1 y1 x2 y2 Hx Hy) as (path & Hsome & _ & _ & _ & _ & Hlen & _).
  unfold line_path. rewrite Hsome by lia. done.
Qed.

Lemma point_writes_is_Some (p : Plot) (color : Z) (character : ascii) (pt : Point) :
  point_ok p pt → is_Some (point_writes p color character pt).
Proof.
  intros [[x Ex] [y Ey]]. unfold point_writes. rewrite Ex, Ey. done.
Qed.

Lemma render_window_wf (p : Plot) : wf p → wf (render_window p).
Proof. unfold render_window. by destruct (range p). Qed.

(** On a renderable plot [render] returns. *)
Lemma render_returns (fuel : nat) (p : Plot) :
  renderable fuel p → ∃ p', render fuel p = Some p' ∧ wf p'.
Proof.
  intros (Hwf & Hl & Hp). rewrite render_as_writes.
  set (p0 := render_window p) in *.
  assert (El : lines p0 = lines p) by (unfold p0, render_window; by destruct (range p)).
  assert (Ep : points p0 = points p) by (unfold p0, render_window; by destruct (range p)).
  unfold render_writes. rewrite El, Ep.
  destruct (collect_is_Some
              (λ c, collect (line_writes fuel p0 (co (fst c)) (ch (fst c))) (snd c))
              (lines p)) as [lw Hlw].
  { eapply Forall_impl; [exact Hl |]. intros c Hc. cbn beta.
    apply collect_is_Some. eapply Forall_impl; [exact Hc |].
    intros l. apply line_writes_is_Some. }
  destruct (collect_is_Some
              (λ c, collect (point_writes p0 (co (fst c)) (ch (fst c))) (snd c))
              (points p)) as [pw Hpw].
  { eapply Forall_impl; [exact Hp |]. intros c Hc. cbn beta.
    apply collect_is_Some. eapply Forall_impl; [exact Hc |].
    intros pt. apply point_writes_is_Some. }
  unfold lines_writes, points_writes. rewrite Hlw, Hpw. cbn.
  apply for_each_writes_wf. by apply render_window_wf.
Qed.

(** ** Runs of block writes *)

Lemma block_glyph_idem (c : ascii) : block_glyph (block_glyph c) = block_glyph c.
Proof.
  unfold block_glyph. destruct (Ascii.eqb c EMPTY) eqn:E; [done |]. by rewrite E.
Qed.

Lemma wrap8_lor_land (a m k : Z) :
  wrap8 (Z.lor (Z.land (wrap8 a) m) k) = wrap8 (Z.lor (Z.land a m) k).
Proof.
  apply wrap8_congr. rewrite <- !land_255.
  rewrite !Z.land_lor_distr_l. f_equal.
  rewrite <- !Z.land_assoc, (Z.land_comm m 255), !Z.land_assoc.
  by rewrite !land_255, wrap8_mod.
Qed.

Lemma lor_land_absorb (k m : Z) : Z.lor (Z.land k m) k = k.
Proof.
  apply Z.bits_inj'. intros n _. rewrite Z.lor_spec, Z.land_spec.
  by destruct (Z.testbit k n), (Z.testbit m n).
Qed.

Lemma cell_effect_then (d1 d2 : option (Z * Z)) (c : Cell) :
  cell_effect (effect_then d1 d2) c = cell_effect d2 (cell_effect d1 c).
Proof.
  destruct d1 as [[m1 k1] |], d2 as [[m2 k2] |]; try done.
  cbn. rewrite block_glyph_idem, wrap8_lor_land. do 2 f_equal.
  rewrite Z.land_lor_distr_l, Z.land_assoc, Z.lor_assoc. done.
Qed.

Lemma cell_effect_idem (d : option (Z * Z)) (c : Cell) :
  cell_effect d (cell_effect d c) = cell_effect d c.
Proof.
  destruct d as [[m k] |]; [| done].
  cbn. rewrite block_glyph_idem, wrap8_lor_land. do 2 f_equal.
  rewrite Z.land_lor_distr_l, <- Z.land_assoc, Z.land_diag, <- Z.lor_assoc.
  by rewrite lor_land_absorb.
Qed.

Lemma blend_block_effect (inv : bool) (y color : Z) (c : Cell) :
  blend_block inv y color c = cell_effect (Some (block_effect inv y color)) c.
Proof.
  unfold blend_block, block_effect, cell_effect, block_glyph.
  by destruct (negb _).
Qed.

Lemma apply_effects_idem (d : nat → option (Z * Z)) (buf : list Cell) :
  apply_effects d (apply_effects d buf) = apply_effects d buf.
Proof.
  apply list_eq. intros i. unfold apply_effects. rewrite !list_lookup_imap.
  destruct (buf !! i); cbn; [| done]. by rewrite cell_effect_idem.
Qed.

Lemma length_apply_effects (d : nat → option (Z * Z)) (buf : list Cell) :
  length (apply_effects d buf) = length buf.
Proof. apply length_imap. Qed.

Lemma apply_effects_then (d1 d2 : nat → option (Z * Z)) (buf : list Cell) :
  apply_effects d2 (apply_effects d1 buf) =
    apply_effects (λ i, effect_then (d1 i) (d2 i)) buf.
Proof.
  apply list_eq. intros i. unfold apply_effects. rewrite !list_lookup_imap.
  destruct (buf !! i); cbn; [| done]. by rewrite cell_effect_then.
Qed.

Lemma apply_effects_ext (d1 d2 : nat → option (Z * Z)) (buf : list Cell) :
  (∀ i, d1 i = d2 i) → apply_effects d1 buf = apply_effects d2 buf.
Proof.
  intros E. apply list_eq. intros i. unfold apply_effects.
  by rewrite !list_lookup_imap, E.
Qed.

Lemma printBuf_set_printBuf (b : option (list Cell)) (p : Plot) :
  printBuf (set_printBuf b p) = b.
Proof. done. Qed.

Lemma set_printBuf_twice (b1 b2 : option (list Cell)) (p : Plot) :
  set_printBuf b1 (set_printBuf b2 p) = set_printBuf b1 p.
Proof. done. Qed.

(** One block write, seen from the buffer. *)
Lemma setCell_block_effect (p p' : Plot) (a : CellWrite) :
  cw_char a = BLOCK → apply_write a p = Some p' →
  p' = set_printBuf (apply_effects (write_effect p a) <$> printBuf p) p.
Proof.
  intros Hb. unfold apply_write, setCell, write_effect. rewrite Hb.
  destruct (out_of_bounds p (cw_x a) (cw_y a)).
  - intros [= <-]. destruct (printBuf p) as [buf |] eqn:Hbuf; cbn.
    + rewrite <- (set_printBuf_same p) at 1. rewrite Hbuf. do 2 f_equal.
      apply list_eq. intros i. unfold apply_effects. rewrite list_lookup_imap.
      by destruct (buf !! i).
    + rewrite <- Hbuf. by rewrite set_printBuf_same.
  - destruct (printBuf p) as [buf |]; cbn; [| done].
    destruct (cell_index p (cw_x a) (cw_y a) <? 0); [done |].
    destruct (buf !! _) as [c |] eqn:Hc; [| done]. intros [= <-]. do 2 f_equal.
    apply list_eq. intros i. unfold apply_effects. rewrite list_lookup_imap.
    rewrite blend_at_BLOCK.
    destruct (decide (i = _)) as [-> | Hne].
    + rewrite list_lookup_alter_eq. destruct (buf !! _); cbn; [| done].
      by rewrite blend_block_effect.
    + rewrite list_lookup_alter_ne by done. by destruct (buf !! i).
Qed.

Lemma writes_effect_frame (p : Plot) (b : option (list Cell)) (ws : list CellWrite) (i : nat) :
  writes_effect (set_printBuf b p) ws i = writes_effect p ws i.
Proof. induction ws as [| a ws IH]; [done |]. cbn. by rewrite IH. Qed.

(** A run of block writes, seen from the buffer. *)
Lemma block_writes_effect (ws : list CellWrite) (p p' : Plot) :
  Forall (λ a, cw_char a = BLOCK) ws →
  for_each apply_write ws p = Some p' →
  p' = set_printBuf (apply_effects (writes_effect p ws) <$> printBuf p) p.
Proof.
  intros Hb. revert p. induction Hb as [| a ws Ha Hws IH]; intros p.
  - intros [= <-]. cbn. rewrite <- (set_printBuf_same p) at 1. f_equal.
    destruct (printBuf p) as [buf |]; cbn; [| done]. f_equal.
    apply list_eq. intros i. unfold apply_effects. rewrite list_lookup_imap.
    by destruct (buf !! i).
  - cbn [for_each]. destruct (apply_write a p) as [p1 |] eqn:H1; cbn; [| done].
    intros Hrest. apply IH in Hrest. apply setCell_block_effect in H1; [| done].
    rewrite Hrest, H1. rewrite printBuf_set_printBuf, set_printBuf_twice. f_equal.
    destruct (printBuf p) as [buf |]; [| done].
    change (Some (apply_effects (writes_effect (set_printBuf (Some (apply_effects (write_effect p a) buf)) p) ws)
                    (apply_effects (write_effect p a) buf)) =
            Some (apply_effects (writes_effect p (a :: ws)) buf)).
    f_equal. rewrite apply_effects_then. apply apply_effects_ext.
    intros i. by rewrite writes_effect_frame.
Qed.

(** Whether a write succeeds depends on the buffer only through its size. *)
Lemma setCell_transfer (p p1 : Plot) (b b' : option (list Cell)) (x y color : Z)
    (character : ascii) :
  length <$> b' = length <$> b →
  setCell x y color character (set_printBuf b p) = Some p1 →
  ∃ b1 b1',
    p1 = set_printBuf b1 p ∧
    setCell x y color character (set_printBuf b' p) = Some (set_printBuf b1' p) ∧
    length <$> b1' = length <$> b1.
Proof.
  intros Hlen. unfold setCell.
  change (out_of_bounds (set_printBuf b p)) with (out_of_bounds p).
  change (out_of_bounds (set_printBuf b' p)) with (out_of_bounds p).
  destruct (out_of_bounds p x y).
  - intros [= <-]. by exists b, b'.
  - rewrite !printBuf_set_printBuf.
    destruct b as [buf |], b' as [buf' |]; cbn in *; try done.
    change (cell_index (set_printBuf _ p)) with (cell_index p).
    destruct (cell_index p x y <? 0); [done |].
    injection Hlen as Hlen.
    destruct (buf !! _) as [c |] eqn:Hc; [| done]. intros [= <-].
    destruct (lookup_lt_is_Some_2 buf' (Z.to_nat (cell_index p x y))) as [c' Hc'].
    { rewrite Hlen. by eapply lookup_lt_Some. }
    rewrite Hc'. eexists _, _. split_and!; [done | done |].
    cbn. by rewrite !length_alter, Hlen.
Qed.

Lemma for_each_writes_transfer (ws : list CellWrite) (p : Plot) (b b' : option (list Cell)) :
  length <$> b' = length <$> b →
  is_Some (for_each apply_write ws (set_printBuf b p)) →
  is_Some (for_each apply_write ws (set_printBuf b' p)).
Proof.
  revert b b'. induction ws as [| a ws IH]; intros b b' Hlen; [done |].
  cbn [for_each].
  destruct (apply_write a (set_printBuf b p)) as [p1 |] eqn:H1; cbn; [| by intros []].
  destruct (setCell_transfer p p1 b b' _ _ _ _ Hlen H1) as (b1 & b1' & -> & H1' & Hlen1).
  change (apply_write a (set_printBuf b' p) = Some (set_printBuf b1' p)) in H1'.
  rewrite H1'. cbn. by apply IH.
Qed.

Lemma block_writes_twice (ws : list CellWrite) (p p' : Plot) :
  Forall (λ a, cw_char a = BLOCK) ws →
  for_each apply_write ws p = Some p' →
  for_each apply_write ws p' = Some p'.
Proof.
  intros Hb Hrun. pose proof (block_writes_effect ws p p' Hb Hrun) as E.
  destruct (for_each_writes_transfer ws p (printBuf p)
              (apply_effects (writes_effect p ws) <$> printBuf p)) as [p2 H2].
  { destruct (printBuf p); cbn; [| done]. by rewrite length_apply_effects. }
  { rewrite set_printBuf_same, Hrun. done. }
  rewrite <- E in H2. rewrite H2. f_equal.
  apply (block_writes_effect ws p' p2 Hb) in H2. rewrite H2.
  assert (Ed : ∀ i, writes_effect p' ws i = writes_effect p ws i).
  { intros i. by rewrite E, writes_effect_frame. }
  rewrite (f_equal printBuf E), printBuf_set_printBuf.
  rewrite E at 2 3. rewrite set_printBuf_twice. f_equal.
  destruct (printBuf p) as [buf |]; [| done]. cbn. f_equal.
  rewrite (apply_effects_ext _ _ _ Ed). apply apply_effects_idem.
Qed.

(** ** Rendering twice *)

Lemma collect_Forall {A : Type} (P : CellWrite → Prop) (Q : A → Prop)
    (gen : A → option (list CellWrite)) (v : list A) (ws : list CellWrite) :
  (∀ a ws', Q a → gen a = Some ws' → Forall P ws') →
  Forall Q v → collect gen v = Some ws → Forall P ws.
Proof.
  intros Hgen Hv. revert ws. induction Hv as [| a v Ha Hv IH]; intros ws.
  - intros [= <-]. constructor.
  - cbn. destruct (gen a) as [ws1 |] eqn:H1; cbn; [| done].
    destruct (collect gen v) as [rest |]; cbn; [| done]. intros [= <-].
    apply Forall_app. split; [by eapply Hgen | by apply IH].
Qed.

Lemma path_writes_char (color : Z) (character : ascii) (path : list (Z * Z)) :
  Forall (λ a, cw_char a = character) (path_writes color character path).
Proof. unfold path_writes. apply Forall_map, Forall_forall. done. Qed.

Lemma line_writes_char (fuel : nat) (p : Plot) (color : Z) (character : ascii)
    (l : Line) (ws : list CellWrite) :
  line_writes fuel p color character l = Some ws →
  Forall (λ a, cw_char a = character) ws.
Proof.
  unfold line_writes.
  destruct (map_x p (px (la l))); cbn; [| done].
  destruct (map_y p (py (la l))); cbn; [| done].
  destruct (map_x p (px (lb l))); cbn; [| done].
  destruct (map_y p (py (lb l))); cbn; [| done].
  destruct (line_path _ _ _ _ _); cbn; [| done].
  intros [= <-]. apply path_writes_char.
Qed.

Lemma point_writes_char (p : Plot) (color : Z) (character : ascii)
    (pt : Point) (ws : list CellWrite) :
  point_writes p color character pt = Some ws →
  Forall (λ a, cw_char a = character) ws.
Proof.
  unfold point_writes.
  destruct (map_x p (px pt)); cbn; [| done].
  destruct (map_y p (py pt)); cbn; [| done].
  intros [= <-]. by repeat constructor.
Qed.

Lemma render_writes_block (fuel : nat) (p : Plot) (ws : list CellWrite) :
  block_only p → render_writes fuel p = Some ws →
  Forall (λ a, cw_char a = BLOCK) ws.
Proof.
  intros [Hl Hp]. unfold render_writes.
  destruct (lines_writes fuel p (lines p)) as [lw |] eqn:Hlw; cbn; [| done].
  destruct (points_writes p (points p)) as [pw |] eqn:Hpw; cbn; [| done].
  intros [= <-]. apply Forall_app. split.
  - eapply (collect_Forall _ (λ c, ch (fst c) = BLOCK)); [| exact Hl | exact Hlw].
    intros c ws' Hc Hws'. cbn in Hws'.
    eapply (collect_Forall _ (λ _, True)); [| | exact Hws'].
    + intros l ws'' _ H. rewrite <- Hc. by eapply line_writes_char.
    + by apply Forall_forall.
  - eapply (collect_Forall _ (λ c, ch (fst c) = BLOCK)); [| exact Hp | exact Hpw].
    intros c ws' Hc Hws'. cbn in Hws'.
    eapply (collect_Forall _ (λ _, True)); [| | exact Hws'].
    + intros l ws'' _ H. rewrite <- Hc. by eapply point_writes_char.
    + by apply Forall_forall.
Qed.

Lemma render_window_set_printBuf (b : option (list Cell)) (p : Plot) :
  render_window (set_printBuf b (render_window p)) = set_printBuf b (render_window p).
Proof. unfold render_window. cbn. by destruct (range p) eqn:E; cbn; rewrite ?E. Qed.

(** C1, amended. [render] does not clear the grid: it replays the same
    write requests over the cells it finds. When every style of the dataset
    uses the default block glyph, [render] returns on every renderable
    plot, and a second [render] with dataset and window unchanged returns
    too and leaves the whole plot, hence the grid, exactly as the first one
    left it. *)
Theorem render_twice_block (fuel : nat) (p : Plot) :
  block_only p →
  (renderable fuel p → is_Some (render fuel p)) ∧
  (∀ p1, render fuel p = Some p1 → render fuel p1 = Some p1).
Proof.
  intros Hb. split.
  { intros Hr. destruct (render_returns fuel p Hr) as (p' & -> & _). done. }
  intros p1 Hr. rewrite render_as_writes in Hr.
  set (p0 := render_window p) in *.
  destruct (render_writes fuel p0) as [ws |] eqn:Hws; cbn in Hr; [| done].
  destruct (for_each_writes_frame _ _ _ Hr) as [E _].
  assert (Hb0 : block_only p0).
  { unfold block_only, p0, render_window in *. by destruct (range p). }
  rewrite render_as_writes.
  assert (E1 : render_window p1 = p1).
  { rewrite E. apply render_window_set_printBuf. }
  rewrite E1.
  assert (E2 : render_writes fuel p1 = Some ws) by (rewrite E; exact Hws).
  rewrite E2. cbn. eapply block_writes_twice; [| done].
  by eapply render_writes_block.
Qed.

(** ** The point rasterized last *)

Lemma collect_app {A : Type} (gen : A → option (list CellWrite)) (v1 v2 : list A) :
  collect gen (v1 ++ v2) =
    ws1 ← collect gen v1; ws2 ← collect gen v2; Some (ws1 ++ ws2).
Proof.
  induction v1 as [| a v1 IH]; cbn.
  - by destruct (collect gen v2).
  - destruct (gen a) as [ws |]; cbn; [| done]. rewrite IH.
    destruct (collect gen v1) as [ws1 |]; cbn; [| done].
    destruct (collect gen v2) as [ws2 |]; cbn; [| done].
    by rewrite app_assoc.
Qed.

(** The writes of a dataset whose last point is [pt] end with the write of [pt]. *)
Lemma points_writes_last (p : Plot) (m : list (Cell * list Point)) (key : Cell)
    (v : list Point) (pt : Point) (pw : list CellWrite) :
  points_writes p (m ++ [(key, v ++ [pt])]) = Some pw →
  ∃ pw1 x y,
    points_writes p (m ++ [(key, v)]) = Some pw1 ∧
    map_x p (px pt) = Some x ∧ map_y p (py pt) = Some y ∧
    pw = pw1 ++ [mkWrite x y (co key) (ch key)].
Proof.
  unfold points_writes. rewrite !collect_app. cbn [collect fst snd].
  destruct (collect _ m) as [wm |]; cbn; [| done].
  rewrite collect_app. cbn [collect].
  destruct (collect _ v) as [wv |]; cbn; [| done].
  unfold point_writes.
  destruct (map_x p (px pt)) as [x |]; cbn; [| done].
  destruct (map_y p (py pt)) as [y |]; cbn; [| done].
  intros [= <-]. exists (wm ++ wv), x, y.
  rewrite !app_nil_r. split_and!; try done. by rewrite app_assoc.
Qed.

Lemma blend_glyph_lower (bg color : Z) (character : ascii) (c : Cell) :
  is_color color →
  ch c = EMPTY ∨ ch c = BLOCK ∨ ch c ≠ character →
  lower (co (blend_glyph bg color character c)) = color.
Proof.
  intros Hc Hch. unfold blend_glyph. cbn [co].
  destruct (Ascii.eqb_spec (ch c) EMPTY) as [He | He].
  { rewrite lower_wrap8. by apply lower_set_lower. }
  destruct (Ascii.eqb_spec (ch c) BLOCK) as [Hb | Hb].
  { rewrite lower_wrap8. destruct (negb _); [by apply lower_shift | by apply lower_set_lower]. }
  destruct (Ascii.eqb_spec (ch c) character) as [Hs | Hs].
  { exfalso. destruct Hch as [? | [? | ?]]; done. }
  cbn. rewrite lower_wrap8. by apply lower_shift.
Qed.

Lemma blend_glyph_same (bg color : Z) (character : ascii) (c : Cell) :
  ch c = character → ch c ≠ EMPTY → ch c ≠ BLOCK →
  co (blend_glyph bg color character c) = co c.
Proof.
  intros Hs He Hb. unfold blend_glyph. cbn [co].
  destruct (Ascii.eqb_spec (ch c) EMPTY); [done |].
  destruct (Ascii.eqb_spec (ch c) BLOCK); [done |].
  destruct (Ascii.eqb_spec (ch c) character); done.
Qed.

(** C7, amended. [render] returns on every renderable plot, and it issues
    the writes of all buffered lines, then those of all buffered points; the
    write of the point rasterized last is applied to the plot [s] that all
    lines and all other points produced. When that point maps into the
    grid, with [c] the cell it finds there: with the block glyph its colour
    is the final value of the nibble selected by the parity of the sub-row
    (the upper nibble for an odd sub-row, the lower one for an even one,
    swapped under Y inversion); with an explicit glyph its colour is the
    final lower nibble if the cell is empty, block-shaded or holds a
    different glyph, and the attribute byte stays as it was if the cell
    already holds that same glyph. *)
Theorem render_last_point (fuel : nat) (p : Plot) (m : list (Cell * list Point))
    (key : Cell) (v : list Point) (pt : Point) :
  points p = m ++ [(key, v ++ [pt])] →
  is_color (co key) →
  (renderable fuel p → is_Some (render fuel p)) ∧
  ∀ p', render fuel p = Some p' →
  let p0 := render_window p in
  ∃ lw pw1 s x y,
    lines_writes fuel p0 (lines p) = Some lw ∧
    points_writes p0 (m ++ [(key, v)]) = Some pw1 ∧
    for_each apply_write (lw ++ pw1) p0 = Some s ∧
    map_x p0 (px pt) = Some x ∧ map_y p0 (py pt) = Some y ∧
    setCell x y (co key) (ch key) s = Some p' ∧
    (out_of_bounds p x y = false →
     ∃ buf c,
       let i := Z.to_nat (cell_index p x y) in
       let c' := blend (background p) (invertedY p) y (co key) (ch key) c in
       printBuf s = Some buf ∧ buf !! i = Some c ∧
       printBuf p' = Some (<[i := c']> buf) ∧
       (ch key = BLOCK →
          if Z.odd (if invertedY p then y + 1 else y)
          then upper (co c') = co key
          else lower (co c') = co key) ∧
       (ch key ≠ BLOCK →
          (ch c = EMPTY ∨ ch c = BLOCK ∨ ch c ≠ ch key → lower (co c') = co key) ∧
          (ch c = ch key → ch c ≠ EMPTY → ch c ≠ BLOCK → co c' = co c))).
Proof.
  intros Hpts Hc. split.
  { intros Hr. destruct (render_returns fuel p Hr) as (p' & -> & _). done. }
  intros p' Hr p0. rewrite render_as_writes in Hr. fold p0 in Hr.
  unfold render_writes in Hr.
  assert (El : lines p0 = lines p) by (unfold p0, render_window; by destruct (range p)).
  assert (Ep : points p0 = points p) by (unfold p0, render_window; by destruct (range p)).
  rewrite El, Ep, Hpts in Hr.
  destruct (lines_writes fuel p0 (lines p)) as [lw |] eqn:Hlw; cbn in Hr; [| done].
  destruct (points_writes p0 _) as [pw |] eqn:Hpw; cbn in Hr; [| done].
  destruct (points_writes_last _ _ _ _ _ _ Hpw) as (pw1 & x & y & Hpw1 & Hx & Hy & ->).
  rewrite app_assoc, for_each_app in Hr.
  destruct (for_each apply_write (lw ++ pw1) p0) as [s |] eqn:Hs; cbn in Hr; [| done].
  change (apply_write _ s) with (setCell x y (co key) (ch key) s) in Hr.
  destruct (setCell x y (co key) (ch key) s) as [p2 |] eqn:Hset; cbn in Hr; [| done].
  injection Hr as ->.
  exists lw, pw1, s, x, y. split_and!; try done.
  intros Hb.
  destruct (for_each_writes_frame _ _ _ Hs) as [Es _].
  assert (Ef : ∀ b, out_of_bounds (set_printBuf b p0) x y = out_of_bounds p x y ∧
                    cell_index (set_printBuf b p0) x y = cell_index p x y ∧
                    background (set_printBuf b p0) = background p ∧
                    invertedY (set_printBuf b p0) = invertedY p).
  { intros b. unfold p0, render_window. by destruct (range p). }
  destruct (Ef (printBuf s)) as (Eo & Ei & Eb & Ev). rewrite <- Es in Eo, Ei, Eb, Ev.
  unfold setCell in Hset. rewrite Eo, Hb, Ei, Eb, Ev in Hset.
  destruct (printBuf s) as [buf |]; cbn in Hset; [| done].
  destruct (Z.ltb_spec (cell_index p x y) 0); [done |].
  destruct (buf !! Z.to_nat (cell_index p x y)) as [c |] eqn:Hlk; [| done].
  injection Hset as <-. exists buf, c. cbn zeta. split_and!; try done.
  - cbn. by rewrite (alter_insert _ _ _ c).
  - intros Hk. rewrite Hk, blend_at_BLOCK.
    assert (Hy' : 0 <= y < INT_MAX).
    { unfold out_of_bounds in Hb. rewrite !orb_false_iff, Z.geb_leb, Z.geb_leb in Hb.
      destruct Hb as [[[_ _] Hy0] Hy1]. apply Z.ltb_ge in Hy0. apply Z.leb_gt in Hy1.
      pose proof (wrap32_is_int (h p * 2)) as Hi. unfold int_mul in Hy1.
      unfold is_int in Hi. lia. }
    destruct (blend_block_co (invertedY p) y (co key) c Hy' Hc) as [_ Hco].
    destruct (Z.odd _); tauto.
  - intros Hk. rewrite blend_at_glyph by done. split.
    + by apply blend_glyph_lower.
    + by apply blend_glyph_same.
Qed.

(** ** The implicit window *)

Lemma SFltb_irrefl (a : spec_float) : SFltb a a = false.
Proof.
  unfold SFltb, SFcompare. destruct a as [[] | [] | | [] m e]; try done.
  all: rewrite Z.compare_refl, Pos.compare_cont_refl; done.
Qed.

Lemma SFltb_trans (a b c : spec_float) :
  SFltb a b = true → SFltb b c = true → SFltb a c = true.
Proof.
  unfold SFltb, SFcompare.
  destruct a as [sa | sa | | sa ma ea], b as [sb | sb | | sb mb eb],
           c as [sc | sc | | sc mc ec];
    try destruct sa; try destruct sb; try destruct sc; try done.
  all: destruct (Z.compare_spec ea eb), (Z.compare_spec eb ec), (Z.compare_spec ea ec);
    try done; try lia; subst.
  all: fold (Pos.compare ma mb); fold (Pos.compare mb mc); fold (Pos.compare ma mc).
  all: destruct (Pos.compare_spec ma mb), (Pos.compare_spec mb mc), (Pos.compare_spec ma mc);
    try done; try lia.
Qed.

Lemma ltb_irrefl (a : float) : PrimFloat.ltb a a = false.
Proof. rewrite ltb_spec. apply SFltb_irrefl. Qed.

Lemma ltb_trans (a b c : float) :
  PrimFloat.ltb a b = true → PrimFloat.ltb b c = true → PrimFloat.ltb a c = true.
Proof. rewrite !ltb_spec. apply SFltb_trans. Qed.

(** The running minimum is below every value seen, and the running maximum above. *)
Lemma fold_fmin_below (xs : list float) (a x : float) :
  PrimFloat.ltb x a = false ∨ x ∈ xs →
  PrimFloat.ltb x (fold_left fmin xs a) = false.
Proof.
  revert a. induction xs as [| y xs IH]; intros a Hx.
  - by destruct Hx as [? | ?%elem_of_nil].
  - cbn. apply IH. rewrite elem_of_cons in Hx. unfold fmin.
    destruct (PrimFloat.ltb y a) eqn:Hya.
    + destruct Hx as [Hxa | [-> | Hin]]; [left | left | by right].
      * destruct (PrimFloat.ltb x y) eqn:Hxy; [| done].
        by rewrite (ltb_trans x y a) in Hxa.
      * apply ltb_irrefl.
    + destruct Hx as [Hxa | [-> | Hin]]; [by left | by left | by right].
Qed.

Lemma fold_fmax_above (xs : list float) (a x : float) :
  PrimFloat.ltb a x = false ∨ x ∈ xs →
  PrimFloat.ltb (fold_left fmax xs a) x = false.
Proof.
  revert a. induction xs as [| y xs IH]; intros a Hx.
  - by destruct Hx as [? | ?%elem_of_nil].
  - cbn. apply IH. rewrite elem_of_cons in Hx. unfold fmax.
    destruct (PrimFloat.ltb a y) eqn:Hya.
    + destruct Hx as [Hxa | [-> | Hin]]; [left | left | by right].
      * destruct (PrimFloat.ltb y x) eqn:Hxy; [| done].
        by rewrite (ltb_trans a y x) in Hxa.
      * apply ltb_irrefl.
    + destruct Hx as [Hxa | [-> | Hin]]; [by left | by left | by right].
Qed.

(** The running bounds are attained, unless nothing moved them. *)
Lemma fold_fmin_attained (xs : list float) (a : float) :
  fold_left fmin xs a = a ∨ fold_left fmin xs a ∈ xs.
Proof.
  revert a. induction xs as [| y xs IH]; intros a; [by left |].
  cbn. destruct (IH (fmin a y)) as [-> | Hin].
  - unfold fmin. destruct (PrimFloat.ltb y a); [right; left | by left].
  - right. by right.
Qed.

Lemma fold_fmax_attained (xs : list float) (a : float) :
  fold_left fmax xs a = a ∨ fold_left fmax xs a ∈ xs.
Proof.
  revert a. induction xs as [| y xs IH]; intros a; [by left |].
  cbn. destruct (IH (fmax a y)) as [-> | Hin].
  - unfold fmax. destruct (PrimFloat.ltb a y); [right; left | by left].
  - right. by right.
Qed.

(** Submissions without an explicit window only move the running bounds. *)
Lemma submit_implicit (fuel : nat) (subs : list Submission) (p0 : Plot) :
  range p0 = false →
  ∃ p,
    for_each (submit fuel) subs p0 = Some p ∧ range p = false ∧
    printBuf p = printBuf p0 ∧
    let pts := concat (map endpoints subs) in
    minX p = fold_left fmin (map px pts) (minX p0) ∧
    maxX p = fold_left fmax (map px pts) (maxX p0) ∧
    minY p = fold_left fmin (map py pts) (minY p0) ∧
    maxY p = fold_left fmax (map py pts) (maxY p0).
Proof.
  revert p0. induction subs as [| a subs IH]; intros p0 Hr.
  - by exists p0.
  - destruct a as [x y color character | x1 y1 x2 y2 color character].
    + set (p1 := updateXYMinMax (mkPoint x y)
                   (set_points (push_back (mkCell character color) (mkPoint x y) (points p0)) p0)).
      destruct (IH p1) as (p & Hp & Hrp & Hbuf & Hb); [done |].
      exists p. cbn [for_each submit]. unfold point. cbn [range set_points].
      rewrite Hr. cbn. fold p1. destruct Hb as (H1 & H2 & H3 & H4).
      split_and!; try done; congruence.
    + set (l := mkLine (mkPoint x1 y1) (mkPoint x2 y2)).
      set (p1 := updateXYMinMax (lb l) (updateXYMinMax (la l)
                   (set_lines (push_back (mkCell character color) l (lines p0)) p0))).
      destruct (IH p1) as (p & Hp & Hrp & Hbuf & Hb); [done |].
      exists p. cbn [for_each submit]. unfold line. cbn [range set_lines].
      rewrite Hr. cbn. fold l. fold p1. destruct Hb as (H1 & H2 & H3 & H4).
      split_and!; try done; congruence.
Qed.

Lemma render_keeps_window (fuel : nat) (p p' : Plot) :
  render fuel p = Some p' →
  topLeft p' = topLeft (render_window p) ∧
  dx p' = dx (render_window p) ∧ dy p' = dy (render_window p).
Proof.
  rewrite render_as_writes.
  destruct (render_writes fuel (render_window p)) as [ws |]; cbn; [| done].
  intros Hr. apply for_each_writes_frame in Hr as [-> _]. done.
Qed.

(** C9. With no explicit window and no data observed before, any sequence
    of [point] and [line] calls succeeds, and the window [render] then
    computes is the bounding box of all submitted endpoints: the origin is
    the componentwise running minimum, the extent the running maximum minus
    the minimum. [render] returns on a renderable plot and keeps that
    window. No endpoint lies below the minimum or above the maximum, and
    each bound is the coordinate of an endpoint unless it was never moved.
    After exactly the points (0,0) and (10,10) the origin is (0,0) and the
    extent (10,10). *)
Theorem implicit_window (fuel : nat) (subs : list Submission) (p0 : Plot) :
  range p0 = false → fresh_bounds p0 →
  ∃ p,
    for_each (submit fuel) subs p0 = Some p ∧
    let pts := concat (map endpoints subs) in
    let win := render_window p in
    topLeft win = mkPoint (box_min_x pts) (box_min_y pts) ∧
    dx win = PrimFloat.sub (box_max_x pts) (box_min_x pts) ∧
    dy win = PrimFloat.sub (box_max_y pts) (box_min_y pts) ∧
    (renderable fuel p → is_Some (render fuel p)) ∧
    (∀ p', render fuel p = Some p' →
           topLeft p' = topLeft win ∧ dx p' = dx win ∧ dy p' = dy win) ∧
    (∀ pt, pt ∈ pts →
           PrimFloat.ltb (px pt) (box_min_x pts) = false ∧
           PrimFloat.ltb (box_max_x pts) (px pt) = false ∧
           PrimFloat.ltb (py pt) (box_min_y pts) = false ∧
           PrimFloat.ltb (box_max_y pts) (py pt) = false) ∧
    (box_min_x pts = infinity ∨ box_min_x pts ∈ map px pts) ∧
    (box_max_x pts = neg_infinity ∨ box_max_x pts ∈ map px pts) ∧
    (box_min_y pts = infinity ∨ box_min_y pts ∈ map py pts) ∧
    (box_max_y pts = neg_infinity ∨ box_max_y pts ∈ map py pts) ∧
    (∀ c1 g1 c2 g2,
       subs = [AddPoint 0 0 c1 g1; AddPoint 10 10 c2 g2] →
       topLeft win = mkPoint 0 0 ∧ dx win = 10%float ∧ dy win = 10%float).
Proof.
  intros Hr (Hx0 & Hx1 & Hy0 & Hy1).
  destruct (submit_implicit fuel subs p0 Hr) as (p & Hp & Hrp & _ & Hminx & Hmaxx & Hminy & Hmaxy).
  cbn zeta in *. rewrite Hx0 in Hminx. rewrite Hx1 in Hmaxx.
  rewrite Hy0 in Hminy. rewrite Hy1 in Hmaxy.
  exists p. split; [done |].
  assert (Ew : topLeft (render_window p) =
               mkPoint (box_min_x (concat (map endpoints subs)))
                 (box_min_y (concat (map endpoints subs))) ∧
               dx (render_window p) =
               PrimFloat.sub (box_max_x (concat (map endpoints subs)))
                 (box_min_x (concat (map endpoints subs))) ∧
               dy (render_window p) =
               PrimFloat.sub (box_max_y (concat (map endpoints subs)))
                 (box_min_y (concat (map endpoints subs)))).
  { unfold render_window. rewrite Hrp. cbn [topLeft dx dy set_window].
    unfold box_min_x, box_min_y, box_max_x, box_max_y.
    by rewrite Hminx, Hmaxx, Hminy, Hmaxy. }
  destruct Ew as (Et & Edx & Edy). split_and!; try done.
  - intros Hre. destruct (render_returns fuel p Hre) as (p' & -> & _). done.
  - by apply render_keeps_window.
  - intros pt Hpt. unfold box_min_x, box_min_y, box_max_x, box_max_y. split_and!.
    + apply fold_fmin_below. right. by apply list_elem_of_fmap_2.
    + apply fold_fmax_above. right. by apply list_elem_of_fmap_2.
    + apply fold_fmin_below. right. by apply list_elem_of_fmap_2.
    + apply fold_fmax_above. right. by apply list_elem_of_fmap_2.
  - apply fold_fmin_attained.
  - apply fold_fmax_attained.
  - apply fold_fmin_attained.
  - apply fold_fmax_attained.
  - intros c1 g1 c2 g2 ->. rewrite Et, Edx, Edy. by vm_compute.
Qed.

(** ** The coordinate mapping: truncation, not floor *)

(** [SF_floor] is the floor: the greatest integer not above the value. *)
Lemma SF_floor_spec (s : bool) (m : positive) (e z : Z) :
  SF_floor (S754_finite s m e) = Some z → e < 0 →
  z * 2 ^ (- e) <= (if s then Z.neg m else Z.pos m) < (z + 1) * 2 ^ (- e).
Proof.
  cbn. destruct (Z.leb_spec 0 e); [lia |]. intros [= <-] _.
  set (v := if s then Z.neg m else Z.pos m).
  assert (0 < 2 ^ (- e)) by (apply Z.pow_pos_nonneg; lia).
  pose proof (Z.mul_div_le v (2 ^ (- e)) ltac:(done)).
  pose proof (Z.mul_succ_div_gt v (2 ^ (- e)) ltac:(done)).
  lia.
Qed.

Lemma SF_ceil_spec (s : bool) (m : positive) (e z : Z) :
  SF_ceil (S754_finite s m e) = Some z → e < 0 →
  (z - 1) * 2 ^ (- e) < (if s then Z.neg m else Z.pos m) <= z * 2 ^ (- e).
Proof.
  cbn. destruct (Z.leb_spec 0 e); [lia |]. intros [= <-] _.
  set (v := if s then Z.neg m else Z.pos m).
  assert (0 < 2 ^ (- e)) by (apply Z.pow_pos_nonneg; lia).
  pose proof (Z.mul_div_le (- v) (2 ^ (- e)) ltac:(done)).
  pose proof (Z.mul_succ_div_gt (- v) (2 ^ (- e)) ltac:(done)).
  lia.
Qed.

Lemma SF_trunc_toward_zero (f : spec_float) : SF_trunc f = SF_toward_zero f.
Proof.
  destruct f as [[] | [] | | s m e]; try done.
  unfold SF_toward_zero. cbn. destruct s; cbn; destruct (0 <=? e); f_equal; lia.
Qed.

(** C2, amended. The column and the sub-row are the two [double]
    expressions rounded toward zero (floor for a non-negative value, ceiling
    for a negative one), provided the result is an [int]; the conversion has
    no result otherwise. In particular they are the floors whenever the
    expressions are not negative. *)
Theorem map_truncates (p : Plot) (x y : float) :
  let qx := Prim2SF (x_quantity p x) in
  let qy := Prim2SF (y_quantity p y) in
  map_x p x =
    (z ← SF_toward_zero qx; if (INT_MIN <=? z) && (z <=? INT_MAX) then Some z else None) ∧
  map_y p y =
    (z ← SF_toward_zero qy; if (INT_MIN <=? z) && (z <=? INT_MAX) then Some z else None) ∧
  (SF_sign qx = false → ∀ col, map_x p x = Some col → floor_x p x = Some col) ∧
  (SF_sign qy = false → ∀ sub, map_y p y = Some sub → floor_y p y = Some sub).
Proof.
  cbn zeta. unfold map_x, map_y, to_int, floor_x, floor_y.
  rewrite !SF_trunc_toward_zero. split_and!; try done.
  - unfold SF_toward_zero. intros -> col.
    destruct (SF_floor _) as [z |]; cbn; [| done].
    destruct (_ && _); [| done]. by intros [= ->].
  - unfold SF_toward_zero. intros -> sub.
    destruct (SF_floor _) as [z |]; cbn; [| done].
    destruct (_ && _); [| done]. by intros [= ->].
Qed.

(** C2, counterexample. Window (0,0)-(4,4) on a 4 x 2 grid: for [x = -0.5]
    the expression [(x-topLeft.x)*w/dx] is [-0.5]; its floor is [-1], the
    column is [0]. Likewise [y = -0.25] gives the sub-row [0], not [-1]. *)
Lemma map_x_not_floor :
  dx window_4x2 = 4%float ∧ dy window_4x2 = 4%float ∧
  x_quantity window_4x2 (-0.5)%float = (-0.5)%float ∧
  map_x window_4x2 (-0.5)%float = Some 0 ∧
  floor_x window_4x2 (-0.5)%float = Some (-1) ∧
  y_quantity window_4x2 (-0.25)%float = (-0.25)%float ∧
  map_y window_4x2 (-0.25)%float = Some 0 ∧
  floor_y window_4x2 (-0.25)%float = Some (-1) ∧
  map_x window_4x2 (-0.5)%float ≠ floor_x window_4x2 (-0.5)%float.
Proof. by vm_compute. Qed.

(** ** The shape of the line walk *)

(** One iteration under [walk_major]: the step along the major axis is
    taken, and [walk_major] holds again. *)
Lemma line_step_major (x1 y1 x2 y2 ddx ddy sx sy i j : Z) (s : Walk) :
  is_int x1 → is_int y1 → is_int x2 → is_int y2 →
  0 <= ddx <= 2 ^ 29 → 0 <= ddy <= 2 ^ 29 →
  (sx = 1 ∨ sx = -1) → (sy = 1 ∨ sy = -1) →
  x2 = x1 + sx * ddx → y2 = y1 + sy * ddy →
  walk_inv x1 y1 ddx ddy sx sy s i j → walk_major ddx ddy i j →
  ¬ (i = ddx ∧ j = ddy) →
  ∃ i' j',
    walk_inv x1 y1 ddx ddy sx sy (line_step ddx ddy sx sy s) i' j' ∧
    walk_major ddx ddy i' j' ∧
    i <= i' <= i + 1 ∧ j <= j' <= j + 1 ∧
    (ddy <= ddx → i' = i + 1) ∧ (ddx < ddy → j' = j + 1).
Proof.
  intros Hx1 Hy1 Hx2 Hy2 Hdx Hdy Hsx Hsy Htx Hty.
  unfold walk_inv, walk_major.
  intros (Hi & Hj & Hx & Hy & He & Hlo & Hhi) [Hsh Hst] Hend.
  destruct s as [x y e]. cbn [wx wy we] in *.
  unfold line_step. cbn [wx wy we].
  rewrite int_mul_id by int_range.
  rewrite int_neg_id by int_range.
  rewrite (int_sub_id e) by int_range.
  unfold is_int, INT_MIN, INT_MAX in Hx1, Hy1, Hx2, Hy2.
  destruct (Z.gtb_spec e (- ddy)) as [Hgx | Hgx];
    destruct (Z.ltb_spec (e * 2) ddx) as [Hgy | Hgy]; cbn [wx wy we].
  - pose proof (no_x_overshoot _ _ _ _ _ Hi Hj He ltac:(lia) Hend).
    pose proof (no_y_overshoot _ _ _ _ _ Hi Hj He Hgy Hend).
    rewrite (int_add_id x), (int_add_id y), (int_add_id (e - ddy))
      by (destruct Hsx as [-> | ->], Hsy as [-> | ->]; int_range).
    exists (i + 1), (j + 1). split_and!; lia.
  - pose proof (no_x_overshoot _ _ _ _ _ Hi Hj He ltac:(lia) Hend).
    rewrite (int_add_id x) by (destruct Hsx as [-> | ->]; int_range).
    exists (i + 1), j. split_and!; lia.
  - pose proof (no_y_overshoot _ _ _ _ _ Hi Hj He Hgy Hend).
    rewrite (int_add_id y), (int_add_id e)
      by (destruct Hsy as [-> | ->]; int_range).
    exists i, (j + 1). split_and!; lia.
  - exfalso. apply Hend. lia.
Qed.

(** The cells of a run from a state of the invariant: their number, the
    rectangle they lie in, and where they stand along both axes. *)
Lemma line_cells_shape (x1 y1 x2 y2 ddx ddy sx sy : Z) (fuel : nat) :
  is_int x1 → is_int y1 → is_int x2 → is_int y2 →
  0 <= ddx <= 2 ^ 29 → 0 <= ddy <= 2 ^ 29 →
  (sx = 1 ∨ sx = -1) → (sy = 1 ∨ sy = -1) →
  x2 = x1 + sx * ddx → y2 = y1 + sy * ddy →
  ∀ (s : Walk) (i j : Z) (path : list (Z * Z)),
    walk_inv x1 y1 ddx ddy sx sy s i j → walk_major ddx ddy i j →
    line_cells fuel x2 y2 ddx ddy sx sy s = Some path →
    Z.of_nat (length path) = (if ddy <=? ddx then ddx - i else ddy - j) + 1 ∧
    ddx - i < Z.of_nat (length path) ∧ ddy - j < Z.of_nat (length path) ∧
    ∀ (k : nat) (c : Z * Z), path !! k = Some c →
      ∃ ik jk,
        fst c = x1 + sx * ik ∧ snd c = y1 + sy * jk ∧
        0 <= ik <= ddx ∧ 0 <= jk <= ddy ∧ walk_major ddx ddy ik jk ∧
        (ddy <= ddx → ik = i + Z.of_nat k) ∧
        (ddx < ddy → jk = j + Z.of_nat k).
Proof.
  intros Hx1 Hy1 Hx2 Hy2 Hdx Hdy Hsx Hsy Htx Hty.
  induction fuel as [| fuel IH]; intros s i j path Hinv Hmaj; [done |].
  cbn [line_cells].
  assert (Hhere : ∃ ik jk,
             wx s = x1 + sx * ik ∧ wy s = y1 + sy * jk ∧
             0 <= ik <= ddx ∧ 0 <= jk <= ddy ∧ walk_major ddx ddy ik jk ∧
             (ddy <= ddx → ik = i + Z.of_nat 0) ∧
             (ddx < ddy → jk = j + Z.of_nat 0)).
  { unfold walk_inv in Hinv. destruct Hinv as (Hi & Hj & Hx & Hy & _).
    exists i, j. split_and!; try done; lia. }
  destruct ((wx s =? x2) && (wy s =? y2)) eqn:Hend.
  - intros [= <-].
    assert (Hij : i = ddx ∧ j = ddy).
    { by apply (walk_inv_at_end x1 y1 x2 y2 ddx ddy sx sy Hsx Hsy Htx Hty s i j Hinv). }
    split_and!; [cbn; destruct (ddy <=? ddx); lia | cbn; lia | cbn; lia |].
    intros [| k] c; [| done]. intros [= <-]. exact Hhere.
  - assert (Hne : ¬ (i = ddx ∧ j = ddy)).
    { intros E.
      apply (walk_inv_at_end x1 y1 x2 y2 ddx ddy sx sy Hsx Hsy Htx Hty s i j Hinv) in E.
      congruence. }
    destruct (line_step_major x1 y1 x2 y2 ddx ddy sx sy i j s)
      as (i' & j' & Hinv' & Hmaj' & Hi' & Hj' & Hsh & Hst); try done.
    destruct (line_cells fuel x2 y2 ddx ddy sx sy (line_step ddx ddy sx sy s))
      as [rest |] eqn:Hrest; [| done].
    cbn. intros [= <-].
    destruct (IH _ i' j' rest Hinv' Hmaj' Hrest) as (Hlen & Hlx & Hly & Hcells).
    split_and!.
    + cbn [length]. destruct (Z.leb_spec ddy ddx); lia.
    + cbn [length]. lia.
    + cbn [length]. lia.
    + intros [| k] c.
      * intros [= <-]. exact Hhere.
      * cbn. intros Hc.
        destruct (Hcells k c Hc) as (ik & jk & Hcx & Hcy & Hik & Hjk & Hm & Hki & Hkj).
        exists ik, jk. do 5 (split; [done |]). split.
        -- intros Hle. specialize (Hki Hle). specialize (Hsh Hle). lia.
        -- intros Hlt. specialize (Hkj Hlt). specialize (Hst Hlt). lia.
Qed.

Lemma line_path_shape (x1 y1 x2 y2 : Z) (fuel : nat) (path : list (Z * Z)) :
  span_ok x1 x2 → span_ok y1 y2 →
  line_path fuel x1 y1 x2 y2 = Some path →
  let adx := Z.abs (x2 - x1) in
  let ady := Z.abs (y2 - y1) in
  Z.of_nat (length path) = Z.max adx ady + 1 ∧
  ∀ (k : nat) (c : Z * Z), path !! k = Some c →
    ∃ ik jk,
      fst c = x1 + Z.sgn (x2 - x1) * ik ∧ snd c = y1 + Z.sgn (y2 - y1) * jk ∧
      0 <= ik <= adx ∧ 0 <= jk <= ady ∧ walk_major adx ady ik jk ∧
      (ady <= adx → ik = Z.of_nat k) ∧ (adx < ady → jk = Z.of_nat k).
Proof.
  intros (Hx1 & Hx2 & Hdx) (Hy1 & Hy2 & Hdy) Hpath. cbn zeta.
  assert (Edx : line_dx x1 x2 = Z.abs (x2 - x1)).
  { unfold line_dx. rewrite int_sub_id by int_range. apply int_abs_id. int_range. }
  assert (Edy : line_dy y1 y2 = Z.abs (y2 - y1)).
  { unfold line_dy. rewrite int_sub_id by int_range. apply int_abs_id. int_range. }
  unfold line_path in Hpath.
  destruct (line_cells_shape x1 y1 x2 y2 (line_dx x1 x2) (line_dy y1 y2)
              (line_sx x1 x2) (line_sy y1 y2) fuel) with
    (s := line_start x1 y1 x2 y2) (i := 0) (j := 0) (path := path)
    as (Hlen & Hlx & Hly & Hcells); try done.
  - rewrite Edx. lia.
  - rewrite Edy. lia.
  - unfold line_sx. destruct (x1 <? x2); auto.
  - unfold line_sy. destruct (y1 <? y2); auto.
  - rewrite Edx. unfold line_sx. destruct (Z.ltb_spec x1 x2); lia.
  - rewrite Edy. unfold line_sy. destruct (Z.ltb_spec y1 y2); lia.
  - unfold walk_inv, line_start. cbn [wx wy we]. rewrite Edx, Edy.
    rewrite int_sub_id by int_range. lia.
  - unfold walk_major. lia.
  - rewrite Edx, Edy in *.
    split; [destruct (Z.leb_spec (Z.abs (y2 - y1)) (Z.abs (x2 - x1))); lia |].
    intros k c Hc.
    destruct (Hcells k c Hc) as (ik & jk & Hcx & Hcy & Hik & Hjk & Hm & Hki & Hkj).
    exists ik, jk. split_and!; try done; try lia; try tauto.
    + rewrite Hcx. unfold line_sx.
      destruct (Z.sgn_spec (x2 - x1)) as [[? ->] | [[? ->] | [? ->]]];
        destruct (Z.ltb_spec x1 x2); lia.
    + rewrite Hcy. unfold line_sy.
      destruct (Z.sgn_spec (y2 - y1)) as [[? ->] | [[? ->] | [? ->]]];
        destruct (Z.ltb_spec y1 y2); lia.
Qed.

(** X1. Every cell the walk visits lies in the rectangle spanned by its two
    endpoints. Hence a line whose mapped endpoints are both inside the grid
    is drawn without clipping: no request of the walk is out of bounds. *)
Theorem line_walk_in_box (x1 y1 x2 y2 : Z) (fuel : nat) (path : list (Z * Z)) :
  span_ok x1 x2 → span_ok y1 y2 →
  line_path fuel x1 y1 x2 y2 = Some path →
  Forall (in_box x1 y1 x2 y2) path ∧
  ∀ p : Plot,
    out_of_bounds p x1 y1 = false → out_of_bounds p x2 y2 = false →
    Forall (λ c, out_of_bounds p (fst c) (snd c) = false) path.
Proof.
  intros Hx Hy Hpath.
  destruct (line_path_shape x1 y1 x2 y2 fuel path Hx Hy Hpath) as [_ Hcells].
  assert (Hbox : Forall (in_box x1 y1 x2 y2) path).
  { apply Forall_lookup. intros k c Hc.
    destruct (Hcells k c Hc) as (ik & jk & Hcx & Hcy & Hik & Hjk & _).
    unfold in_box. rewrite Hcx, Hcy.
    destruct (Z.sgn_spec (x2 - x1)) as [[? ->] | [[? ->] | [? ->]]];
      destruct (Z.sgn_spec (y2 - y1)) as [[? ->] | [[? ->] | [? ->]]]; lia. }
  split; [done |]. intros p H1 H2.
  eapply Forall_impl; [exact Hbox |]. intros [cx cy] [Hcx Hcy]. cbn [fst snd] in *.
  unfold out_of_bounds in *.
  rewrite !orb_false_iff, !Z.ltb_ge in *. rewrite !Z.geb_leb, !Z.leb_gt in *.
  lia.
Qed.

(** X2. The walk makes one step along its major axis in every iteration: it
    visits exactly [max(|dx|, |dy|) + 1] cells, and its [k]-th cell stands
    [k] columns from the start when [|dy| <= |dx|], [k] sub-rows from the
    start when [|dx| < |dy|]. *)
Theorem line_walk_major_axis (x1 y1 x2 y2 : Z) (fuel : nat) (path : list (Z * Z)) :
  span_ok x1 x2 → span_ok y1 y2 →
  line_path fuel x1 y1 x2 y2 = Some path →
  Z.of_nat (length path) = Z.max (Z.abs (x2 - x1)) (Z.abs (y2 - y1)) + 1 ∧
  (Z.abs (y2 - y1) <= Z.abs (x2 - x1) →
   ∀ (k : nat) (c : Z * Z), path !! k = Some c →
     fst c = x1 + Z.sgn (x2 - x1) * Z.of_nat k) ∧
  (Z.abs (x2 - x1) < Z.abs (y2 - y1) →
   ∀ (k : nat) (c : Z * Z), path !! k = Some c →
     snd c = y1 + Z.sgn (y2 - y1) * Z.of_nat k).
Proof.
  intros Hx Hy Hpath.
  destruct (line_path_shape x1 y1 x2 y2 fuel path Hx Hy Hpath) as [Hlen Hcells].
  split_and!; [done | |].
  - intros Hle k c Hc.
    destruct (Hcells k c Hc) as (ik & jk & Hcx & _ & _ & _ & _ & Hki & _).
    by rewrite Hcx, Hki.
  - intros Hlt k c Hc.
    destruct (Hcells k c Hc) as (ik & jk & _ & Hcy & _ & _ & _ & _ & Hkj).
    by rewrite Hcy, Hkj.
Qed.

(** X3. The minor coordinate of the walk. For [|dy| <= |dx|] the cell in the
    [k]-th column stands [j] sub-rows from the start, where [j] is the
    integer nearest to [k * |dy| / |dx|], a tie going to the smaller one.
    For [|dx| < |dy|] the cell in the [k]-th sub-row stands [i] columns
    from the start, where [i] is [k * |dx| / |dy|] rounded up: on a steep
    line the column is never behind the ideal line and up to one cell
    ahead of it. *)
Theorem line_walk_rounding (x1 y1 x2 y2 : Z) (fuel : nat) (path : list (Z * Z)) :
  span_ok x1 x2 → span_ok y1 y2 →
  line_path fuel x1 y1 x2 y2 = Some path →
  let adx := Z.abs (x2 - x1) in
  let ady := Z.abs (y2 - y1) in
  (ady <= adx → 0 < adx →
   ∀ (k : nat) (c : Z * Z), path !! k = Some c →
     ∃ j, snd c = y1 + Z.sgn (y2 - y1) * j ∧ 0 <= j <= ady ∧
          - adx <= 2 * (adx * j - ady * Z.of_nat k) < adx ∧
          j = (2 * Z.of_nat k * ady + adx - 1) / (2 * adx)) ∧
  (adx < ady →
   ∀ (k : nat) (c : Z * Z), path !! k = Some c →
     ∃ i, fst c = x1 + Z.sgn (x2 - x1) * i ∧ 0 <= i <= adx ∧
          0 <= ady * i - adx * Z.of_nat k < ady ∧
          i = (Z.of_nat k * adx + ady - 1) / ady).
Proof.
  intros Hx Hy Hpath. cbn zeta.
  destruct (line_path_shape x1 y1 x2 y2 fuel path Hx Hy Hpath) as [Hlen Hcells].
  split.
  - intros Hle Hpos k c Hc.
    destruct (Hcells k c Hc) as (ik & jk & _ & Hcy & _ & Hjk & [Hm _] & Hki & _).
    specialize (Hm Hle Hpos). specialize (Hki Hle). subst ik.
    exists jk. split; [done |]. split; [done |]. split; [done |].
    apply Z.div_unique_pos with
      (r := 2 * Z.of_nat k * Z.abs (y2 - y1) + Z.abs (x2 - x1) - 1
            - 2 * Z.abs (x2 - x1) * jk);
      lia.
  - intros Hlt k c Hc.
    destruct (Hcells k c Hc) as (ik & jk & Hcx & _ & Hik & _ & [_ Hm] & _ & Hkj).
    specialize (Hm Hlt). specialize (Hkj Hlt). subst jk.
    exists ik. split; [done |]. split; [done |]. split; [done |].
    apply Z.div_unique_pos with
      (r := Z.of_nat k * Z.abs (x2 - x1) + Z.abs (y2 - y1) - 1 - Z.abs (y2 - y1) * ik);
      lia.
Qed.

(** ** One write, twice *)

Lemma wrap8_shift_high (a k : Z) :
  wrap8 (Z.lor (Z.land (Z.shiftl a 4) 0xf0) k) = wrap8 (Z.lor (Z.shiftl a 4) k).
Proof.
  apply wrap8_congr. rewrite <- !land_255, !Z.land_lor_distr_l. f_equal.
  rewrite <- Z.land_assoc. change (Z.land 0xf0 255) with 0xf0.
  apply Z.bits_inj'. intros n Hn. rewrite !Z.land_spec, Z.shiftl_spec by done.
  destruct (Z.ltb_spec n 4).
  - rewrite Z.testbit_neg_r by lia. done.
  - f_equal. change 0xf0 with (Z.shiftl (Z.ones 4) 4). change 255 with (Z.ones 8).
    rewrite Z.shiftl_spec by done.
    destruct (Z.ltb_spec n 8).
    + rewrite !Z.ones_spec_low by lia. done.
    + rewrite !Z.ones_spec_high by lia. done.
Qed.

Lemma set_lower_twice (a k : Z) :
  wrap8 (Z.lor (Z.land (wrap8 (Z.lor (Z.land a 0xf0) k)) 0xf0) k) =
  wrap8 (Z.lor (Z.land a 0xf0) k).
Proof.
  rewrite wrap8_lor_land. f_equal.
  rewrite Z.land_lor_distr_l, <- Z.land_assoc, Z.land_diag, <- Z.lor_assoc.
  by rewrite lor_land_absorb.
Qed.

Lemma set_lower_after_shift (a k : Z) :
  wrap8 (Z.lor (Z.land (wrap8 (Z.lor (Z.shiftl a 4) k)) 0xf0) k) =
  wrap8 (Z.lor (Z.shiftl a 4) k).
Proof.
  rewrite wrap8_lor_land.
  rewrite Z.land_lor_distr_l, <- Z.lor_assoc, lor_land_absorb.
  apply wrap8_shift_high.
Qed.

(** The blending rule is idempotent: blending the same request into the
    cell it has produced changes nothing. *)
Lemma blend_idem (bg : Z) (inv : bool) (y color : Z) (character : ascii) (c : Cell) :
  blend bg inv y color character (blend bg inv y color character c) =
  blend bg inv y color character c.
Proof.
  unfold blend. destruct (Ascii.eqb_spec character BLOCK) as [Hb | Hb].
  - rewrite !blend_block_effect. apply cell_effect_idem.
  - unfold blend_glyph. cbn [ch co].
    destruct (Ascii.eqb_spec character EMPTY) as [He | He].
    + f_equal.
      destruct (Ascii.eqb_spec (ch c) EMPTY); [apply set_lower_twice |].
      destruct (Ascii.eqb_spec (ch c) BLOCK).
      { destruct (negb _); [apply set_lower_after_shift | apply set_lower_twice]. }
      destruct (Ascii.eqb_spec (ch c) character); [congruence |].
      cbn. apply set_lower_after_shift.
    + destruct (Ascii.eqb_spec character BLOCK); [done |].
      rewrite Ascii.eqb_refl. done.
Qed.

(** X4. [setCell] is idempotent: a write request repeated immediately leaves
    the plot as the first request left it. *)
Theorem setCell_twice (x y color : Z) (character : ascii) (p p1 : Plot) :
  setCell x y color character p = Some p1 →
  setCell x y color character p1 = Some p1.
Proof.
  unfold setCell. destruct (out_of_bounds p x y) eqn:Hb.
  - intros [= <-]. by rewrite Hb.
  - destruct (printBuf p) as [buf |] eqn:Hbuf; cbn; [| done].
    destruct (cell_index p x y <? 0) eqn:Hi; [done |].
    destruct (buf !! Z.to_nat (cell_index p x y)) as [c |] eqn:Hc; [| done].
    intros [= <-].
    change (out_of_bounds (set_printBuf _ p) x y) with (out_of_bounds p x y).
    rewrite Hb. cbn [printBuf set_printBuf mbind option_bind].
    change (cell_index (set_printBuf _ p) x y) with (cell_index p x y).
    rewrite Hi, list_lookup_alter_eq, Hc. cbn [fmap option_fmap option_map].
    rewrite set_printBuf_twice. do 3 f_equal.
    cbn [background invertedY set_printBuf].
    rewrite list_alter_alter_eq. apply list_alter_ext; [| done].
    intros c' _. cbn. apply blend_idem.
Qed.

(** ** The remaining cases of the blending rule *)

(** X5. An explicit character written over a cell that is not a block cell,
    with a palette colour at in-bounds coordinates. On an empty cell only
    the lower nibble changes, to [color]. On a cell holding another glyph
    the attribute byte is shifted left by a nibble: the colour of the old
    glyph becomes the upper nibble and [color] the lower one. On a cell
    that already holds the same glyph nothing changes. *)
Theorem setCell_glyph_over_glyph (p : Plot) (x y color : Z) (character : ascii) :
  wf p → is_color color → character ≠ BLOCK →
  0 <= x < w p → 0 <= y < 2 * h p →
  ∃ buf c p',
    printBuf p = Some buf ∧ buf !! Z.to_nat (x + y / 2 * w p) = Some c ∧
    setCell x y color character p = Some p' ∧
    let c' := blend_glyph (background p) color character c in
    printBuf p' = Some (<[Z.to_nat (x + y / 2 * w p) := c']> buf) ∧
    (ch c = EMPTY →
       ch c' = character ∧ lower (co c') = color ∧ upper (co c') = upper (co c)) ∧
    (ch c ≠ EMPTY → ch c ≠ BLOCK → ch c ≠ character →
       ch c' = character ∧ co c' = wrap8 (Z.lor (Z.shiftl (co c) 4) color) ∧
       upper (co c') = lower (co c) ∧ lower (co c') = color) ∧
    (ch c ≠ EMPTY → ch c ≠ BLOCK → ch c = character → c' = c ∧ p' = p).
Proof.
  intros Hwf Hc Hne Hx Hy.
  pose proof (in_bounds_inside p x y Hwf Hx Hy) as Hb.
  destruct (setCell_inside p x y color character Hwf Hb) as (buf & c & Hbuf & Hlk & Hset).
  exists buf, c. eexists. split_and!; [done | done | exact Hset |].
  cbn zeta. cbn [printBuf set_printBuf]. rewrite blend_at_glyph by done.
  split; [by rewrite (alter_insert _ _ _ c) |].
  split_and!.
  - unfold blend_glyph. cbn [ch co]. intros He. rewrite He. change (Ascii.eqb EMPTY EMPTY) with true. cbv iota.
    rewrite lower_wrap8, upper_wrap8.
    split_and!; [done | by apply lower_set_lower | by apply upper_set_lower].
  - unfold blend_glyph. cbn [ch co]. intros He Hk Hd.
    destruct (Ascii.eqb_spec (ch c) EMPTY); [done |].
    destruct (Ascii.eqb_spec (ch c) BLOCK); [done |].
    destruct (Ascii.eqb_spec (ch c) character); [done |]. cbn.
    rewrite lower_wrap8, upper_wrap8.
    split_and!; [done | done | by apply upper_shift | by apply lower_shift].
  - intros He Hk Hs.
    assert (Ec : blend_glyph (background p) color character c = c).
    { unfold blend_glyph.
      destruct (Ascii.eqb_spec (ch c) EMPTY); [done |].
      destruct (Ascii.eqb_spec (ch c) BLOCK); [done |].
      destruct (Ascii.eqb_spec (ch c) character); [| done]. cbn.
      destruct c; cbn in *; congruence. }
    split; [exact Ec |].
    rewrite (alter_insert _ _ _ c Hlk), Ec.
    rewrite list_insert_id by done. rewrite <- Hbuf. apply set_printBuf_same.
Qed.

(** ** Where a block write shows up in the printed text *)

Lemma half_mirror (hh y : Z) : (2 * hh - 1 - y) / 2 = hh - 1 - y / 2.
Proof.
  assert (E : 2 * hh - 1 - y = (hh - 1 - y / 2) * 2 + (1 - y mod 2)).
  { pose proof (Z.div_mod y 2). lia. }
  rewrite E. pose proof (Z.mod_pos_bound y 2).
  rewrite Z.div_add_l by lia. rewrite (Z.div_small (1 - y mod 2)) by lia. lia.
Qed.

(** X6. A block write at the in-bounds sub-row [y] of column [x] lands in the
    cell that [print] writes as the [x]-th cell of its [(pos / 2)]-th row,
    where [pos = y], or [pos = 2*h - 1 - y] under Y inversion; the colour
    goes to the lower nibble, which [print] selects as the foreground,
    when [pos] is even, and to the upper nibble, the background, when
    [pos] is odd. With the upper half block as the glyph, sub-row [y] is
    thus the half-line [pos] of the printed picture, and Y inversion
    mirrors the picture half-line by half-line. A glyph other than the
    empty one stays in the cell. *)
Theorem block_write_position (p : Plot) (x y color : Z) :
  wf p → is_color color → 0 <= x < w p → 0 <= y < 2 * h p →
  let pos := if invertedY p then 2 * h p - 1 - y else y in
  ∃ buf buf' c p',
    printBuf p = Some buf ∧ buf !! Z.to_nat (x + y / 2 * w p) = Some c ∧
    setCell x y color BLOCK p = Some p' ∧ printBuf p' = Some buf' ∧
    let c' := blend_block (invertedY p) y color c in
    row_order p' !! Z.to_nat (pos / 2) = Some (y / 2) ∧
    grid_row p' buf' (y / 2) !! Z.to_nat x = Some c' ∧
    (if Z.even pos
     then lower (co c') = color ∧ upper (co c') = upper (co c)
     else upper (co c') = color ∧ lower (co c') = lower (co c)) ∧
    (ch c ≠ EMPTY → ch c' = ch c).
Proof.
  intros Hwf Hc Hx Hy. cbn zeta.
  pose proof (in_bounds_inside p x y Hwf Hx Hy) as Hb.
  destruct (setCell_inside p x y color BLOCK Hwf Hb) as (buf & c & Hbuf & Hlk & Hset).
  destruct (cell_index_inside p x y Hwf Hb) as [_ Hidx].
  destruct Hwf as (Hw & Hh & Hh2 & Hwh & b & Hb' & Hlen).
  assert (b = buf) by congruence. subst b.
  assert (Hq : 0 <= y / 2 < h p).
  { split; [apply Z.div_pos; lia | apply Z.div_lt_upper_bound; lia]. }
  eexists buf, _, c, _.
  split; [done |]. split; [done |]. split; [exact Hset |]. split; [done |].
  cbn [printBuf set_printBuf]. rewrite blend_at_BLOCK.
  split; [| split; [| split]].
  - unfold row_order. cbn [invertedY h set_printBuf].
    destruct (invertedY p).
    + rewrite half_mirror. rewrite reverse_lookup by (rewrite length_seqZ; lia).
      rewrite length_seqZ. apply lookup_seqZ. lia.
    + apply lookup_seqZ. lia.
  - unfold grid_row. cbn [w set_printBuf].
    rewrite lookup_take, decide_True by lia. rewrite lookup_drop.
    replace (Z.to_nat (y / 2 * w p) + Z.to_nat x)%nat
      with (Z.to_nat (x + y / 2 * w p)).
    2:{ assert (0 <= y / 2 * w p) by (apply Z.mul_nonneg_nonneg; lia). lia. }
    by rewrite list_lookup_alter_eq, Hlk.
  - destruct (blend_block_co (invertedY p) y color c) as [_ Hco];
      [unfold INT_MAX in *; lia | done |].
    destruct (invertedY p).
    + rewrite !Z.even_sub, Z.even_mul. cbn [Z.even orb].
      rewrite Z.odd_add in Hco. cbn [Z.odd] in Hco.
      rewrite <- Z.negb_odd. destruct (Z.odd y); cbn in *; tauto.
    + rewrite <- Z.negb_odd. destruct (Z.odd y); cbn in *; tauto.
  - intros He. unfold blend_block. cbn [ch].
    by destruct (Ascii.eqb_spec (ch c) EMPTY).
Qed.

(** ** Clipping, request by request *)

Lemma filter_in_grid_frame (p p1 : Plot) (ws : list CellWrite) :
  p1 = set_printBuf (printBuf p1) p →
  filter (λ a, out_of_bounds p1 (cw_x a) (cw_y a) = false) ws =
  filter (λ a, out_of_bounds p (cw_x a) (cw_y a) = false) ws.
Proof.
  intros E. apply list_filter_iff. intros a. by rewrite E.
Qed.

Lemma for_each_writes_clip (ws : list CellWrite) (p : Plot) :
  for_each apply_write ws p =
  for_each apply_write
    (filter (λ a, out_of_bounds p (cw_x a) (cw_y a) = false) ws) p.
Proof.
  revert p. induction ws as [| a ws IH]; intros p; [done |].
  rewrite filter_cons. destruct (decide _) as [Hin | Hout].
  - cbn [for_each]. destruct (apply_write a p) as [p1 |] eqn:Ha; [| done].
    cbn [mbind option_bind]. rewrite IH.
    apply setCell_frame in Ha as [E _]. by rewrite (filter_in_grid_frame p p1).
  - apply not_false_is_true in Hout.
    cbn [for_each]. rewrite (setCell_outside p _ _ _ _ Hout : apply_write a p = Some p).
    cbn [mbind option_bind]. apply IH.
Qed.

(** X7. [render] draws the part of the dataset that lies inside the grid and
    nothing else: the requests with a cell outside the [w] x [2h] area can
    be dropped from the run without changing the outcome, whether [render]
    returns or not. A line that crosses the border is drawn as its cells
    inside the grid. *)
Theorem render_clips (fuel : nat) (p : Plot) :
  render fuel p =
    (ws ← render_writes fuel (render_window p);
     for_each apply_write
       (filter (λ a, out_of_bounds p (cw_x a) (cw_y a) = false) ws)
       (render_window p)) ∧
  ∀ (l : Line) (color : Z) (character : ascii),
    printLine fuel l color character p =
      (ws ← line_writes fuel p color character l;
       for_each apply_write
         (filter (λ a, out_of_bounds p (cw_x a) (cw_y a) = false) ws) p).
Proof.
  split.
  - rewrite render_as_writes.
    destruct (render_writes fuel (render_window p)) as [ws |]; [| done].
    cbn [mbind option_bind]. rewrite for_each_writes_clip.
    f_equal. apply list_filter_iff. intros a.
    unfold render_window. by destruct (range p).
  - intros l color character. rewrite printLine_writes.
    destruct (line_writes fuel p color character l) as [ws |]; [| done].
    cbn [mbind option_bind]. apply for_each_writes_clip.
Qed.

(** ** What [render] leaves alone *)

(** X8. [render] only rewrites cells of the grid (and, in implicit mode, the
    window): the size, the background, the Y inversion, the observed
    bounds and both maps of the dataset are as before, and the grid keeps
    its length. In explicit mode the window is as before too. *)
Theorem render_frame (fuel : nat) (p p' : Plot) :
  render fuel p = Some p' →
  w p' = w p ∧ h p' = h p ∧ background p' = background p ∧
  invertedY p' = invertedY p ∧ range p' = range p ∧
  minX p' = minX p ∧ maxX p' = maxX p ∧ minY p' = minY p ∧ maxY p' = maxY p ∧
  points p' = points p ∧ lines p' = lines p ∧
  length <$> printBuf p' = length <$> printBuf p ∧
  (range p = true → topLeft p' = topLeft p ∧ dx p' = dx p ∧ dy p' = dy p).
Proof.
  rewrite render_as_writes.
  destruct (render_writes fuel (render_window p)) as [ws |]; cbn; [| done].
  intros Hrun. apply for_each_writes_frame in Hrun as [E L]. rewrite E.
  unfold render_window in *. destruct (range p) eqn:Hr; cbn; split_and!; done.
Qed.

(** ** A plot without a grid *)

Lemma for_each_writes_null (ws : list CellWrite) (p : Plot) :
  printBuf p = None →
  (for_each apply_write ws p = Some p ∧
   Forall (λ a, out_of_bounds p (cw_x a) (cw_y a) = true) ws) ∨
  (for_each apply_write ws p = None ∧
   Exists (λ a, out_of_bounds p (cw_x a) (cw_y a) = false) ws).
Proof.
  intros Hnull. induction ws as [| a ws IH].
  - left. by split.
  - cbn [for_each]. destruct (out_of_bounds p (cw_x a) (cw_y a)) eqn:Hb.
    + assert (Ha : apply_write a p = Some p) by by apply setCell_outside.
      rewrite Ha. cbn [mbind option_bind].
      destruct IH as [[Hrun Hall] | [Hrun Hex]].
      * left. split; [done |]. by constructor.
      * right. split; [done |]. by apply Exists_cons_tl.
    + assert (Ha : apply_write a p = None).
      { unfold apply_write, setCell. by rewrite Hb, Hnull. }
      rewrite Ha. right. split; [done |]. by apply Exists_cons_hd.
Qed.

(** X9. On a plot whose grid was never allocated (a default-constructed [Plot]
    before [setSize]), [render] returns exactly when every cell it
    addresses lies outside the [w] x [h] area, and then changes nothing but
    the window; a single request inside the area reads through the null
    pointer and [render] has no defined result. *)
Theorem render_without_grid (fuel : nat) (p : Plot) (ws : list CellWrite) :
  printBuf p = None →
  render_writes fuel (render_window p) = Some ws →
  (render fuel p = Some (render_window p) ∧
   Forall (λ a, out_of_bounds p (cw_x a) (cw_y a) = true) ws) ∨
  (render fuel p = None ∧
   Exists (λ a, out_of_bounds p (cw_x a) (cw_y a) = false) ws).
Proof.
  intros Hnull Hws. rewrite render_as_writes, Hws. cbn.
  assert (Hnull' : printBuf (render_window p) = None).
  { unfold render_window. by destruct (range p). }
  assert (Eb : ∀ x y, out_of_bounds (render_window p) x y = out_of_bounds p x y).
  { intros x y. unfold render_window. by destruct (range p). }
  destruct (for_each_writes_null ws (render_window p) Hnull')
    as [[Hrun Hall] | [Hrun Hex]]; [left | right]; (split; [done |]).
  - eapply Forall_impl; [exact Hall |]. intros a. cbn beta. by rewrite Eb.
  - eapply Exists_impl; [exact Hex |]. intros a. cbn beta. by rewrite Eb.
Qed.

(** ** Erasing *)

Lemma clearPlot_wf_blank (p : Plot) :
  wf p → clearPlot p = set_printBuf (Some (blank_grid p)) p.
Proof.
  intros (Hw & Hh & Hh2 & Hwh & buf & Hbuf & Hlen). unfold clearPlot, blank_grid.
  rewrite Hbuf.
  assert (0 <= w p * h p) by (apply Z.mul_nonneg_nonneg; lia).
  rewrite int_mul_id by (unfold is_int, INT_MIN, INT_MAX in *; lia).
  rewrite drop_ge by lia. by rewrite app_nil_r.
Qed.

(** X10. On an allocated grid [clearPlot] returns every cell to the blank
    background cell, whatever was drawn: after any run of write requests,
    and after [render], the cleared plot is the one cleared before them.
    Clearing twice is clearing once. [setDrawRange] and [clearData], which
    call it, leave the same blank grid. *)
Theorem clearPlot_erases (p : Plot) :
  wf p →
  printBuf (clearPlot p) = Some (blank_grid p) ∧
  clearPlot (clearPlot p) = clearPlot p ∧
  (∀ ws p', for_each apply_write ws p = Some p' → clearPlot p' = clearPlot p) ∧
  (∀ fuel p', render fuel p = Some p' →
     printBuf (clearPlot p') = Some (blank_grid p)) ∧
  (∀ x1 y1 x2 y2, printBuf (setDrawRange x1 y1 x2 y2 p) = Some (blank_grid p)) ∧
  printBuf (clearData p) = Some (blank_grid p).
Proof.
  intros Hwf. pose proof (clearPlot_wf_blank p Hwf) as E.
  assert (Hw : ∀ ws p', for_each apply_write ws p = Some p' →
                        wf p' ∧ clearPlot p' = clearPlot p).
  { intros ws p' Hrun.
    destruct (for_each_writes_wf ws p Hwf) as (p'' & Hrun' & Hwf').
    assert (p'' = p') by congruence. subst p''.
    split; [done |].
    rewrite (clearPlot_wf_blank p' Hwf'), E.
    apply for_each_writes_frame in Hrun as [Ep _]. rewrite Ep. done. }
  split_and!.
  - by rewrite E.
  - rewrite E at 1. unfold clearPlot at 1. cbn.
    destruct Hwf as (Hw' & Hh & Hh2 & Hwh & _).
    assert (0 <= w p * h p) by (apply Z.mul_nonneg_nonneg; lia).
    rewrite int_mul_id by (unfold is_int, INT_MIN, INT_MAX in *; lia).
    unfold blank_grid. rewrite drop_replicate, Nat.sub_diag. cbn.
    by rewrite app_nil_r, E.
  - intros ws p' Hrun. by apply (Hw ws).
  - intros fuel p' Hrun. rewrite render_as_writes in Hrun.
    destruct (render_writes fuel (render_window p)) as [ws |]; cbn in Hrun; [| done].
    assert (Hwf0 : wf (render_window p)) by by apply render_window_wf.
    destruct (for_each_writes_wf ws _ Hwf0) as (p'' & Hrun' & Hwf').
    assert (p'' = p') by congruence. subst p''.
    rewrite (clearPlot_wf_blank p' Hwf'). cbn.
    apply for_each_writes_frame in Hrun as [Ep _]. rewrite Ep.
    unfold blank_grid, render_window. by destruct (range p).
  - intros x1 y1 x2 y2. unfold setDrawRange.
    rewrite clearPlot_wf_blank; [done |]. exact Hwf.
  - unfold clearData. by rewrite E.
Qed.

(** ** The grid invariant *)

Lemma point_wf (x y : float) (color : Z) (character : ascii) (p p' : Plot) :
  wf p → point x y color character p = Some p' → wf p'.
Proof.
  intros Hwf. unfold point.
  set (p1 := set_points _ p). assert (Hwf1 : wf p1) by exact Hwf.
  destruct (range p1); [| by intros [= <-]].
  rewrite printPoint_writes.
  destruct (point_writes p1 color character (mkPoint x y)) as [ws |]; cbn; [| done].
  intros Hrun. destruct (for_each_writes_wf ws p1 Hwf1) as (p'' & Hrun' & Hwf').
  congruence.
Qed.

Lemma line_wf (fuel : nat) (x1 y1 x2 y2 : float) (color : Z) (character : ascii)
    (p p' : Plot) :
  wf p → line fuel x1 y1 x2 y2 color character p = Some p' → wf p'.
Proof.
  intros Hwf. unfold line.
  set (p1 := set_lines _ p). assert (Hwf1 : wf p1) by exact Hwf.
  destruct (range p1); [| by intros [= <-]].
  rewrite printLine_writes.
  destruct (line_writes fuel p1 color character _) as [ws |]; cbn; [| done].
  intros Hrun. destruct (for_each_writes_wf ws p1 Hwf1) as (p'' & Hrun' & Hwf').
  congruence.
Qed.

(** X11. Once [setSize] has allocated the grid, every operation keeps it
    allocated with exactly [w * h] cells: the setters, [clearData],
    [setDrawRange], and [point], [line] and [render] whenever they return. *)
Theorem grid_invariant (p : Plot) :
  wf p →
  (∀ c, wf (setBackgroundColor c p)) ∧
  (∀ a, wf (invertYAxis a p)) ∧
  (∀ x1 y1 x2 y2, wf (setDrawRange x1 y1 x2 y2 p)) ∧
  wf (clearData p) ∧
  (∀ x y color character p',
     point x y color character p = Some p' → wf p') ∧
  (∀ fuel x1 y1 x2 y2 color character p',
     line fuel x1 y1 x2 y2 color character p = Some p' → wf p') ∧
  (∀ fuel p', render fuel p = Some p' → wf p').
Proof.
  intros Hwf.
  assert (Hclear : ∀ q, wf q → wf (clearPlot q)).
  { intros q Hq. rewrite (clearPlot_wf_blank q Hq).
    destruct Hq as (Hw & Hh & Hh2 & Hwh & buf & Hbuf & Hlen).
    unfold wf. cbn. split_and!; try lia. eexists. split; [done |].
    unfold blank_grid. rewrite length_replicate.
    assert (0 <= w q * h q) by (apply Z.mul_nonneg_nonneg; lia). lia. }
  split_and!.
  - intros c. exact Hwf.
  - intros a. exact Hwf.
  - intros x1 y1 x2 y2. unfold setDrawRange. apply Hclear. exact Hwf.
  - unfold clearData. apply (Hclear p) in Hwf. exact Hwf.
  - intros x y color character p'. by apply point_wf.
  - intros fuel x1 y1 x2 y2 color character p'. by apply line_wf.
  - intros fuel p' Hrun. rewrite render_as_writes in Hrun.
    destruct (render_writes fuel (render_window p)) as [ws |]; cbn in Hrun; [| done].
    assert (Hwf0 : wf (render_window p)) by by apply render_window_wf.
    destruct (for_each_writes_wf ws _ Hwf0) as (p'' & Hrun' & Hwf').
    congruence.
Qed.

(** ** Allocation *)

(** X12. [setSize cols rows], and the constructor [Plot(cols, rows)]: with a
    negative number of cells the allocation throws; with dimensions in
    range the plot gets a blank grid of [cols * rows] cells, whatever was
    drawn before, and keeps its dataset, bounds, window and settings. With
    [cols = 0] or [rows = 0] the grid is empty and every write request is
    clipped. *)
Theorem setSize_allocates (cols rows : Z) (p : Plot) :
  is_int (cols * rows) →
  (cols * rows < 0 → setSize cols rows p = None) ∧
  (0 <= cols <= INT_MAX → 0 <= rows → 2 * rows <= INT_MAX →
   ∃ p', setSize cols rows p = Some p' ∧ wf p' ∧
         w p' = cols ∧ h p' = rows ∧ printBuf p' = Some (blank_grid p') ∧
         background p' = background p ∧ invertedY p' = invertedY p ∧
         range p' = range p ∧ topLeft p' = topLeft p ∧ dx p' = dx p ∧ dy p' = dy p ∧
         minX p' = minX p ∧ maxX p' = maxX p ∧ minY p' = minY p ∧ maxY p' = maxY p ∧
         points p' = points p ∧ lines p' = lines p ∧
         (cols = 0 ∨ rows = 0 →
          printBuf p' = Some [] ∧
          ∀ x y color character, setCell x y color character p' = Some p')).
Proof.
  intros Hint. split.
  - intros Hneg. unfold setSize. rewrite int_mul_id by done.
    destruct (Z.ltb_spec (cols * rows) 0); [done | lia].
  - intros Hl Hn H2.
    destruct (setSize_wf cols rows p) as (p' & Hset & Hwf & Ew & Eh & Hbuf);
      try done.
    { unfold is_int in Hint. lia. }
    exists p'. split; [done |]. split; [done |].
    assert (Ek : p' = set_printBuf (printBuf p') (set_size cols rows p)).
    { unfold setSize in Hset. destruct (_ <? 0); [done |]. injection Hset as <-.
      unfold clearPlot. cbn. done. }
    split_and!; try done; try (rewrite Ek; done).
    intros Hz.
    assert (E0 : cols * rows = 0) by (destruct Hz; subst; lia).
    split; [by rewrite Hbuf, E0 |].
    intros x y color character. apply setCell_outside.
    apply out_of_bounds_outside; [rewrite Eh; unfold INT_MAX in *; lia |].
    rewrite Ew, Eh. destruct Hz; subst; lia.
Qed.

(** ** The dataset *)

Lemma Cell_eqb_eq (a b : Cell) : Cell_eqb a b = true ↔ a = b.
Proof.
  unfold Cell_eqb. rewrite andb_true_iff, Ascii.eqb_eq, Z.eqb_eq.
  destruct a, b; cbn. split; [intros [-> ->]; done | intros [= -> ->]; done].
Qed.

Lemma style_data_push_back {A : Type} (k : Cell) (a : A) (m : list (Cell * list A)) :
  style_data k (push_back k a m) = style_data k m ++ [a].
Proof.
  induction m as [| [k' v] m IH]; cbn.
  - assert (E : Cell_eqb k k = true) by by apply Cell_eqb_eq. by rewrite E.
  - destruct (Cell_eqb k' k) eqn:E; cbn; rewrite E; [done | exact IH].
Qed.

Lemma style_data_push_back_ne {A : Type} (k k0 : Cell) (a : A) (m : list (Cell * list A)) :
  k0 ≠ k → style_data k0 (push_back k a m) = style_data k0 m.
Proof.
  intros Hne. induction m as [| [k' v] m IH]; cbn.
  - destruct (Cell_eqb k k0) eqn:E; [| done]. apply Cell_eqb_eq in E. congruence.
  - destruct (Cell_eqb k' k) eqn:E; cbn.
    + apply Cell_eqb_eq in E. subst k'.
      destruct (Cell_eqb k k0) eqn:E0; [| done]. apply Cell_eqb_eq in E0. congruence.
    + by rewrite IH.
Qed.

Lemma push_back_keys {A : Type} (k : Cell) (a : A) (m : list (Cell * list A)) :
  map fst (push_back k a m) = map fst m ∨
  ((k ∉ map fst m) ∧ map fst (push_back k a m) = map fst m ++ [k]).
Proof.
  induction m as [| [k' v] m IH]; cbn.
  - right. split; [apply not_elem_of_nil | done].
  - destruct (Cell_eqb k' k) eqn:E; cbn; [by left |].
    destruct IH as [-> | [Hni ->]]; [by left |].
    right. split; [| done]. rewrite not_elem_of_cons. split; [| done].
    intros ->. assert (Cell_eqb k' k' = true) by by apply Cell_eqb_eq. congruence.
Qed.

Lemma push_back_NoDup {A : Type} (k : Cell) (a : A) (m : list (Cell * list A)) :
  NoDup (map fst m) → NoDup (map fst (push_back k a m)).
Proof.
  intros Hnd. destruct (push_back_keys k a m) as [-> | [Hni ->]]; [done |].
  apply NoDup_app. split_and!; [done | | apply NoDup_singleton].
  intros x Hx Hk. apply list_elem_of_singleton in Hk. by subst.
Qed.

Lemma push_back_count {A : Type} (k : Cell) (a : A) (m : list (Cell * list A)) :
  length (concat (map snd (push_back k a m))) = S (length (concat (map snd m))).
Proof.
  induction m as [| [k' v] m IH]; cbn; [done |].
  destruct (Cell_eqb k' k); cbn; rewrite !length_app; cbn; lia.
Qed.

Lemma printPoint_frame (pt : Point) (color : Z) (character : ascii) (p p' : Plot) :
  printPoint pt color character p = Some p' → p' = set_printBuf (printBuf p') p.
Proof.
  rewrite printPoint_writes.
  destruct (point_writes p color character pt) as [ws |]; cbn; [| done].
  intros Hrun. by apply for_each_writes_frame in Hrun as [E _].
Qed.

Lemma printLine_frame (fuel : nat) (l : Line) (color : Z) (character : ascii)
    (p p' : Plot) :
  printLine fuel l color character p = Some p' → p' = set_printBuf (printBuf p') p.
Proof.
  rewrite printLine_writes.
  destruct (line_writes fuel p color character l) as [ws |]; cbn; [| done].
  intros Hrun. by apply for_each_writes_frame in Hrun as [E _].
Qed.

(** X13. [point] and [line] buffer their datum under its style, the pair of
    glyph and colour: it becomes the last element of that style's vector,
    the vectors of all other styles and the other map are as before, the
    dataset grows by exactly one element, and the styles of a map stay
    pairwise distinct. This holds in both modes. *)
Theorem submission_buffered (p : Plot) (color : Z) (character : ascii) :
  let k := mkCell character color in
  (∀ x y p',
     point x y color character p = Some p' →
     style_data k (points p') = style_data k (points p) ++ [mkPoint x y] ∧
     (∀ k0, k0 ≠ k → style_data k0 (points p') = style_data k0 (points p)) ∧
     lines p' = lines p ∧
     length (concat (map snd (points p'))) = S (length (concat (map snd (points p)))) ∧
     (NoDup (map fst (points p)) → NoDup (map fst (points p')))) ∧
  (∀ fuel x1 y1 x2 y2 p',
     line fuel x1 y1 x2 y2 color character p = Some p' →
     style_data k (lines p') =
       style_data k (lines p) ++ [mkLine (mkPoint x1 y1) (mkPoint x2 y2)] ∧
     (∀ k0, k0 ≠ k → style_data k0 (lines p') = style_data k0 (lines p)) ∧
     points p' = points p ∧
     length (concat (map snd (lines p'))) = S (length (concat (map snd (lines p)))) ∧
     (NoDup (map fst (lines p)) → NoDup (map fst (lines p')))).
Proof.
  cbn zeta. split.
  - intros x y p' Hpt. unfold point in Hpt.
    set (p1 := set_points _ p) in Hpt.
    assert (E : points p' = points p1 ∧ lines p' = lines p).
    { destruct (range p1).
      - apply printPoint_frame in Hpt. by rewrite Hpt.
      - by injection Hpt as <-. }
    destruct E as [-> ->]. cbn [points p1 set_points].
    split_and!; [apply style_data_push_back | | done | apply push_back_count
                | apply push_back_NoDup].
    intros k0 Hne. by apply style_data_push_back_ne.
  - intros fuel x1 y1 x2 y2 p' Hln. unfold line in Hln.
    set (p1 := set_lines _ p) in Hln.
    assert (E : lines p' = lines p1 ∧ points p' = points p).
    { destruct (range p1).
      - apply printLine_frame in Hln. by rewrite Hln.
      - by injection Hln as <-. }
    destruct E as [-> ->]. cbn [lines p1 set_lines].
    split_and!; [apply style_data_push_back | | done | apply push_back_count
                | apply push_back_NoDup].
    intros k0 Hne. by apply style_data_push_back_ne.
Qed.

(** ** Coordinates without an [int] value *)

Lemma to_int_div_zero (a b : float) (s : bool) :
  Prim2SF b = S754_zero s → to_int (PrimFloat.div a b) = None.
Proof.
  intros Hb. unfold to_int. rewrite div_spec, Hb. unfold SF64div, SFdiv.
  by destruct (Prim2SF a).
Qed.

Lemma for_each_nested_none {A B : Type} (inner : B → A → Plot → option Plot)
    (m : list (B * list A)) (p : Plot) :
  (∀ c a, inner c a p = None) → concat (map snd m) ≠ [] →
  for_each (λ c, for_each (inner (fst c)) (snd c)) m p = None.
Proof.
  intros Hnone. induction m as [| [c [| a v]] m IH]; intros Hne; [done | |].
  - cbn. apply IH. done.
  - cbn. by rewrite Hnone.
Qed.

Lemma for_each_nested_empty {A B : Type} (inner : B → A → Plot → option Plot)
    (m : list (B * list A)) (p : Plot) :
  concat (map snd m) = [] →
  for_each (λ c, for_each (inner (fst c)) (snd c)) m p = Some p.
Proof.
  induction m as [| [c [| a v]] m IH]; intros He; [done | | done].
  cbn. apply IH. done.
Qed.

(** Both loop nests of [render] fail on a plot where no coordinate of one
    axis converts. *)
Lemma render_unmapped (fuel : nat) (p : Plot) :
  (∀ x, map_x (render_window p) x = None) ∨ (∀ y, map_y (render_window p) y = None) →
  has_data p → render fuel p = None.
Proof.
  intros Hmap Hdata. unfold render. cbn zeta. set (p0 := render_window p) in *.
  assert (El : lines p0 = lines p) by (unfold p0, render_window; by destruct (range p)).
  assert (Ep : points p0 = points p) by (unfold p0, render_window; by destruct (range p)).
  assert (Hline : ∀ (c : Cell) l, printLine fuel l (co c) (ch c) p0 = None).
  { intros c l. unfold printLine. destruct Hmap as [Hx | Hy].
    - by rewrite (Hx (px (la l))).
    - destruct (map_x p0 (px (la l))); cbn; [| done]. by rewrite (Hy (py (la l))). }
  assert (Hpoint : ∀ (c : Cell) pt, printPoint pt (co c) (ch c) p0 = None).
  { intros c pt. unfold printPoint. destruct Hmap as [Hx | Hy].
    - by rewrite Hx.
    - destruct (map_x p0 (px pt)); cbn; [| done]. by rewrite Hy. }
  unfold render_lines, render_points. rewrite El.
  destruct (decide (concat (map snd (lines p)) = [])) as [He | Hne].
  - rewrite (for_each_nested_empty (λ c l, printLine fuel l (co c) (ch c))) by done.
    cbn. rewrite Ep.
    apply (for_each_nested_none (λ c pt, printPoint pt (co c) (ch c))); [done |].
    by destruct Hdata.
  - by rewrite (for_each_nested_none (λ c l, printLine fuel l (co c) (ch c))).
Qed.

(** X14. A window of zero width or zero height: every conversion of a
    coordinate of that axis divides by zero, and the quotient (an infinity or a NaN)
    has no [int] value. [render] then has no defined result as soon as the
    dataset holds one line or point. In implicit mode a dataset of a single
    point is such a case. *)
Theorem zero_extent_unmapped (fuel : nat) (p : Plot) (s : bool) :
  Prim2SF (dx (render_window p)) = S754_zero s ∨
  Prim2SF (dy (render_window p)) = S754_zero s →
  ((Prim2SF (dx (render_window p)) = S754_zero s →
    ∀ x, map_x (render_window p) x = None) ∧
   (Prim2SF (dy (render_window p)) = S754_zero s →
    ∀ y, map_y (render_window p) y = None)) ∧
  (has_data p → render fuel p = None).
Proof.
  intros Hz.
  assert (Hx : Prim2SF (dx (render_window p)) = S754_zero s →
               ∀ x, map_x (render_window p) x = None).
  { intros H x. unfold map_x, x_quantity. by eapply to_int_div_zero. }
  assert (Hy : Prim2SF (dy (render_window p)) = S754_zero s →
               ∀ y, map_y (render_window p) y = None).
  { intros H y. unfold map_y, y_quantity. by eapply to_int_div_zero. }
  split; [done |]. apply render_unmapped. destruct Hz; [left | right]; auto.
Qed.

Lemma SFcompare_refl (f : spec_float) : f ≠ S754_nan → SFcompare f f = Some Eq.
Proof.
  destruct f as [s | s | | s m e]; cbn; try done.
  - by destruct s.
  - intros _. rewrite Z.compare_refl.
    change (PosDef.Pos.compare_cont Eq m m) with (Pos.compare m m).
    rewrite Pos.compare_refl. by destruct s.
Qed.

Lemma is_nan_SF (x : float) : PrimFloat.is_nan x = true → Prim2SF x = S754_nan.
Proof.
  unfold PrimFloat.is_nan. rewrite FloatAxioms.eqb_spec. intros H.
  apply negb_true_iff in H. unfold SFeqb in H.
  destruct (Prim2SF x) as [s | s | | s m e] eqn:E; [| | done |];
    by rewrite SFcompare_refl in H.
Qed.

Lemma ltb_nan_l (x y : float) : PrimFloat.is_nan x = true → PrimFloat.ltb x y = false.
Proof. intros H. rewrite ltb_spec, (is_nan_SF x H). done. Qed.

Lemma ltb_nan_r (x y : float) : PrimFloat.is_nan y = true → PrimFloat.ltb x y = false.
Proof.
  intros H. rewrite ltb_spec, (is_nan_SF y H). unfold SFltb.
  by destruct (Prim2SF x).
Qed.

(** X15. A NaN coordinate: every comparison with it is false, so the observed
    bounds of that axis stay as they are; the point or line is buffered all
    the same, and its NaN coordinate has no [int] value in any window. *)
Theorem nan_coordinate (x y : float) (p : Plot) :
  PrimFloat.is_nan x = true →
  minX (updateXYMinMax (mkPoint x y) p) = minX p ∧
  maxX (updateXYMinMax (mkPoint x y) p) = maxX p ∧
  minY (updateXYMinMax (mkPoint y x) p) = minY p ∧
  maxY (updateXYMinMax (mkPoint y x) p) = maxY p ∧
  map_x p x = None ∧ map_y p x = None ∧
  ∀ color character,
    range p = false →
    ∃ p', point x y color character p = Some p' ∧
          minX p' = minX p ∧ maxX p' = maxX p ∧ printBuf p' = printBuf p ∧
          has_data p'.
Proof.
  intros Hnan. pose proof (is_nan_SF x Hnan) as Hsf.
  unfold updateXYMinMax. cbn [minX maxX minY maxY set_minmax px py].
  rewrite !(ltb_nan_l x), !(ltb_nan_r _ x) by done.
  split_and!; try done.
  - unfold map_x, to_int, x_quantity.
    rewrite div_spec, mul_spec, sub_spec, Hsf. done.
  - unfold map_y, to_int, y_quantity.
    rewrite div_spec, !mul_spec, sub_spec, Hsf. done.
  - intros color character Hr. unfold point. cbn [range set_points]. rewrite Hr.
    eexists. split; [done |]. unfold updateXYMinMax.
    cbn [minX maxX minY maxY set_minmax set_points px py printBuf].
    rewrite (ltb_nan_l x), (ltb_nan_r _ x) by done.
    split_and!; try done. right. cbn [points set_minmax set_points].
    clear. induction (points p) as [| [k v] m IH]; cbn; [done |].
    destruct (Cell_eqb k _); cbn.
    + by destruct v.
    + destruct v; cbn; [done | done].
Qed.

(** ** The text written by [print] *)

Lemma print_cells_text (p : Plot) (buf : list Cell) (n : nat) :
  printBuf p = Some buf →
  ∀ (x i last : Z),
    0 <= x → 0 <= i → (Z.to_nat i + n ≤ length buf)%nat →
    ∃ last',
      print_cells n x i last p =
        Some (last',
              cells_text (if x =? 0 then None else Some last)
                (take n (drop (Z.to_nat i) buf))).
Proof.
  intros Hbuf. induction n as [| n IH]; intros x i last Hx Hi Hlen.
  - exists last. by rewrite take_0.
  - cbn [print_cells]. unfold read_cell. rewrite Hbuf. cbn [mbind option_bind].
    destruct (Z.ltb_spec i 0); [lia |].
    destruct (lookup_lt_is_Some_2 buf (Z.to_nat i)) as [c Hc]; [lia |].
    rewrite Hc. cbn [mbind option_bind].
    destruct (IH (x + 1) (i + 1) (fst (print_cell x last c))) as [last' Hrest];
      [lia | lia | lia |].
    rewrite Hrest. cbn [mbind option_bind fst snd]. exists last'. do 2 f_equal.
    replace (Z.to_nat (i + 1)) with (S (Z.to_nat i)) by lia.
    rewrite (drop_S buf c (Z.to_nat i) Hc). cbn [take cells_text].
    destruct (Z.eqb_spec (x + 1) 0); [lia |].
    unfold print_cell, glyph_text. cbn [fst snd].
    rewrite <- !app_assoc.
    destruct (Z.eqb_spec x 0) as [-> | Hx0].
    + rewrite orb_true_r. done.
    + rewrite orb_false_r. destruct (Z.eqb_spec last (co c)) as [-> | Hne]; done.
Qed.

Section PrintProperties.

Variable printf_double : list ascii → float → list ascii.

Lemma print_row_text (fm : Formats) (p : Plot) (buf : list Cell) (y last : Z) :
  wf p → printBuf p = Some buf → 0 <= y < h p →
  int_mul y (w p) = y * w p ∧
  ∃ last',
    print_cells (Z.to_nat (w p)) 0 (int_mul y (w p)) last p =
      Some (last', cells_text None (grid_row p buf y)).
Proof.
  intros (Hw & Hh & Hh2 & Hwh & b & Hb & Hlen) Hbuf Hy.
  assert (b = buf) by congruence. subst b.
  assert (H0 : 0 <= y * w p) by (apply Z.mul_nonneg_nonneg; lia).
  assert (H1 : (y + 1) * w p <= h p * w p) by (apply Z.mul_le_mono_nonneg_r; lia).
  assert (E : int_mul y (w p) = y * w p).
  { apply int_mul_id. unfold is_int, INT_MIN, INT_MAX in *. lia. }
  split; [done |]. rewrite E.
  destruct (print_cells_text p buf (Z.to_nat (w p)) Hbuf 0 (y * w p) last)
    as [last' Hrun]; [lia | lia | lia |].
  exists last'. exact Hrun.
Qed.

(** The loop over the rows, counting up. *)
Lemma print_rows_up (fm : Formats) (p : Plot) (buf : list Cell) :
  wf p → printBuf p = Some buf →
  ∀ (n : nat) (fuel : nat) (y last : Z),
    0 <= y → y + Z.of_nat n = h p → (n < fuel)%nat →
    print_rows printf_double fuel y (h p) 1 last fm p =
      Some (concat (map (row_text printf_double fm p buf) (seqZ y (Z.of_nat n)))).
Proof.
  intros Hwf Hbuf. induction n as [| n IH]; intros [| fuel] y last Hy Hn Hf; try lia.
  - cbn [print_rows]. destruct (Z.eqb_spec y (h p)); [done | lia].
  - cbn [print_rows]. destruct (Z.eqb_spec y (h p)); [lia |].
    destruct (print_row_text fm p buf y last Hwf Hbuf) as [_ [last' Hrow]]; [lia |].
    rewrite Hrow. cbn [mbind option_bind fst snd].
    assert (Ey : int_add y 1 = y + 1).
    { apply int_add_id. destruct Hwf as (_ & _ & Hh2 & _).
      unfold is_int, INT_MIN, INT_MAX in *. lia. }
    rewrite Ey, (IH fuel (y + 1) last') by lia. cbn [mbind option_bind].
    rewrite (seqZ_cons y) by lia. cbn [map concat].
    replace (Z.pred (Z.of_nat (S n))) with (Z.of_nat n) by lia.
    unfold row_text at 2. by rewrite <- !app_assoc.
Qed.

(** The loop over the rows, counting down. *)
Lemma print_rows_down (fm : Formats) (p : Plot) (buf : list Cell) :
  wf p → printBuf p = Some buf →
  ∀ (n : nat) (fuel : nat) (last : Z),
    Z.of_nat n <= h p → (n < fuel)%nat →
    print_rows printf_double fuel (Z.of_nat n - 1) (-1) (-1) last fm p =
      Some (concat (map (row_text printf_double fm p buf)
                      (reverse (seqZ 0 (Z.of_nat n))))).
Proof.
  intros Hwf Hbuf. induction n as [| n IH]; intros [| fuel] last Hn Hf; try lia.
  - done.
  - cbn [print_rows]. destruct (Z.eqb_spec (Z.of_nat (S n) - 1) (-1)); [lia |].
    destruct (print_row_text fm p buf (Z.of_nat (S n) - 1) last Hwf Hbuf)
      as [_ [last' Hrow]]; [lia |].
    rewrite Hrow. cbn [mbind option_bind fst snd].
    assert (Ey : int_add (Z.of_nat (S n) - 1) (-1) = Z.of_nat n - 1).
    { rewrite int_add_id; [lia |]. destruct Hwf as (_ & _ & Hh2 & _).
      unfold is_int, INT_MIN, INT_MAX in *. lia. }
    rewrite Ey, (IH fuel last') by lia. cbn [mbind option_bind].
    rewrite seqZ_S, reverse_app. cbn [reverse rev_append app map concat].
    replace (0 + Z.of_nat n) with (Z.of_nat (S n) - 1) by lia.
    unfold row_text at 2. by rewrite <- !app_assoc.
Qed.

(** The loop over the rows of an allocated grid, in either direction. *)
Lemma print_rows_text (fuel : nat) (last : Z) (fm : Formats) (p : Plot)
    (buf : list Cell) :
  wf p → printBuf p = Some buf → (Z.to_nat (h p) < fuel)%nat →
  print_rows printf_double fuel
    (if invertedY p then int_sub (h p) 1 else 0)
    (if invertedY p then -1 else h p)
    (if invertedY p then -1 else 1) last fm p =
  Some (concat (map (row_text printf_double fm p buf) (row_order p))).
Proof.
  intros Hwf Hbuf Hf.
  assert (Hh : 0 <= h p <= INT_MAX).
  { destruct Hwf as (_ & ? & ? & _). unfold INT_MAX in *. lia. }
  unfold row_order. destruct (invertedY p).
  - rewrite int_sub_id by (unfold is_int, INT_MIN, INT_MAX in *; lia).
    pose proof (print_rows_down fm p buf Hwf Hbuf (Z.to_nat (h p)) fuel last) as Hd.
    rewrite Z2Nat.id in Hd by lia. apply Hd; lia.
  - pose proof (print_rows_up fm p buf Hwf Hbuf (Z.to_nat (h p)) fuel 0 last) as Hu.
    rewrite Z2Nat.id in Hu by lia. apply Hu; lia.
Qed.

(** X16. The text of [print] on an allocated grid: the rows of the grid from
    the first to the last, or from the last to the first under Y inversion,
    each row as [row_text] gives it; then the reset sequence; then the X
    axis, if a format is set. The loop over the rows ends after [h] rows.
    The text does not depend on the value the uninitialized local [last]
    holds on entry. *)
Theorem print_layout (fuel : nat) (last : Z) (fm : Formats) (p : Plot)
    (buf : list Cell) :
  wf p → printBuf p = Some buf → (Z.to_nat (h p) < fuel)%nat →
  let rows := concat (map (row_text printf_double fm p buf) (row_order p)) in
  print printf_double fuel last fm p =
    (footer ← print_footer printf_double fuel fm p;
     Some (rows ++ sgr_reset ++ footer)) ∧
  (xFormat fm = [] →
   print printf_double fuel last fm p = Some (rows ++ sgr_reset)) ∧
  Z.of_nat (length (row_order p)) = h p.
Proof.
  intros Hwf Hbuf Hf. cbn zeta.
  pose proof (print_rows_text fuel last fm p buf Hwf Hbuf Hf) as Hrows.
  assert (E : print printf_double fuel last fm p =
              (footer ← print_footer printf_double fuel fm p;
               Some (concat (map (row_text printf_double fm p buf) (row_order p))
                     ++ sgr_reset ++ footer))).
  { unfold print. cbn zeta. rewrite Hrows. done. }
  split_and!; [exact E | |].
  - intros Hx. rewrite E. unfold print_footer. rewrite Hx.
    cbn [mbind option_bind]. by rewrite app_nil_r.
  - destruct Hwf as (_ & Hh & _).
    unfold row_order. destruct (invertedY p);
      rewrite ?length_reverse, length_seqZ; lia.
Qed.

Lemma cells_text_uniform (c : Cell) (n : nat) :
  cells_text (Some (co c)) (replicate n c) = concat (replicate n (glyph_text c)).
Proof.
  induction n as [| n IH]; [done |].
  cbn [replicate cells_text concat]. rewrite Z.eqb_refl, IH. done.
Qed.

Lemma concat_replicate_singleton {A : Type} (x : A) (n : nat) :
  concat (replicate n [x]) = replicate n x.
Proof. induction n as [| n IH]; [done |]. cbn. by rewrite IH. Qed.

Lemma grid_row_blank (p : Plot) (y : Z) :
  0 <= w p → 0 <= y < h p →
  grid_row p (blank_grid p) y =
    replicate (Z.to_nat (w p)) (background_cell (background p)).
Proof.
  intros Hw Hy. unfold grid_row, blank_grid.
  assert (H0 : 0 <= y * w p) by (apply Z.mul_nonneg_nonneg; lia).
  assert (H1 : (y + 1) * w p <= h p * w p) by (apply Z.mul_le_mono_nonneg_r; lia).
  rewrite drop_replicate, take_replicate. f_equal. lia.
Qed.

(** X17. A blank grid, as [setSize], [setDrawRange] and [clearData] leave it,
    printed without formats: [h] equal lines, each one escape sequence for
    the background attribute, [w] spaces and a newline, then the reset
    sequence, with or without Y inversion. *)
Theorem print_blank_grid (fuel : nat) (last : Z) (fm : Formats) (p : Plot) :
  wf p → printBuf p = Some (blank_grid p) → 0 < w p →
  yFormat fm = [] → xFormat fm = [] → (Z.to_nat (h p) < fuel)%nat →
  print printf_double fuel last fm p =
    Some (concat (replicate (Z.to_nat (h p))
                    (sgr (co (background_cell (background p))) ++
                     replicate (Z.to_nat (w p)) " "%char ++ [NEWLINE]))
          ++ sgr_reset).
Proof.
  intros Hwf Hbuf Hw Hy Hx Hf.
  unfold print, print_footer. cbn zeta.
  rewrite (print_rows_text fuel last fm p (blank_grid p) Hwf Hbuf Hf), Hx.
  cbn [mbind option_bind]. rewrite app_nil_r. do 2 f_equal.
  assert (Hrow : ∀ y, 0 <= y < h p →
            row_text printf_double fm p (blank_grid p) y =
              sgr (co (background_cell (background p))) ++
              replicate (Z.to_nat (w p)) " "%char ++ [NEWLINE]).
  { intros y Hyr. unfold row_text, row_end. rewrite Hy, grid_row_blank by lia.
    destruct (Z.to_nat (w p)) as [| n] eqn:En; [lia |].
    cbn [replicate cells_text]. rewrite cells_text_uniform.
    change (glyph_text (background_cell (background p))) with [" "%char].
    rewrite concat_replicate_singleton, <- !app_assoc. done. }
  assert (Hall : Forall (λ y, 0 <= y < h p) (row_order p)).
  { unfold row_order. destruct (invertedY p); rewrite ?Forall_reverse;
      apply Forall_seqZ; lia. }
  assert (Hlen : length (row_order p) = Z.to_nat (h p)).
  { unfold row_order. destruct (invertedY p);
      rewrite ?length_reverse, length_seqZ; lia. }
  rewrite <- Hlen. clear Hlen.
  induction Hall as [| y ys Hyr _ IH]; [done |].
  cbn [map concat length replicate]. rewrite Hrow by done. by rewrite IH.
Qed.

(** The loop of the X axis from column [x] on: it ends, and each tick
    stands at the column that its label shows. *)
Lemma print_axis_ticks (fm : Formats) (p : Plot) :
  (∀ v, w p + Z.of_nat (length (printf_double (xFormat fm) v)) < INT_MAX) →
  ∀ (n : nat) (fuel : nat) (x : Z),
    0 <= x → w p - x <= Z.of_nat n → (n < fuel)%nat →
    ∃ xs : list Z,
      print_axis printf_double fuel x fm p =
        Some (concat (map (axis_label printf_double fm p) xs)) ∧
      (∀ (k : nat) (t : Z), xs !! k = Some t →
         t < w p ∧
         t = x + Z.of_nat (length (concat (map (axis_label printf_double fm p)
                                             (take k xs))))) ∧
      (x < w p → head xs = Some x) ∧
      w p <= x + Z.of_nat (length (concat (map (axis_label printf_double fm p) xs))) ∧
      (length xs ≤ n)%nat.
Proof.
  intros Hlen. induction n as [| n IH]; intros [| fuel] x Hx Hn Hf; try lia.
  - cbn [print_axis]. destruct (Z.ltb_spec x (w p)); [lia |].
    exists []. split_and!; try done; cbn; lia.
  - cbn [print_axis]. destruct (Z.ltb_spec x (w p)) as [Hlt | Hge].
    + set (label := printf_double (xFormat fm) (x_label_value p x)).
      pose proof (Hlen (x_label_value p x)) as Hl. fold label in Hl.
      assert (Ex : int_add x (int_add (Z.of_nat (length label)) 1) =
                   x + Z.of_nat (length (axis_label printf_double fm p x))).
      { unfold axis_label. fold label. cbn [length app].
        unfold INT_MAX in Hl.
        rewrite (int_add_id (Z.of_nat (length label)) 1) by int_range.
        rewrite int_add_id by int_range. lia. }
      rewrite Ex.
      destruct (IH fuel (x + Z.of_nat (length (axis_label printf_double fm p x))))
        as (xs & Hrun & Hticks & Hhead & Hwide & Hcount).
      { lia. }
      { unfold axis_label. cbn [length app]. lia. }
      { lia. }
      rewrite Hrun. cbn [mbind option_bind].
      exists (x :: xs). split_and!.
      * cbn [map concat]. unfold axis_label at 2. fold label.
        by rewrite <- app_assoc.
      * intros [| k] t.
        -- intros [= <-]. cbn. split; lia.
        -- cbn [lookup list_lookup take map concat]. intros Ht.
           destruct (Hticks k t Ht) as [Ht1 Ht2]. split; [done |].
           rewrite length_app. lia.
      * done.
      * cbn [map concat]. rewrite length_app. lia.
      * cbn. lia.
    + exists []. split_and!; try done; cbn; lia.
Qed.

(** X18. The X axis line: with labels short enough for the [int] column
    counter, the loop ends after at most [w] labels; every tick [|] stands at the
    column of the line that its label shows, the first one at column 0; and
    the line is at least [w] characters wide. *)
Theorem print_axis_columns (fuel : nat) (fm : Formats) (p : Plot) :
  (∀ v, w p + Z.of_nat (length (printf_double (xFormat fm) v)) < INT_MAX) →
  (Z.to_nat (w p) < fuel)%nat →
  ∃ xs : list Z,
    print_axis printf_double fuel 0 fm p =
      Some (concat (map (axis_label printf_double fm p) xs)) ∧
    (∀ (k : nat) (t : Z), xs !! k = Some t →
       0 <= t < w p ∧
       t = Z.of_nat (length (concat (map (axis_label printf_double fm p)
                                       (take k xs))))) ∧
    (0 < w p → head xs = Some 0) ∧
    w p <= Z.of_nat (length (concat (map (axis_label printf_double fm p) xs))) ∧
    Z.of_nat (length xs) <= Z.max 0 (w p).
Proof.
  intros Hlen Hf.
  destruct (print_axis_ticks fm p Hlen (Z.to_nat (w p)) fuel 0)
    as (xs & Hrun & Hticks & Hhead & Hwide & Hcount); [lia | lia | lia |].
  exists xs. split_and!; [done | | done | lia | lia].
  intros k t Ht. destruct (Hticks k t Ht) as [Ht1 Ht2]. split; [lia | lia].
Qed.

End PrintProperties.

(** ** The colour codes *)

Lemma land_pow2_testbit (a n : Z) :
  0 <= n → (Z.land a (2 ^ n) =? 0) = negb (Z.testbit a n).
Proof.
  intros Hn. destruct (Z.testbit a n) eqn:Hb; cbn.
  - apply Z.eqb_neq. intros E.
    assert (Ht : Z.testbit (Z.land a (2 ^ n)) n = true).
    { rewrite Z.land_spec, Hb, Z.pow2_bits_true by done. done. }
    rewrite E, Z.bits_0 in Ht. done.
  - apply Z.eqb_eq. apply Z.bits_inj'. intros m Hm.
    rewrite Z.land_spec, Z.bits_0.
    destruct (Z.eq_dec n m) as [<- | Hne].
    + by rewrite Hb.
    + rewrite Z.pow2_bits_false by done. apply andb_false_r.
Qed.

Lemma nibble_cases (a : Z) (P : Z → Prop) :
  0 <= a <= 15 →
  P 0 → P 1 → P 2 → P 3 → P 4 → P 5 → P 6 → P 7 →
  P 8 → P 9 → P 10 → P 11 → P 12 → P 13 → P 14 → P 15 → P a.
Proof.
  intros Ha. intros.
  assert (a = 0 ∨ a = 1 ∨ a = 2 ∨ a = 3 ∨ a = 4 ∨ a = 5 ∨ a = 6 ∨ a = 7 ∨
          a = 8 ∨ a = 9 ∨ a = 10 ∨ a = 11 ∨ a = 12 ∨ a = 13 ∨ a = 14 ∨ a = 15)
    as Hc by lia.
  repeat (destruct Hc as [-> | Hc]; [assumption |]). by subst.
Qed.

Lemma nibble_range (z : Z) : 0 <= Z.land z 0x0f <= 15.
Proof.
  replace (Z.land z 0x0f) with (z mod 16);
    [pose proof (Z.mod_pos_bound z 16); lia |].
  change 0x0f with (Z.ones 4). by rewrite Z.land_ones by lia.
Qed.

(** X19. The escape sequence that [print] writes for an attribute byte selects
    the lower nibble as the foreground and the upper nibble as the
    background colour, with the SGR parameters of the 16-colour palette:
    [ESC [ fg ; bg m] with [fg] = 30 + c or 90 + (c - 8), [bg] = 40 + c or
    100 + (c - 8). The upper half block therefore shows the lower nibble in
    the upper half of the character cell and the upper nibble in the lower
    half. *)
Theorem sgr_palette (co : Z) :
  sgr co =
    [ESC; "["%char] ++ print_int (ansi_fg (lower co)) ++ [";"%char] ++
    print_int (ansi_bg (upper co)) ++ ["m"%char].
Proof.
  unfold sgr.
  assert (Efg : print_int (if negb (Z.land co 0x08 =? 0) then 9 else 3) ++
                print_int (Z.land co 0x07) = print_int (ansi_fg (lower co))).
  { unfold lower.
    replace (Z.land co 0x08) with (Z.land (Z.land co 0x0f) 0x08)
      by (by rewrite <- Z.land_assoc).
    replace (Z.land co 0x07) with (Z.land (Z.land co 0x0f) 0x07)
      by (by rewrite <- Z.land_assoc).
    apply (nibble_cases (Z.land co 0x0f)); [apply nibble_range | ..];
      vm_compute; reflexivity. }
  assert (Ebg : print_int (if negb (Z.land co 0x80 =? 0) then 10 else 4) ++
                print_int (Z.land (Z.shiftr co 4) 0x07) = print_int (ansi_bg (upper co))).
  { unfold upper.
    replace (Z.land co 0x80 =? 0) with (Z.land (Z.land (Z.shiftr co 4) 0x0f) 0x08 =? 0).
    2:{ rewrite <- Z.land_assoc. change (Z.land 0x0f 0x08) with (2 ^ 3).
        change 0x80 with (2 ^ 7). rewrite !land_pow2_testbit by lia.
        rewrite Z.shiftr_spec by lia. done. }
    replace (Z.land (Z.shiftr co 4) 0x07)
      with (Z.land (Z.land (Z.shiftr co 4) 0x0f) 0x07)
      by (by rewrite <- Z.land_assoc).
    apply (nibble_cases (Z.land (Z.shiftr co 4) 0x0f)); [apply nibble_range | ..];
      vm_compute; reflexivity. }
  rewrite <- Efg, <- Ebg. by rewrite <- !app_assoc.
Qed.

(** ** Examples on concrete plots *)

Lemma wfb_wf (p : Plot) : wfb p = true → wf p.
Proof.
  unfold wfb, wf. rewrite !andb_true_iff, !Z.leb_le.
  intros [[[[[? ?] ?] ?] ?] Hbuf].
  destruct (printBuf p) as [buf |]; [| done]. apply Z.eqb_eq in Hbuf.
  split_and!; try done. by exists buf.
Qed.

(** C1, counterexample. Implicit window; a block line in RED from (0,0) to
    (4,4) and points with the glyph [b] in GREEN at (0,0) and (4,4). The
    first [render] leaves cell 0 with attribute [0x12] (the point found a
    block cell and shifted RED up), the second with [0x11] (the line
    overwrote the lower nibble, the point found its own glyph and left the
    attribute alone). *)
Lemma render_twice_differs :
  range overlap_plot = false ∧
  lines overlap_plot = [(mkCell BLOCK RED, [mkLine (mkPoint 0 0) (mkPoint 4 4)])] ∧
  points overlap_plot = [(mkCell "b" GREEN, [mkPoint 0 0; mkPoint 4 4])] ∧
  ∃ p1 p2,
    render 8 overlap_plot = Some p1 ∧ render 8 p1 = Some p2 ∧
    lines p1 = lines overlap_plot ∧ points p1 = points overlap_plot ∧
    topLeft p1 = mkPoint 0 0 ∧ dx p1 = 4%float ∧ dy p1 = 4%float ∧
    cell_at p1 0 = Some (mkCell "b" 18) ∧ cell_at p2 0 = Some (mkCell "b" 17) ∧
    printBuf p2 ≠ printBuf p1.
Proof.
  split; [done |]. split; [done |]. split; [done |]. eexists _, _.
  split; [vm_compute; reflexivity |]. split; [vm_compute; reflexivity |].
  by vm_compute.
Qed.

(** The block example is renderable with 9 units of fuel per line. *)
Lemma block_plot_renderable : renderable 9 block_plot.
Proof.
  split; [apply wfb_wf; vm_compute; reflexivity |]. split.
  - repeat constructor. exists 0, 0, 4, 4.
    split_and!; try (vm_compute; reflexivity); try lia; by vm_compute.
  - repeat constructor; vm_compute; eexists; reflexivity.
Qed.

(** C1, witness: a block line and a block point. *)
Lemma render_twice_block_witness :
  block_only block_plot ∧ renderable 9 block_plot ∧
  ∃ p1, render 9 block_plot = Some p1 ∧ render 9 p1 = Some p1.
Proof.
  assert (Hb : block_only block_plot) by (split; by repeat constructor).
  split; [exact Hb |]. split; [exact block_plot_renderable |].
  destruct (render_twice_block 9 block_plot Hb) as [Hret Htwice].
  destruct (Hret block_plot_renderable) as [p1 Hp1].
  exists p1. split; [exact Hp1 | exact (Htwice p1 Hp1)].
Defined.

(** C7, counterexample. Implicit window; a line in RED and a later point in
    GREEN, both with the glyph [#], the point on the first cell of the
    line. After [render] the lower nibble of that cell is RED, the colour
    of the line: [setCell] leaves the attribute of a cell alone when the
    cell already holds the glyph being written. With block glyphs and the
    point on the odd sub-row 1, the colour of the point is the final value
    of the upper nibble, and the lower nibble stays BLACK. *)
Lemma same_glyph_keeps_line_color :
  lines same_glyph_plot = [(mkCell "#" RED, [mkLine (mkPoint 0 0) (mkPoint 4 4)])] ∧
  points same_glyph_plot = [(mkCell "#" GREEN, [mkPoint 0 0])] ∧
  (∃ p',
     render 8 same_glyph_plot = Some p' ∧
     map_x p' 0 = Some 0 ∧ map_y p' 0 = Some 0 ∧
     cell_at p' 0 = Some (mkCell "#" 1) ∧
     lower 1 = RED ∧ upper 1 = BLACK ∧ lower 1 ≠ GREEN) ∧
  lines odd_row_plot = [(mkCell BLOCK RED, [mkLine (mkPoint 0 0) (mkPoint 4 4)])] ∧
  points odd_row_plot = [(mkCell BLOCK GREEN, [mkPoint 1 1])] ∧
  (∃ q',
     render 8 odd_row_plot = Some q' ∧
     map_x q' 1 = Some 1 ∧ map_y q' 1 = Some 1 ∧
     line_path 8 0 0 4 4 = Some [(0, 0); (1, 1); (2, 2); (3, 3); (4, 4)] ∧
     cell_at q' 1 = Some (mkCell BLOCK 32) ∧
     lower 32 = BLACK ∧ upper 32 = GREEN ∧ lower 32 ≠ GREEN).
Proof.
  split; [done |]. split; [done |]. split.
  { eexists. split; [vm_compute; reflexivity |]. by vm_compute. }
  split; [done |]. split; [done |].
  eexists. split; [vm_compute; reflexivity |]. by vm_compute.
Qed.

(** A walk whose step leaves its state as it is, away from the target,
    visits its first cell for ever. *)
Lemma line_cells_stall (x2 y2 ddx ddy sx sy : Z) (s : Walk) :
  line_step ddx ddy sx sy s = s → (wx s =? x2) && (wy s =? y2) = false →
  ∀ fuel, line_cells fuel x2 y2 ddx ddy sx sy s = None.
Proof.
  intros Hstep Hend fuel. induction fuel as [| fuel IH]; [done |].
  cbn [line_cells]. by rewrite Hend, Hstep, IH.
Qed.

(** C3, counterexample. The segment from (0, -2147483648) to (0, 0) in the
    window (0,0)-(4,4) of the 4 x 2 grid: both endpoints map to integer
    coordinates, [(0, INT_MIN)] and [(0, 0)]. The difference [y2-y1]
    overflows; with wrap-around [dy] and the error term are [INT_MIN], [e2]
    is 0, neither test of the loop holds, and the walk stays on its first
    cell: the sequence of visited cells never ends at [(x2, y2)], and no
    number of iterations gives a path. *)
Lemma line_walk_never_arrives :
  map_x window_4x2 0 = Some 0 ∧
  map_y window_4x2 (-2147483648) = Some INT_MIN ∧
  map_y window_4x2 0 = Some 0 ∧
  is_int INT_MIN ∧
  line_dy INT_MIN 0 = INT_MIN ∧
  line_step (line_dx 0 0) (line_dy INT_MIN 0) (line_sx 0 0) (line_sy INT_MIN 0)
    (line_start 0 INT_MIN 0 0) = line_start 0 INT_MIN 0 0 ∧
  (wx (line_start 0 INT_MIN 0 0), wy (line_start 0 INT_MIN 0 0)) = (0, INT_MIN) ∧
  (0, INT_MIN) ≠ (0, 0) ∧
  (∀ fuel, line_path fuel 0 INT_MIN 0 0 = None) ∧
  ¬ (∃ fuel path, line_path fuel 0 INT_MIN 0 0 = Some path ∧
                  last path = Some (0, 0)).
Proof.
  assert (Hnone : ∀ fuel, line_path fuel 0 INT_MIN 0 0 = None).
  { intros fuel. unfold line_path. apply line_cells_stall; vm_compute; reflexivity. }
  do 3 (split; [vm_compute; reflexivity |]).
  split; [unfold is_int, INT_MIN, INT_MAX; lia |].
  do 3 (split; [vm_compute; reflexivity |]).
  split; [intros [=] |].
  split; [exact Hnone |].
  intros (fuel & path & Hp & _). by rewrite Hnone in Hp.
Qed.

(** C4, counterexample. The call [line(-2147483648, 0, 0, 0)] in the window
    (0,0)-(4,4) of the 4 x 2 grid: the endpoints map to [(INT_MIN, 0)] and
    [(0, 0)]. The difference [x2-x1] overflows; with wrap-around [dx] and
    the error term are [INT_MIN], the step of the loop leaves the state as
    it is, and the loop does not return within any number of iterations:
    [printLine], and [line], give no result for any fuel. *)
Lemma line_walk_stalls :
  range window_4x2 = true ∧
  map_x window_4x2 (-2147483648) = Some INT_MIN ∧
  map_y window_4x2 0 = Some 0 ∧
  map_x window_4x2 0 = Some 0 ∧
  is_int INT_MIN ∧
  line_dx INT_MIN 0 = INT_MIN ∧
  line_step (line_dx INT_MIN 0) (line_dy 0 0) (line_sx INT_MIN 0) (line_sy 0 0)
    (line_start INT_MIN 0 0 0) = line_start INT_MIN 0 0 0 ∧
  (∀ fuel, line_path fuel INT_MIN 0 0 0 = None) ∧
  (∀ fuel color character p,
     drawLine fuel INT_MIN 0 0 0 color character p = None) ∧
  (∀ fuel color character,
     printLine fuel (mkLine (mkPoint (-2147483648) 0) (mkPoint 0 0))
       color character window_4x2 = None) ∧
  (∀ fuel color character,
     line fuel (-2147483648) 0 0 0 color character window_4x2 = None).
Proof.
  assert (Hnone : ∀ fuel, line_path fuel INT_MIN 0 0 0 = None).
  { intros fuel. unfold line_path. apply line_cells_stall; vm_compute; reflexivity. }
  assert (Hloop : ∀ fuel color character p,
            drawLine fuel INT_MIN 0 0 0 color character p = None).
  { intros fuel color character p. rewrite drawLine_path, Hnone. reflexivity. }
  assert (Hline : ∀ fuel color character (p : Plot),
            map_x p (-2147483648) = Some INT_MIN → map_y p 0 = Some 0 →
            map_x p 0 = Some 0 →
            printLine fuel (mkLine (mkPoint (-2147483648) 0) (mkPoint 0 0))
              color character p = None).
  { intros fuel color character p E1 E2 E3. unfold printLine. cbn [la lb px py].
    rewrite E1, E2, E3. cbn [mbind option_bind]. apply Hloop. }
  do 4 (split; [vm_compute; reflexivity |]).
  split; [unfold is_int, INT_MIN, INT_MAX; lia |].
  do 2 (split; [vm_compute; reflexivity |]).
  split; [exact Hnone |]. split; [exact Hloop |].
  split.
  - intros fuel color character. apply Hline; vm_compute; reflexivity.
  - intros fuel color character. unfold line.
    set (l := mkLine _ _). set (p1 := set_lines _ window_4x2).
    replace (range p1) with true by reflexivity. cbv iota.
    apply Hline; vm_compute; reflexivity.
Qed.

(** C3, witness: the walk from (3, 7) to (-2, 1). *)
Lemma line_walk_connected_witness :
  span_ok 3 (-2) ∧ span_ok 7 1 ∧
  ∃ path,
    line_path (S (Z.to_nat (Z.abs (-2 - 3) + Z.abs (1 - 7)))) 3 7 (-2) 1 = Some path ∧
    head path = Some (3, 7) ∧ last path = Some (-2, 1) ∧ connected8 path.
Proof.
  assert (Hx : span_ok 3 (-2)) by (unfold span_ok, is_int, INT_MIN, INT_MAX; lia).
  assert (Hy : span_ok 7 1) by (unfold span_ok, is_int, INT_MIN, INT_MAX; lia).
  split; [exact Hx |]. split; [exact Hy |].
  destruct (line_walk_connected 3 7 (-2) 1 Hx Hy)
    as (path & Hp & Hhd & Hlast & Hconn & _).
  exists path. split; [exact Hp |]. split; [exact Hhd |]. split; [exact Hlast | exact Hconn].
Defined.

(** C4, witness: the vertical walk from (0, 0) to (0, 5), where [dx = 0]. *)
Lemma line_walk_terminates_witness :
  span_ok 0 0 ∧ span_ok 0 5 ∧
  ∃ (n : nat) (path : list (Z * Z)),
    (1 ≤ n)%nat ∧ Z.of_nat n <= Z.abs (0 - 0) + Z.abs (5 - 0) + 1 ∧
    length path = n ∧
    (∀ fuel, (n ≤ fuel)%nat → line_path fuel 0 0 0 5 = Some path) ∧
    (∀ fuel, (fuel < n)%nat → line_path fuel 0 0 0 5 = None) ∧
    last path = Some (0, 5).
Proof.
  assert (Hx : span_ok 0 0) by (unfold span_ok, is_int, INT_MIN, INT_MAX; lia).
  assert (Hy : span_ok 0 5) by (unfold span_ok, is_int, INT_MIN, INT_MAX; lia).
  split; [exact Hx |]. split; [exact Hy |].
  destruct (line_walk_terminates 0 0 0 5 Hx Hy)
    as (n & path & Hn1 & Hn2 & Hlen & Hsome & Hnone & Hlast & _).
  exists n, path.
  split; [exact Hn1 |]. split; [exact Hn2 |]. split; [exact Hlen |].
  split; [exact Hsome |]. split; [exact Hnone | exact Hlast].
Defined.

(** C5, witness: the point (1, 1.5) in WHITE on the empty 4 x 2 grid. *)
Lemma point_block_nibble_witness :
  wf window_4x2 ∧ range window_4x2 = true ∧ is_color WHITE ∧
  map_x window_4x2 1 = Some 1 ∧ map_y window_4x2 1.5 = Some 1 ∧
  ∃ p',
    point 1 1.5 WHITE BLOCK window_4x2 = Some p' ∧
    cell_at window_4x2 1 = Some (mkCell EMPTY 0) ∧
    cell_at p' 1 = Some (mkCell BLOCK (-16)) ∧
    upper (-16) = WHITE ∧ lower (-16) = BLACK.
Proof.
  assert (Hwf : wf window_4x2) by (apply wfb_wf; vm_compute; reflexivity).
  assert (Hc : is_color WHITE) by (unfold is_color, WHITE; lia).
  assert (Hx : map_x window_4x2 1 = Some 1) by (vm_compute; reflexivity).
  assert (Hy : map_y window_4x2 1.5 = Some 1) by (vm_compute; reflexivity).
  split; [exact Hwf |]. split; [reflexivity |]. split; [exact Hc |].
  split; [exact Hx |]. split; [exact Hy |].
  assert (Hcol : 0 <= 1 < w window_4x2)
    by (replace (w window_4x2) with 4 by (vm_compute; reflexivity); lia).
  assert (Hsub : 0 <= 1 < 2 * h window_4x2)
    by (replace (h window_4x2) with 2 by (vm_compute; reflexivity); lia).
  destruct (point_block_nibble window_4x2 1 1.5 WHITE 1 1 Hwf eq_refl Hc Hx Hy Hcol Hsub)
    as (buf & c & p' & Hbuf & Hlk & Hpt & _).
  exists p'. split; [exact Hpt |].
  vm_compute in Hpt. injection Hpt as <-. vm_compute. repeat split; reflexivity.
Defined.

(** C6, witness: the glyph [b] in GREEN over a block cell whose lower nibble is RED. *)
Lemma setCell_glyph_over_block_witness :
  wf dotted_plot ∧ is_color GREEN ∧ "b"%char ≠ BLOCK ∧
  cell_at dotted_plot 1 = Some (mkCell BLOCK 1) ∧
  ∃ p',
    setCell 1 0 GREEN "b" dotted_plot = Some p' ∧
    cell_at p' 1 = Some (mkCell "b" 18) ∧ upper 18 = RED ∧ lower 18 = GREEN.
Proof.
  assert (Hwf : wf dotted_plot) by (apply wfb_wf; vm_compute; reflexivity).
  assert (Hc : is_color GREEN) by (unfold is_color, GREEN; lia).
  assert (Hne : "b"%char ≠ BLOCK) by done.
  assert (Hcell : cell_at dotted_plot 1 = Some (mkCell BLOCK 1)) by (vm_compute; reflexivity).
  split; [exact Hwf |]. split; [exact Hc |]. split; [exact Hne |]. split; [exact Hcell |].
  assert (Hcol : 0 <= 1 < w dotted_plot)
    by (replace (w dotted_plot) with 4 by (vm_compute; reflexivity); lia).
  assert (Hsub : 0 <= 0 < 2 * h dotted_plot)
    by (replace (h dotted_plot) with 2 by (vm_compute; reflexivity); lia).
  destruct (setCell_glyph_over_block dotted_plot 1 0 GREEN "b" Hwf Hc Hne Hcol Hsub)
    as (buf & c & p' & Hbuf & Hlk & Hset & _).
  exists p'. split; [exact Hset |].
  vm_compute in Hset. injection Hset as <-. vm_compute. repeat split; reflexivity.
Defined.

(** C7, witness: a block line in RED and a point with the glyph [b] in GREEN on its start. *)
Lemma render_last_point_witness :
  points marker_plot = [] ++ [(mkCell "b" GREEN, [] ++ [mkPoint 0 0])] ∧
  is_color GREEN ∧
  ∃ p',
    render 8 marker_plot = Some p' ∧
    cell_at p' 0 = Some (mkCell "b" 18) ∧ lower 18 = GREEN ∧ upper 18 = RED.
Proof.
  assert (Hp : points marker_plot = [] ++ [(mkCell "b" GREEN, [] ++ [mkPoint 0 0])])
    by (vm_compute; reflexivity).
  assert (Hc : is_color (co (mkCell "b" GREEN))) by (unfold is_color, GREEN; cbn; lia).
  assert (Hr : is_Some (render 8 marker_plot)) by (vm_compute; eexists; reflexivity).
  destruct Hr as [p' Hr].
  split; [exact Hp |]. split; [exact Hc |].
  destruct (render_last_point 8 marker_plot [] (mkCell "b" GREEN) [] (mkPoint 0 0) Hp Hc)
    as [_ Hlast].
  destruct (Hlast p' Hr) as (lw & pw1 & s & x & y & _).
  exists p'. split; [exact Hr |].
  vm_compute in Hr. injection Hr as <-. vm_compute. repeat split; reflexivity.
Defined.

(** C8, witness: columns [-1] and [w] on the 4 x 2 grid. *)
Lemma setCell_clips_witness :
  0 <= h window_4x2 <= INT_MAX ∧
  setCell (-1) 0 WHITE BLOCK window_4x2 = Some window_4x2 ∧
  setCell 4 0 WHITE BLOCK window_4x2 = Some window_4x2.
Proof.
  assert (Hh : 0 <= h window_4x2 <= INT_MAX)
    by (replace (h window_4x2) with 2 by (vm_compute; reflexivity); unfold INT_MAX; lia).
  split; [exact Hh |].
  destruct (setCell_clips window_4x2 WHITE BLOCK Hh) as [Hout _].
  split.
  - apply Hout. left. lia.
  - apply Hout. right. left.
    replace (w window_4x2) with 4 by (vm_compute; reflexivity). lia.
Defined.

(** C9, witness: the points (0,0) and (10,10) on the 4 x 2 grid. *)
Lemma implicit_window_witness :
  range grid_4x2 = false ∧ fresh_bounds grid_4x2 ∧
  ∃ p p',
    for_each (submit 0) [AddPoint 0 0 WHITE BLOCK; AddPoint 10 10 WHITE BLOCK] grid_4x2
      = Some p ∧
    render 0 p = Some p' ∧
    topLeft p' = mkPoint 0 0 ∧ dx p' = 10%float ∧ dy p' = 10%float.
Proof.
  assert (Hf : fresh_bounds grid_4x2) by (vm_compute; repeat split; reflexivity).
  split; [reflexivity |]. split; [exact Hf |].
  destruct (implicit_window 0 [AddPoint 0 0 WHITE BLOCK; AddPoint 10 10 WHITE BLOCK]
              grid_4x2 eq_refl Hf)
    as (p & Hp & Htl & Hdx & Hdy & _ & Hkeep & _ & _ & _ & _ & _ & Hex).
  destruct (Hex _ _ _ _ eq_refl) as (Et & Ex & Ey).
  assert (Hr : is_Some (render 0 p)).
  { vm_compute in Hp. injection Hp as <-. vm_compute. eexists. reflexivity. }
  destruct Hr as [p' Hr].
  exists p, p'. split; [exact Hp |]. split; [exact Hr |].
  destruct (Hkeep p' Hr) as (Kt & Kx & Ky). by rewrite Kt, Kx, Ky.
Defined.

(** ** Examples of the further properties *)

(** X1, witness: the walk from (0, 0) to (5, 2). *)
Lemma line_walk_in_box_witness :
  span_ok 0 5 ∧ span_ok 0 2 ∧
  line_path 6 0 0 5 2 = Some [(0, 0); (1, 0); (2, 1); (3, 1); (4, 2); (5, 2)] ∧
  Forall (in_box 0 0 5 2) [(0, 0); (1, 0); (2, 1); (3, 1); (4, 2); (5, 2)].
Proof.
  assert (Hx : span_ok 0 5) by (unfold span_ok, is_int, INT_MIN, INT_MAX; lia).
  assert (Hy : span_ok 0 2) by (unfold span_ok, is_int, INT_MIN, INT_MAX; lia).
  assert (Hp : line_path 6 0 0 5 2 = Some [(0, 0); (1, 0); (2, 1); (3, 1); (4, 2); (5, 2)])
    by (vm_compute; reflexivity).
  split; [exact Hx |]. split; [exact Hy |]. split; [exact Hp |].
  exact (proj1 (line_walk_in_box 0 0 5 2 6 _ Hx Hy Hp)).
Defined.

(** X2, witness: the steep walk from (0, 0) to (2, 5): six cells, one per sub-row. *)
Lemma line_walk_major_axis_witness :
  span_ok 0 2 ∧ span_ok 0 5 ∧
  line_path 6 0 0 2 5 = Some [(0, 0); (1, 1); (1, 2); (2, 3); (2, 4); (2, 5)] ∧
  Z.of_nat (length [(0, 0); (1, 1); (1, 2); (2, 3); (2, 4); (2, 5)]) =
    Z.max (Z.abs (2 - 0)) (Z.abs (5 - 0)) + 1.
Proof.
  assert (Hx : span_ok 0 2) by (unfold span_ok, is_int, INT_MIN, INT_MAX; lia).
  assert (Hy : span_ok 0 5) by (unfold span_ok, is_int, INT_MIN, INT_MAX; lia).
  assert (Hp : line_path 6 0 0 2 5 = Some [(0, 0); (1, 1); (1, 2); (2, 3); (2, 4); (2, 5)])
    by (vm_compute; reflexivity).
  split; [exact Hx |]. split; [exact Hy |]. split; [exact Hp |].
  exact (proj1 (line_walk_major_axis 0 0 2 5 6 _ Hx Hy Hp)).
Defined.

(** X3, witness: the walk from (1, 1) to (3, 2): the tie in the middle
    column goes to the row of the start. *)
Lemma line_walk_rounding_witness :
  span_ok 1 3 ∧ span_ok 1 2 ∧
  line_path 3 1 1 3 2 = Some [(1, 1); (2, 1); (3, 2)] ∧
  ∃ j, 1 = 1 + Z.sgn (2 - 1) * j ∧ 0 <= j <= Z.abs (2 - 1) ∧
       - Z.abs (3 - 1) <= 2 * (Z.abs (3 - 1) * j - Z.abs (2 - 1) * Z.of_nat 1)
         < Z.abs (3 - 1) ∧
       j = (2 * Z.of_nat 1 * Z.abs (2 - 1) + Z.abs (3 - 1) - 1) / (2 * Z.abs (3 - 1)).
Proof.
  assert (Hx : span_ok 1 3) by (unfold span_ok, is_int, INT_MIN, INT_MAX; lia).
  assert (Hy : span_ok 1 2) by (unfold span_ok, is_int, INT_MIN, INT_MAX; lia).
  assert (Hp : line_path 3 1 1 3 2 = Some [(1, 1); (2, 1); (3, 2)])
    by (vm_compute; reflexivity).
  split; [exact Hx |]. split; [exact Hy |]. split; [exact Hp |].
  destruct (line_walk_rounding 1 1 3 2 3 _ Hx Hy Hp) as [Hsh _].
  exact (Hsh ltac:(lia) ltac:(lia) 1%nat (2, 1) eq_refl).
Defined.

(** X4, witness: the glyph [b] written twice over the block cell of [dotted_plot]. *)
Lemma setCell_twice_witness :
  ∃ p1,
    setCell 1 0 GREEN "b" dotted_plot = Some p1 ∧
    setCell 1 0 GREEN "b" p1 = Some p1 ∧
    cell_at p1 1 = Some (mkCell "b" 18).
Proof.
  assert (Hs : is_Some (setCell 1 0 GREEN "b" dotted_plot))
    by (vm_compute; eexists; reflexivity).
  destruct Hs as [p1 Hs]. exists p1.
  split; [exact Hs |].
  split; [exact (setCell_twice 1 0 GREEN "b" dotted_plot p1 Hs) |].
  vm_compute in Hs. injection Hs as <-. vm_compute. reflexivity.
Defined.

(** X5, witness: the glyph [b] in GREEN over the glyph [a] in RED. *)
Lemma setCell_glyph_over_glyph_witness :
  wf lettered_plot ∧ is_color GREEN ∧ "b"%char ≠ BLOCK ∧
  ∃ p',
    setCell 1 0 GREEN "b" lettered_plot = Some p' ∧
    cell_at lettered_plot 1 = Some (mkCell "a" 1) ∧
    cell_at p' 1 = Some (mkCell "b" 18) ∧ upper 18 = RED ∧ lower 18 = GREEN.
Proof.
  assert (Hwf : wf lettered_plot) by (apply wfb_wf; vm_compute; reflexivity).
  assert (Hc : is_color GREEN) by (unfold is_color, GREEN; lia).
  assert (Hne : "b"%char ≠ BLOCK) by done.
  split; [exact Hwf |]. split; [exact Hc |]. split; [exact Hne |].
  assert (Hcol : 0 <= 1 < w lettered_plot)
    by (replace (w lettered_plot) with 4 by (vm_compute; reflexivity); lia).
  assert (Hsub : 0 <= 0 < 2 * h lettered_plot)
    by (replace (h lettered_plot) with 2 by (vm_compute; reflexivity); lia).
  destruct (setCell_glyph_over_glyph lettered_plot 1 0 GREEN "b" Hwf Hc Hne Hcol Hsub)
    as (buf & c & p' & Hbuf & Hlk & Hset & _).
  exists p'. split; [exact Hset |].
  vm_compute in Hset. injection Hset as <-. vm_compute. repeat split; reflexivity.
Defined.

(** X6, witness: a block write at sub-row 1 of the Y-inverted 4 x 2 grid: it
    shows in half-line 2, the upper half of the second printed row. *)
Lemma block_write_position_witness :
  wf (invertYAxis true window_4x2) ∧ is_color RED ∧
  ∃ p',
    setCell 1 1 RED BLOCK (invertYAxis true window_4x2) = Some p' ∧
    row_order p' = [1; 0] ∧
    cell_at p' 1 = Some (mkCell BLOCK 1) ∧ lower 1 = RED.
Proof.
  assert (Hwf : wf (invertYAxis true window_4x2)) by (apply wfb_wf; vm_compute; reflexivity).
  assert (Hc : is_color RED) by (unfold is_color, RED; lia).
  split; [exact Hwf |]. split; [exact Hc |].
  assert (Hcol : 0 <= 1 < w (invertYAxis true window_4x2))
    by (replace (w (invertYAxis true window_4x2)) with 4 by (vm_compute; reflexivity); lia).
  assert (Hsub : 0 <= 1 < 2 * h (invertYAxis true window_4x2))
    by (replace (h (invertYAxis true window_4x2)) with 2 by (vm_compute; reflexivity); lia).
  destruct (block_write_position (invertYAxis true window_4x2) 1 1 RED Hwf Hc Hcol Hsub)
    as (buf & buf' & c & p' & Hbuf & Hlk & Hset & _).
  exists p'. split; [exact Hset |].
  vm_compute in Hset. injection Hset as <-. vm_compute. repeat split; reflexivity.
Defined.

(** X8, witness: [render] on the plot with a block line and a glyph on its start. *)
Lemma render_frame_witness :
  ∃ p',
    render 9 marker_plot = Some p' ∧
    points p' = points marker_plot ∧ lines p' = lines marker_plot ∧
    length <$> printBuf p' = length <$> printBuf marker_plot.
Proof.
  assert (Hr : is_Some (render 9 marker_plot)) by (vm_compute; eexists; reflexivity).
  destruct Hr as [p' Hr]. exists p'. split; [exact Hr |].
  destruct (render_frame 9 marker_plot p' Hr)
    as (_ & _ & _ & _ & _ & _ & _ & _ & _ & Hp & Hl & Hlen & _).
  split; [exact Hp |]. split; [exact Hl | exact Hlen].
Defined.

(** X9, witness: [render] on the plot that was never sized: the first point
    maps to the cell (0, 0), inside the 10 x 10 area. *)
Lemma render_without_grid_witness :
  printBuf gridless_plot = None ∧
  render_writes 0 (render_window gridless_plot) =
    Some [mkWrite 0 0 WHITE BLOCK; mkWrite 10 20 WHITE BLOCK] ∧
  render 0 gridless_plot = None.
Proof.
  assert (Hn : printBuf gridless_plot = None) by (vm_compute; reflexivity).
  assert (Hw : render_writes 0 (render_window gridless_plot) =
               Some [mkWrite 0 0 WHITE BLOCK; mkWrite 10 20 WHITE BLOCK])
    by (vm_compute; reflexivity).
  split; [exact Hn |]. split; [exact Hw |].
  destruct (render_without_grid 0 gridless_plot _ Hn Hw) as [[Hr _] | [Hr _]];
    [| exact Hr].
  vm_compute in Hr. discriminate Hr.
Defined.

(** X10, witness: clearing the grid of [dotted_plot]. *)
Lemma clearPlot_erases_witness :
  wf dotted_plot ∧
  cell_at dotted_plot 1 = Some (mkCell BLOCK 1) ∧
  printBuf (clearPlot dotted_plot) = Some (blank_grid dotted_plot) ∧
  blank_grid dotted_plot = replicate 8 (mkCell EMPTY 0).
Proof.
  assert (Hwf : wf dotted_plot) by (apply wfb_wf; vm_compute; reflexivity).
  split; [exact Hwf |]. split; [vm_compute; reflexivity |].
  split; [exact (proj1 (clearPlot_erases dotted_plot Hwf)) |].
  vm_compute. reflexivity.
Defined.

(** X11, witness: the grid invariant on the empty 4 x 2 grid. *)
Lemma grid_invariant_witness :
  wf grid_4x2 ∧ wf (clearData grid_4x2) ∧ wf (setDrawRange 0 0 4 4 grid_4x2).
Proof.
  assert (Hwf : wf grid_4x2) by (apply wfb_wf; vm_compute; reflexivity).
  split; [exact Hwf |].
  destruct (grid_invariant grid_4x2 Hwf) as (_ & _ & Hr & Hd & _).
  split; [exact Hd | exact (Hr 0%float 0%float 4%float 4%float)].
Defined.

(** X12, witness: [setSize 4 2] on the default-constructed plot. *)
Lemma setSize_allocates_witness :
  is_int (4 * 2) ∧
  ∃ p', setSize 4 2 Plot_default = Some p' ∧ wf p' ∧
        printBuf p' = Some (replicate 8 (mkCell EMPTY 0)).
Proof.
  assert (Hi : is_int (4 * 2)) by (unfold is_int, INT_MIN, INT_MAX; lia).
  split; [exact Hi |].
  destruct (setSize_allocates 4 2 Plot_default Hi) as [_ Hok].
  destruct Hok as (p' & Hs & Hwf & _); [unfold INT_MAX; lia | lia | unfold INT_MAX; lia |].
  exists p'. split; [exact Hs |]. split; [exact Hwf |].
  vm_compute in Hs. injection Hs as <-. vm_compute. reflexivity.
Defined.

(** X14, witness: one point in implicit mode: the window has width zero. *)
Lemma zero_extent_unmapped_witness :
  Prim2SF (dx (render_window single_point_plot)) = S754_zero false ∧
  has_data single_point_plot ∧
  map_x (render_window single_point_plot) 1 = None ∧
  render 0 single_point_plot = None.
Proof.
  assert (Hz : Prim2SF (dx (render_window single_point_plot)) = S754_zero false)
    by (vm_compute; reflexivity).
  assert (Hd : has_data single_point_plot) by (right; vm_compute; discriminate).
  split; [exact Hz |]. split; [exact Hd |].
  destruct (zero_extent_unmapped 0 single_point_plot false (or_introl Hz))
    as [[Hx _] Hr].
  split; [exact (Hx Hz 1%float) | exact (Hr Hd)].
Defined.

(** X15, witness: the point (NaN, 2) on the empty 4 x 2 grid in implicit mode. *)
Lemma nan_coordinate_witness :
  PrimFloat.is_nan nan = true ∧
  minX (updateXYMinMax (mkPoint nan 2) grid_4x2) = infinity ∧
  map_x window_4x2 nan = None.
Proof.
  assert (Hn : PrimFloat.is_nan nan = true) by (vm_compute; reflexivity).
  split; [exact Hn |].
  destruct (nan_coordinate nan 2 grid_4x2 Hn) as (Hmin & _).
  destruct (nan_coordinate nan 2 window_4x2 Hn) as (_ & _ & _ & _ & Hx & _).
  split; [exact Hmin | exact Hx].
Defined.

(** X16, witness: [print] on [dotted_plot] without formats: two rows of four cells. *)
Lemma print_layout_witness :
  wf dotted_plot ∧
  ∃ buf,
    printBuf dotted_plot = Some buf ∧
    print constant_label 3 0 Formats_default dotted_plot =
      Some (concat (map (row_text constant_label Formats_default dotted_plot buf) [0; 1])
            ++ sgr_reset) ∧
    row_text constant_label Formats_default dotted_plot buf 0 =
      sgr 0 ++ [" "%char] ++ sgr 1 ++ upper_half_block ++
      sgr 0 ++ [" "%char; " "%char] ++ [NEWLINE].
Proof.
  assert (Hwf : wf dotted_plot) by (apply wfb_wf; vm_compute; reflexivity).
  split; [exact Hwf |].
  assert (Hb : is_Some (printBuf dotted_plot)) by (vm_compute; eexists; reflexivity).
  destruct Hb as [buf Hb]. exists buf. split; [exact Hb |].
  assert (Hf : (Z.to_nat (h dotted_plot) < 3)%nat)
    by (replace (h dotted_plot) with 2 by (vm_compute; reflexivity); lia).
  destruct (print_layout constant_label 3 0 Formats_default dotted_plot buf Hwf Hb Hf)
    as (_ & Hp & _).
  split; [exact (Hp eq_refl) |].
  vm_compute in Hb. injection Hb as <-. vm_compute. reflexivity.
Defined.

(** X17, witness: the blank 4 x 2 grid printed without formats. *)
Lemma print_blank_grid_witness :
  wf grid_4x2 ∧ printBuf grid_4x2 = Some (blank_grid grid_4x2) ∧
  print constant_label 3 0 Formats_default grid_4x2 =
    Some (concat (replicate 2 (sgr 0 ++ replicate 4 " "%char ++ [NEWLINE])) ++ sgr_reset).
Proof.
  assert (Hwf : wf grid_4x2) by (apply wfb_wf; vm_compute; reflexivity).
  assert (Hb : printBuf grid_4x2 = Some (blank_grid grid_4x2)) by (vm_compute; reflexivity).
  split; [exact Hwf |]. split; [exact Hb |].
  assert (Hw : 0 < w grid_4x2)
    by (replace (w grid_4x2) with 4 by (vm_compute; reflexivity); lia).
  assert (Hf : (Z.to_nat (h grid_4x2) < 3)%nat)
    by (replace (h grid_4x2) with 2 by (vm_compute; reflexivity); lia).
  exact (print_blank_grid constant_label 3 0 Formats_default grid_4x2
           Hwf Hb Hw eq_refl eq_refl Hf).
Defined.

(** X18, witness: the X axis of the 4 x 2 grid with one-character labels:
    two ticks, four characters. *)
Lemma print_axis_columns_witness :
  (∀ v, w grid_4x2 + Z.of_nat (length (constant_label (xFormat both_formats) v)) < INT_MAX) ∧
  print_axis constant_label 5 0 both_formats grid_4x2 =
    Some ["|"%char; "0"%char; "|"%char; "0"%char] ∧
  ∃ xs,
    print_axis constant_label 5 0 both_formats grid_4x2 =
      Some (concat (map (axis_label constant_label both_formats grid_4x2) xs)) ∧
    head xs = Some 0.
Proof.
  assert (Hl : ∀ v, w grid_4x2 +
                    Z.of_nat (length (constant_label (xFormat both_formats) v)) < INT_MAX).
  { intros v. replace (w grid_4x2) with 4 by (vm_compute; reflexivity).
    unfold INT_MAX. cbn. lia. }
  split; [exact Hl |]. split; [vm_compute; reflexivity |].
  assert (Hf : (Z.to_nat (w grid_4x2) < 5)%nat)
    by (replace (w grid_4x2) with 4 by (vm_compute; reflexivity); lia).
  destruct (print_axis_columns constant_label 5 both_formats grid_4x2 Hl Hf)
    as (xs & Hrun & _ & Hhead & _).
  exists xs. split; [exact Hrun |]. apply Hhead.
  replace (w grid_4x2) with 4 by (vm_compute; reflexivity). lia.
Defined.

End SCP.
